(** * ShipGL.Model: geometry packing, normal matrices and extents

    A shallow embedding of [ShipGL.Model] (src/Scene/Model.js) and of the
    part of [ShipGL.Buffer] (src/Buffers/Buffer.js) it drives, followed by
    the properties the specification states about them.

    Conventions of the embedding.
    - JavaScript numbers are idealised as real numbers; [NaN], which the
      code produces when it reads past the end of an array, is kept as a
      separate value.  Rounding and overflow of IEEE arithmetic are outside
      the model.
    - A method that mutates [this] is a function from the state before to a
      [Completion]: the state after, or a thrown error with the state at the
      throw.
    - Fields that [initialize] attaches to parsed JSON objects, and the
      properties of a parsed mesh, material or node that the code reads,
      are [option] fields, [None] standing for [undefined].  The scene
      description itself has its three arrays, [meshes], [materials] and
      [nodes]. *)

From Stdlib Require Import Reals Lra Lia List ZArith String Bool Arith.
Import ListNotations.

Set Implicit Arguments.

(** ** Abrupt completion *)

Inductive JSError : Type :=
| TypeError.

(** [Normal a]: the code ran to its end with result [a].
    [Throw e s]: it threw [e]; [s] is what had been mutated by then. *)
Inductive Completion (A S : Type) : Type :=
| Normal (a : A)
| Throw (e : JSError) (s : S).

Arguments Normal {A S} a.
Arguments Throw {A S} e s.

(** Truthiness of a possibly undefined boolean field. *)
Definition truthy (b : option bool) : bool :=
  match b with
  | Some true => true
  | _ => false
  end.

(** [Array.prototype.slice(b, e)] for [0 <= b <= e]. *)
Definition slice {A : Type} (l : list A) (b e : nat) : list A :=
  firstn (e - b) (skipn b l).

(** ** Typed arrays and the graphics backend's buffers *)

(** A typed-array constructor: the width of an element and the conversion
    [new ArrayType(array)] applies to every number it stores. *)
Record TypedArray (A E : Type) : Type := {
  BYTES_PER_ELEMENT : nat;
  element : A -> E;
  zero : E
}.

Definition Uint16Array : TypedArray Z Z :=
  {| BYTES_PER_ELEMENT := 2;
     element := fun n => (n mod 65536)%Z;
     zero := 0%Z |}.

Inductive BufferTarget : Type :=
| ARRAY_BUFFER
| ELEMENT_ARRAY_BUFFER.

(** The data store behind a WebGL buffer object, in elements rather than
    bytes (every offset and size the code passes is a multiple of the
    element width).  [subData] records the [bufferSubData] calls made so
    far, newest first, as (element offset, element count). *)
Record WebGLBuffer (E : Type) : Type := {
  store : list E;
  subData : list (nat * nat)
}.

Definition createBuffer {E : Type} : WebGLBuffer E :=
  {| store := []; subData := [] |}.

(** [gl.bufferData(target, size, usage)]: a fresh zero-filled store. *)
Definition bufferData {E : Type} (z : E) (size : nat) (b : WebGLBuffer E)
  : WebGLBuffer E :=
  {| store := repeat z size; subData := subData b |}.

(** [gl.bufferSubData(target, offset, data)]: overwrites the store from
    [offset]; a range that does not fit raises the backend's INVALID_VALUE
    and leaves the store as it was. *)
Definition bufferSubData {E : Type} (offset : nat) (data : list E)
  (b : WebGLBuffer E) : WebGLBuffer E :=
  {| store :=
       if offset + List.length data <=? List.length (store b)
       then firstn offset (store b) ++ data
              ++ skipn (offset + List.length data) (store b)
       else store b;
     subData := (offset, List.length data) :: subData b |}.

Module Buffer.

Record t (A E : Type) : Type := {
  rawBuffer : WebGLBuffer E;
  BufferType : BufferTarget;
  ArrayType : TypedArray A E;
  bytesPerElement : nat;
  length : nat;
  byteCount : nat
}.

(** [new ShipGL.Buffer(gl, BufferType, ArrayType)] *)
Definition new {A E : Type} (BufferType : BufferTarget)
  (ArrayType : TypedArray A E) : t A E :=
  {| rawBuffer := createBuffer;
     BufferType := BufferType;
     ArrayType := ArrayType;
     bytesPerElement := BYTES_PER_ELEMENT ArrayType;
     length := 0;
     byteCount := 0 |}.

(** Binding selects the buffer later [bufferData]/[bufferSubData] calls act
    on.  The two buffers of a model use different targets and stay bound
    while [_initBuffers] runs, so each call is modelled as acting on the
    buffer's own store and binding leaves the buffer as it is. *)
Definition bind {A E : Type} (this : t A E) : t A E := this.

Definition unbind {A E : Type} (this : t A E) : t A E := this.

Definition allocate {A E : Type} (this : t A E) (length : nat) : t A E :=
  {| rawBuffer := bufferData (zero (ArrayType this)) length (rawBuffer this);
     BufferType := BufferType this;
     ArrayType := ArrayType this;
     bytesPerElement := bytesPerElement this;
     length := length;
     byteCount := bytesPerElement this * length |}.

Definition write {A E : Type} (this : t A E) (array : list A)
  (index : option nat) : t A E :=
  let index := match index with Some i => i | None => 0 end in
  {| rawBuffer :=
       bufferSubData index (map (element (ArrayType this)) array)
         (rawBuffer this);
     BufferType := BufferType this;
     ArrayType := ArrayType this;
     bytesPerElement := bytesPerElement this;
     length := length this;
     byteCount := byteCount this |}.

(** Number of elements handed to [write] so far. *)
Definition written {A E : Type} (this : t A E) : nat :=
  list_sum (map snd (subData (rawBuffer this))).

End Buffer.

(** ** Numbers *)

(** A JavaScript number: a real, or [NaN]. *)
Inductive Number : Type :=
| Num (r : R)
| NaN.

Definition Rltb (a b : R) : bool :=
  if Rlt_dec a b then true else false.

Definition Nadd (a b : Number) : Number :=
  match a, b with
  | Num u, Num v => Num (u + v)
  | _, _ => NaN
  end.

Definition Nsub (a b : Number) : Number :=
  match a, b with
  | Num u, Num v => Num (u - v)
  | _, _ => NaN
  end.

Definition Nmul (a b : Number) : Number :=
  match a, b with
  | Num u, Num v => Num (u * v)
  | _, _ => NaN
  end.

(** [a < b] and [a > b]: false as soon as one side is [NaN]. *)
Definition Nlt (a b : Number) : bool :=
  match a, b with
  | Num u, Num v => Rltb u v
  | _, _ => false
  end.

Definition Ngt (a b : Number) : bool := Nlt b a.

(** [Math.sqrt] *)
Definition Math_sqrt (a : Number) : Number :=
  match a with
  | Num u => if Rlt_dec u 0 then NaN else Num (sqrt u)
  | NaN => NaN
  end.

(** [Number.MAX_VALUE] = (2 - 2^-52) * 2^1023 and [Number.MIN_VALUE] =
    2^-1074, the largest finite and the smallest positive double. *)
Definition Number_MAX_VALUE : R := ((2 - / 2 ^ 52) * 2 ^ 1023)%R.

Definition Number_MIN_VALUE : R := (/ 2 ^ 1074)%R.

(** [a[i]] on an array of numbers, stored into a numeric slot: reading past
    the end gives [undefined], which becomes [NaN]. *)
Definition readNumber (a : list R) (i : nat) : Number :=
  match nth_error a i with
  | Some r => Num r
  | None => NaN
  end.

(** ** The vector and matrix library

    [vec3] and [mat4] come from the matrix library the repository loads
    next to its own sources; that library is not part of the sources.  The
    functions [ShipGL.Model] calls are written here from what the
    specification says they compute.  A function that writes into a
    destination argument returns the destination's new contents. *)

Module vec3.

Record t : Type := mk { x : Number; y : Number; z : Number }.

(** Modelled from the spec: [vec3.create()], absent from the sources; a
    fresh zero vector. *)
Definition create : t := mk (Num 0) (Num 0) (Num 0).

(** Modelled from the spec: [vec3.createFrom(x, y, z)], absent from the
    sources; a fresh vector with the given components. *)
Definition createFrom (x y z : Number) : t := mk x y z.

(** Modelled from the spec: [vec3.set(vec, dest)], absent from the sources;
    copies [vec] into [dest]. *)
Definition set (vec dest : t) : t := vec.

(** Modelled from the spec: [vec3.add(vec, vec2, dest)], absent from the
    sources; the component-wise sum ("min + max"). *)
Definition add (vec vec2 : t) : t :=
  mk (Nadd (x vec) (x vec2)) (Nadd (y vec) (y vec2)) (Nadd (z vec) (z vec2)).

(** Modelled from the spec: [vec3.scale(vec, val)], absent from the
    sources; scales [vec] in place ("/ 2" is a scaling by 0.5). *)
Definition scale (vec : t) (val : Number) : t :=
  mk (Nmul (x vec) val) (Nmul (y vec) val) (Nmul (z vec) val).

(** Modelled from the spec: [vec3.dist(vec, vec2)], absent from the
    sources; "the Euclidean norm of max - min". *)
Definition dist (vec vec2 : t) : Number :=
  let dx := Nsub (x vec2) (x vec) in
  let dy := Nsub (y vec2) (y vec) in
  let dz := Nsub (z vec2) (z vec) in
  Math_sqrt (Nadd (Nadd (Nmul dx dx) (Nmul dy dy)) (Nmul dz dz)).

End vec3.

Module mat4.

Local Open Scope R_scope.

(** Sixteen numbers, column by column (the graphics backend's convention):
    [mIJ] is the entry in column I, row J, stored at index 4*I + J. *)
Record t : Type := mk {
  m00 : R; m01 : R; m02 : R; m03 : R;
  m10 : R; m11 : R; m12 : R; m13 : R;
  m20 : R; m21 : R; m22 : R; m23 : R;
  m30 : R; m31 : R; m32 : R; m33 : R
}.

(** Modelled from the spec: [mat4.create()], absent from the sources; a
    fresh matrix, zero-filled like every fresh typed array. *)
Definition create : t :=
  mk 0 0 0 0  0 0 0 0  0 0 0 0  0 0 0 0.

Definition identity : t :=
  mk 1 0 0 0  0 1 0 0  0 0 1 0  0 0 0 1.

(** Uniform scaling by [s] and translation by [(tx, ty, tz)]. *)
Definition scaling (s : R) : t :=
  mk s 0 0 0  0 s 0 0  0 0 s 0  0 0 0 1.

Definition translation (tx ty tz : R) : t :=
  mk 1 0 0 0  0 1 0 0  0 0 1 0  tx ty tz 1.

(** The matrix product [a * b] (column-major storage), used to say what an
    inverse is. *)
Definition mul (a b : t) : t :=
  mk (m00 a * m00 b + m10 a * m01 b + m20 a * m02 b + m30 a * m03 b)
     (m01 a * m00 b + m11 a * m01 b + m21 a * m02 b + m31 a * m03 b)
     (m02 a * m00 b + m12 a * m01 b + m22 a * m02 b + m32 a * m03 b)
     (m03 a * m00 b + m13 a * m01 b + m23 a * m02 b + m33 a * m03 b)
     (m00 a * m10 b + m10 a * m11 b + m20 a * m12 b + m30 a * m13 b)
     (m01 a * m10 b + m11 a * m11 b + m21 a * m12 b + m31 a * m13 b)
     (m02 a * m10 b + m12 a * m11 b + m22 a * m12 b + m32 a * m13 b)
     (m03 a * m10 b + m13 a * m11 b + m23 a * m12 b + m33 a * m13 b)
     (m00 a * m20 b + m10 a * m21 b + m20 a * m22 b + m30 a * m23 b)
     (m01 a * m20 b + m11 a * m21 b + m21 a * m22 b + m31 a * m23 b)
     (m02 a * m20 b + m12 a * m21 b + m22 a * m22 b + m32 a * m23 b)
     (m03 a * m20 b + m13 a * m21 b + m23 a * m22 b + m33 a * m23 b)
     (m00 a * m30 b + m10 a * m31 b + m20 a * m32 b + m30 a * m33 b)
     (m01 a * m30 b + m11 a * m31 b + m21 a * m32 b + m31 a * m33 b)
     (m02 a * m30 b + m12 a * m31 b + m22 a * m32 b + m32 a * m33 b)
     (m03 a * m30 b + m13 a * m31 b + m23 a * m32 b + m33 a * m33 b).

(** The determinant, by the 2x2 minors of the first two and of the last two
    columns. *)
Definition determinant (mat : t) : R :=
  let b00 := m00 mat * m11 mat - m01 mat * m10 mat in
  let b01 := m00 mat * m12 mat - m02 mat * m10 mat in
  let b02 := m00 mat * m13 mat - m03 mat * m10 mat in
  let b03 := m01 mat * m12 mat - m02 mat * m11 mat in
  let b04 := m01 mat * m13 mat - m03 mat * m11 mat in
  let b05 := m02 mat * m13 mat - m03 mat * m12 mat in
  let b06 := m20 mat * m31 mat - m21 mat * m30 mat in
  let b07 := m20 mat * m32 mat - m22 mat * m30 mat in
  let b08 := m20 mat * m33 mat - m23 mat * m30 mat in
  let b09 := m21 mat * m32 mat - m22 mat * m31 mat in
  let b10 := m21 mat * m33 mat - m23 mat * m31 mat in
  let b11 := m22 mat * m33 mat - m23 mat * m32 mat in
  b00 * b11 - b01 * b10 + b02 * b09 + b03 * b08 - b04 * b07 + b05 * b06.

(** The transpose of a matrix of numbers. *)
Definition transpose (mat : t) : t :=
  mk (m00 mat) (m10 mat) (m20 mat) (m30 mat)
     (m01 mat) (m11 mat) (m21 mat) (m31 mat)
     (m02 mat) (m12 mat) (m22 mat) (m32 mat)
     (m03 mat) (m13 mat) (m23 mat) (m33 mat).

(** What a matrix variable holds: sixteen numbers, or sixteen elements
    among which [NaN] or an infinity occurs, as a division by a zero
    determinant leaves them; which elements those are is not modelled. *)
Inductive Contents : Type :=
| Numbers (mat : t)
| NonFinite.

(** Modelled from the spec: [mat4.transpose(mat)], absent from the sources;
    "transpose that inverse", in place.  Transposing moves the elements, so
    contents with [NaN] or an infinity among them stay so. *)
Definition transposeContents (mat : Contents) : Contents :=
  match mat with
  | Numbers mat => Numbers (transpose mat)
  | NonFinite => NonFinite
  end.

(** What [mat4.inverse] does with a singular matrix.  The specification
    says only that the inversion "fails (degenerate)" there and that the
    behaviour is implementation-defined, so it is a parameter: from the
    matrix and the destination's contents, either the contents the call
    leaves when it returns, or the error it throws with the contents at the
    throw.  What the library throws is not told apart from the one error
    value of the model. *)
Definition Degenerate : Type := t -> Contents -> Completion Contents Contents.

(** Modelled from the spec: [mat4.inverse(mat, dest)], absent from the
    sources; "compute the inverse of its modelMatrix", written into [dest]
    as adjugate over determinant.  On a singular matrix it does what
    [degenerate] says.  The value the call returns is not modelled, the
    caller drops it. *)
Definition inverse (degenerate : Degenerate) (mat : t) (dest : Contents)
  : Completion Contents Contents :=
  let b00 := m00 mat * m11 mat - m01 mat * m10 mat in
  let b01 := m00 mat * m12 mat - m02 mat * m10 mat in
  let b02 := m00 mat * m13 mat - m03 mat * m10 mat in
  let b03 := m01 mat * m12 mat - m02 mat * m11 mat in
  let b04 := m01 mat * m13 mat - m03 mat * m11 mat in
  let b05 := m02 mat * m13 mat - m03 mat * m12 mat in
  let b06 := m20 mat * m31 mat - m21 mat * m30 mat in
  let b07 := m20 mat * m32 mat - m22 mat * m30 mat in
  let b08 := m20 mat * m33 mat - m23 mat * m30 mat in
  let b09 := m21 mat * m32 mat - m22 mat * m31 mat in
  let b10 := m21 mat * m33 mat - m23 mat * m31 mat in
  let b11 := m22 mat * m33 mat - m23 mat * m32 mat in
  let d := determinant mat in
  if Req_dec_T d 0 then degenerate mat dest
  else
    let invDet := 1 / d in
    Normal
      (Numbers
      (mk ((m11 mat * b11 - m12 mat * b10 + m13 mat * b09) * invDet)
          ((- m01 mat * b11 + m02 mat * b10 - m03 mat * b09) * invDet)
          ((m31 mat * b05 - m32 mat * b04 + m33 mat * b03) * invDet)
          ((- m21 mat * b05 + m22 mat * b04 - m23 mat * b03) * invDet)
          ((- m10 mat * b11 + m12 mat * b08 - m13 mat * b07) * invDet)
          ((m00 mat * b11 - m02 mat * b08 + m03 mat * b07) * invDet)
          ((- m30 mat * b05 + m32 mat * b02 - m33 mat * b01) * invDet)
          ((m20 mat * b05 - m22 mat * b02 + m23 mat * b01) * invDet)
          ((m10 mat * b10 - m11 mat * b08 + m13 mat * b06) * invDet)
          ((- m00 mat * b10 + m01 mat * b08 - m03 mat * b06) * invDet)
          ((m30 mat * b04 - m31 mat * b02 + m33 mat * b00) * invDet)
          ((- m20 mat * b04 + m21 mat * b02 - m23 mat * b00) * invDet)
          ((- m10 mat * b09 + m11 mat * b07 - m12 mat * b06) * invDet)
          ((m00 mat * b09 - m01 mat * b07 + m02 mat * b06) * invDet)
          ((- m30 mat * b03 + m31 mat * b01 - m32 mat * b00) * invDet)
          ((m20 mat * b03 - m21 mat * b01 + m22 mat * b00) * invDet))).

(** Modelled from the spec: [mat4.multiplyVec3(mat, vec)], absent from the
    sources; the "homogeneous point transform, w=1", written back into
    [vec]. *)
Definition multiplyVec3 (mat : t) (vec : vec3.t) : vec3.t :=
  let x := vec3.x vec in
  let y := vec3.y vec in
  let z := vec3.z vec in
  vec3.mk
    (Nadd (Nadd (Nadd (Nmul (Num (m00 mat)) x) (Nmul (Num (m10 mat)) y))
             (Nmul (Num (m20 mat)) z)) (Num (m30 mat)))
    (Nadd (Nadd (Nadd (Nmul (Num (m01 mat)) x) (Nmul (Num (m11 mat)) y))
             (Nmul (Num (m21 mat)) z)) (Num (m31 mat)))
    (Nadd (Nadd (Nadd (Nmul (Num (m02 mat)) x) (Nmul (Num (m12 mat)) y))
             (Nmul (Num (m22 mat)) z)) (Num (m32 mat))).

End mat4.

(** ** The parsed scene description *)

(** A material as parsed: its [diffuseTexture] array of image paths, when it
    has one. *)
Record Material : Type := {
  diffuseTexture : option (list string)
}.

(** A mesh as parsed ([vertexPositions] to [materialIndex]) together with
    the fields [initialize] attaches to it. *)
Record Mesh : Type := {
  vertexPositions : option (list R);
  vertexNormals : option (list R);
  vertexTexCoordinates : option (list (list R));
  indices : option (list Z);
  materialIndex : nat;
  hasTexture : option bool;
  hasIndices : option bool;
  stride : option nat;
  positionsOffset : option nat;
  normalsOffset : option nat;
  texCoordsOffset : option nat;
  indicesOffset : option nat;
  indicesByteOffset : option nat
}.

Definition set_hasTexture (m : Mesh) (v : bool) : Mesh :=
  Build_Mesh (vertexPositions m) (vertexNormals m) (vertexTexCoordinates m)
    (indices m) (materialIndex m) (Some v) (hasIndices m) (stride m)
    (positionsOffset m) (normalsOffset m) (texCoordsOffset m)
    (indicesOffset m) (indicesByteOffset m).

Definition set_hasIndices (m : Mesh) (v : bool) : Mesh :=
  Build_Mesh (vertexPositions m) (vertexNormals m) (vertexTexCoordinates m)
    (indices m) (materialIndex m) (hasTexture m) (Some v) (stride m)
    (positionsOffset m) (normalsOffset m) (texCoordsOffset m)
    (indicesOffset m) (indicesByteOffset m).

Definition set_stride (m : Mesh) (v : nat) : Mesh :=
  Build_Mesh (vertexPositions m) (vertexNormals m) (vertexTexCoordinates m)
    (indices m) (materialIndex m) (hasTexture m) (hasIndices m) (Some v)
    (positionsOffset m) (normalsOffset m) (texCoordsOffset m)
    (indicesOffset m) (indicesByteOffset m).

Definition set_positionsOffset (m : Mesh) (v : nat) : Mesh :=
  Build_Mesh (vertexPositions m) (vertexNormals m) (vertexTexCoordinates m)
    (indices m) (materialIndex m) (hasTexture m) (hasIndices m) (stride m)
    (Some v) (normalsOffset m) (texCoordsOffset m)
    (indicesOffset m) (indicesByteOffset m).

Definition set_normalsOffset (m : Mesh) (v : nat) : Mesh :=
  Build_Mesh (vertexPositions m) (vertexNormals m) (vertexTexCoordinates m)
    (indices m) (materialIndex m) (hasTexture m) (hasIndices m) (stride m)
    (positionsOffset m) (Some v) (texCoordsOffset m)
    (indicesOffset m) (indicesByteOffset m).

Definition set_texCoordsOffset (m : Mesh) (v : nat) : Mesh :=
  Build_Mesh (vertexPositions m) (vertexNormals m) (vertexTexCoordinates m)
    (indices m) (materialIndex m) (hasTexture m) (hasIndices m) (stride m)
    (positionsOffset m) (normalsOffset m) (Some v)
    (indicesOffset m) (indicesByteOffset m).

Definition set_indicesOffset (m : Mesh) (v : nat) : Mesh :=
  Build_Mesh (vertexPositions m) (vertexNormals m) (vertexTexCoordinates m)
    (indices m) (materialIndex m) (hasTexture m) (hasIndices m) (stride m)
    (positionsOffset m) (normalsOffset m) (texCoordsOffset m)
    (Some v) (indicesByteOffset m).

Definition set_indicesByteOffset (m : Mesh) (v : nat) : Mesh :=
  Build_Mesh (vertexPositions m) (vertexNormals m) (vertexTexCoordinates m)
    (indices m) (materialIndex m) (hasTexture m) (hasIndices m) (stride m)
    (positionsOffset m) (normalsOffset m) (texCoordsOffset m)
    (indicesOffset m) (Some v).

(** A mesh as [JSON.parse] delivers it: nothing attached yet. *)
Definition parsedMesh (positions normals : option (list R))
  (texCoordinates : option (list (list R))) (indices : option (list Z))
  (materialIndex : nat) : Mesh :=
  Build_Mesh positions normals texCoordinates indices materialIndex
    None None None None None None None None.

(** [curMesh.vertexTexCoordinates[0]], [None] when the property or the
    channel is missing. *)
Definition texChannel0 (m : Mesh) : option (list R) :=
  match vertexTexCoordinates m with
  | Some channels => nth_error channels 0
  | None => None
  end.

(** A node as parsed ([modelMatrix] and [meshIndices], when it has them)
    together with the [normalMatrix] that [initialize] attaches. *)
Record Node : Type := {
  modelMatrix : option mat4.t;
  meshIndices : option (list nat);
  normalMatrix : option mat4.Contents
}.

Record Scene : Type := {
  meshes : list Mesh;
  materials : list Material;
  nodes : list Node
}.

(** ** ShipGL.Model *)

Module Model.

(** The fields of a model; [F32] is the element type of the vertex buffer's
    typed array. *)
Record t (F32 : Type) : Type := {
  json : Scene;
  vbo : Buffer.t R F32;
  ibo : Buffer.t Z Z;
  min : vec3.t;
  max : vec3.t;
  center : vec3.t;
  diagonal : Number
}.

(** The constructor, from the parsed scene; [Float32Array] is the typed
    array it gives the vertex buffer. *)
Definition new {F32 : Type} (Float32Array : TypedArray R F32)
  (json : Scene) : t F32 :=
  {| json := json;
     vbo := Buffer.new ARRAY_BUFFER Float32Array;
     ibo := Buffer.new ELEMENT_ARRAY_BUFFER Uint16Array;
     min := vec3.create;
     max := vec3.create;
     center := vec3.create;
     diagonal := Num 0 |}.

(** *** _initBuffers *)

(** Body of the first loop: the sizes after [curMesh], and [curMesh] with
    [hasTexture], [stride], [hasIndices] and the index offsets attached. *)
Definition sizeBody (materials : list Material) (curMesh : Mesh)
  (vboSize iboSize : nat) : Completion (Mesh * nat * nat) Mesh :=
  let stride := 0 in
  match vertexPositions curMesh with
  | None => Throw TypeError curMesh
  | Some positions =>
    let vboSize := vboSize + List.length positions in
    let stride := stride + 3 in
    match vertexNormals curMesh with
    | None => Throw TypeError curMesh
    | Some normals =>
      let vboSize := vboSize + List.length normals in
      let stride := stride + 3 in
      let curMesh := set_hasTexture curMesh false in
      let textured : Completion (Mesh * nat * nat) Mesh :=
        match texChannel0 curMesh with
        | Some ((_ :: _) as texCoords) =>
          match nth_error materials (materialIndex curMesh) with
          | None => Throw TypeError curMesh
          | Some curMaterial =>
            match diffuseTexture curMaterial with
            | None => Throw TypeError curMesh
            | Some paths =>
              let curMesh :=
                set_hasTexture curMesh (0 <? List.length paths) in
              if truthy (hasTexture curMesh)
              then
                Normal (curMesh, vboSize + List.length texCoords, stride + 2)
              else Normal (curMesh, vboSize, stride)
            end
          end
        | _ => Normal (curMesh, vboSize, stride)
        end in
      match textured with
      | Throw e curMesh => Throw e curMesh
      | Normal (curMesh, vboSize, stride) =>
        let curMesh := set_stride curMesh stride in
        let curMesh := set_hasIndices curMesh false in
        match indices curMesh with
        | Some ((_ :: _) as idx) =>
          let curMesh := set_hasIndices curMesh true in
          let curMesh := set_indicesOffset curMesh iboSize in
          let curMesh :=
            set_indicesByteOffset curMesh
              (BYTES_PER_ELEMENT Uint16Array * iboSize) in
          Normal (curMesh, vboSize, iboSize + List.length idx)
        | _ => Normal (curMesh, vboSize, iboSize)
        end
      end
    end
  end.

(** The first loop, over the meshes in declaration order. *)
Fixpoint sizeLoop (materials : list Material) (meshes : list Mesh)
  (vboSize iboSize : nat) : Completion (list Mesh * nat * nat) (list Mesh) :=
  match meshes with
  | [] => Normal ([], vboSize, iboSize)
  | curMesh :: rest =>
    match sizeBody materials curMesh vboSize iboSize with
    | Throw e curMesh => Throw e (curMesh :: rest)
    | Normal (curMesh, vboSize, iboSize) =>
      match sizeLoop materials rest vboSize iboSize with
      | Throw e rest => Throw e (curMesh :: rest)
      | Normal (rest, vboSize, iboSize) =>
        Normal (curMesh :: rest, vboSize, iboSize)
      end
    end
  end.

(** The loop over the vertices of [curMesh]:
    [for (j = 0, k = 0; j < positions.length; j += 3)].  [fuel] bounds the
    number of iterations; the caller passes [positions.length], which the
    loop never uses up before its guard fails. *)
Fixpoint vertexLoop {F32 : Type} (fuel : nat) (curMesh : Mesh)
  (positions : list R) (j k : nat) (vbo : Buffer.t R F32) (writeIdx : nat)
  : Completion (Buffer.t R F32 * nat) (Buffer.t R F32) :=
  match fuel with
  | O => Normal (vbo, writeIdx)
  | S fuel =>
    if j <? List.length positions then
      let vbo := Buffer.write vbo (slice positions j (j + 3)) (Some writeIdx) in
      let writeIdx := writeIdx + 3 in
      match vertexNormals curMesh with
      | None => Throw TypeError vbo
      | Some normals =>
        let vbo :=
          Buffer.write vbo (slice normals j (j + 3)) (Some writeIdx) in
        let writeIdx := writeIdx + 3 in
        if truthy (hasTexture curMesh) then
          match texChannel0 curMesh with
          | None => Throw TypeError vbo
          | Some texCoords =>
            let vbo :=
              Buffer.write vbo (slice texCoords k (k + 2)) (Some writeIdx) in
            let writeIdx := writeIdx + 2 in
            vertexLoop fuel curMesh positions (j + 3) (k + 2) vbo writeIdx
          end
        else vertexLoop fuel curMesh positions (j + 3) k vbo writeIdx
      end
    else Normal (vbo, writeIdx)
  end.

(** Body of the second loop. *)
Definition writeBody {F32 : Type} (curMesh : Mesh) (vbo : Buffer.t R F32)
  (ibo : Buffer.t Z Z) (writeIdx : nat)
  : Completion (Mesh * Buffer.t R F32 * Buffer.t Z Z * nat)
               (Mesh * Buffer.t R F32 * Buffer.t Z Z) :=
  let curMesh := set_positionsOffset curMesh writeIdx in
  let curMesh := set_normalsOffset curMesh (3 + writeIdx) in
  let curMesh :=
    if truthy (hasTexture curMesh)
    then set_texCoordsOffset curMesh (6 + writeIdx)
    else curMesh in
  match vertexPositions curMesh with
  | None => Throw TypeError (curMesh, vbo, ibo)
  | Some positions =>
    match vertexLoop (List.length positions) curMesh positions 0 0 vbo writeIdx
    with
    | Throw e vbo => Throw e (curMesh, vbo, ibo)
    | Normal (vbo, writeIdx) =>
      let ibo :=
        if truthy (hasIndices curMesh)
        then Buffer.write ibo
               (match indices curMesh with Some idx => idx | None => [] end)
               (indicesOffset curMesh)
        else ibo in
      Normal (curMesh, vbo, ibo, writeIdx)
    end
  end.

(** The second loop, over the meshes in the same order. *)
Fixpoint writeLoop {F32 : Type} (meshes : list Mesh) (vbo : Buffer.t R F32)
  (ibo : Buffer.t Z Z) (writeIdx : nat)
  : Completion (list Mesh * Buffer.t R F32 * Buffer.t Z Z * nat)
               (list Mesh * Buffer.t R F32 * Buffer.t Z Z) :=
  match meshes with
  | [] => Normal ([], vbo, ibo, writeIdx)
  | curMesh :: rest =>
    match writeBody curMesh vbo ibo writeIdx with
    | Throw e (curMesh, vbo, ibo) => Throw e (curMesh :: rest, vbo, ibo)
    | Normal (curMesh, vbo, ibo, writeIdx) =>
      match writeLoop rest vbo ibo writeIdx with
      | Throw e (rest, vbo, ibo) => Throw e (curMesh :: rest, vbo, ibo)
      | Normal (rest, vbo, ibo, writeIdx) =>
        Normal (curMesh :: rest, vbo, ibo, writeIdx)
      end
    end
  end.

Definition with_buffers {F32 : Type} (this : t F32) (meshes : list Mesh)
  (vbo : Buffer.t R F32) (ibo : Buffer.t Z Z) : t F32 :=
  {| json := {| meshes := meshes;
                materials := materials (json this);
                nodes := nodes (json this) |};
     vbo := vbo;
     ibo := ibo;
     min := min this;
     max := max this;
     center := center this;
     diagonal := diagonal this |}.

(** The values of [_initBuffers]'s local variables when it returns. *)
Record Locals : Type := {
  vboSize : nat;
  iboSize : nat;
  writeIdx : nat
}.

Definition _initBuffers {F32 : Type} (this : t F32)
  : Completion (t F32 * Locals) (t F32) :=
  match sizeLoop (materials (json this)) (meshes (json this)) 0 0 with
  | Throw e meshes => Throw e (with_buffers this meshes (vbo this) (ibo this))
  | Normal (meshes, vboSize, iboSize) =>
    let vbo := Buffer.bind (vbo this) in
    let ibo := Buffer.bind (ibo this) in
    let vbo := Buffer.allocate vbo vboSize in
    let ibo := Buffer.allocate ibo iboSize in
    match writeLoop meshes vbo ibo 0 with
    | Throw e (meshes, vbo, ibo) => Throw e (with_buffers this meshes vbo ibo)
    | Normal (meshes, vbo, ibo, writeIdx) =>
      let vbo := Buffer.unbind vbo in
      let ibo := Buffer.unbind ibo in
      Normal (with_buffers this meshes vbo ibo,
              {| vboSize := vboSize; iboSize := iboSize;
                 writeIdx := writeIdx |})
    end
  end.

(** *** _initNormalMatrices *)

Definition set_normalMatrix (curNode : Node)
  (normalMatrix : mat4.Contents) : Node :=
  {| modelMatrix := modelMatrix curNode;
     meshIndices := meshIndices curNode;
     normalMatrix := Some normalMatrix |}.

(** Body of the loop: the node with its [normalMatrix] attached.
    [mat4.inverse] reads the elements of its first argument, a TypeError
    when [curNode.modelMatrix] is undefined; the code neither tests what
    [mat4.inverse] returns nor catches what it throws. *)
Definition normalMatrixBody (degenerate : mat4.Degenerate) (curNode : Node)
  : Completion Node Node :=
  let curNode := set_normalMatrix curNode (mat4.Numbers mat4.create) in
  match modelMatrix curNode with
  | None => Throw TypeError curNode
  | Some mat =>
    match mat4.inverse degenerate mat (mat4.Numbers mat4.create) with
    | Throw e normalMatrix => Throw e (set_normalMatrix curNode normalMatrix)
    | Normal normalMatrix =>
      let normalMatrix := mat4.transposeContents normalMatrix in
      Normal (set_normalMatrix curNode normalMatrix)
    end
  end.

(** The loop over the nodes. *)
Fixpoint normalMatrixLoop (degenerate : mat4.Degenerate)
  (nodes : list Node) : Completion (list Node) (list Node) :=
  match nodes with
  | [] => Normal []
  | curNode :: rest =>
    match normalMatrixBody degenerate curNode with
    | Throw e curNode => Throw e (curNode :: rest)
    | Normal curNode =>
      match normalMatrixLoop degenerate rest with
      | Throw e rest => Throw e (curNode :: rest)
      | Normal rest => Normal (curNode :: rest)
      end
    end
  end.

Definition with_nodes {F32 : Type} (this : t F32) (nodes : list Node)
  : t F32 :=
  {| json := {| meshes := meshes (json this);
                materials := materials (json this);
                nodes := nodes |};
     vbo := vbo this;
     ibo := ibo this;
     min := min this;
     max := max this;
     center := center this;
     diagonal := diagonal this |}.

Definition _initNormalMatrices {F32 : Type} (degenerate : mat4.Degenerate)
  (this : t F32) : Completion (t F32) (t F32) :=
  match normalMatrixLoop degenerate (nodes (json this)) with
  | Throw e nodes => Throw e (with_nodes this nodes)
  | Normal nodes => Normal (with_nodes this nodes)
  end.

(** *** _computeExtents *)

(** [makeExtentsUpdater(pred)(v1, v2, dest)]: the new contents of [dest]. *)
Definition makeExtentsUpdater (pred : Number -> Number -> bool)
  (v1 v2 : vec3.t) : vec3.t :=
  let extX := vec3.x v2 in
  let extY := vec3.y v2 in
  let extZ := vec3.z v2 in
  let extX := if pred (vec3.x v1) (vec3.x v2) then vec3.x v1 else extX in
  let extY := if pred (vec3.y v1) (vec3.y v2) then vec3.y v1 else extY in
  let extZ := if pred (vec3.z v1) (vec3.z v2) then vec3.z v1 else extZ in
  vec3.mk extX extY extZ.

Definition updateMinExtents : vec3.t -> vec3.t -> vec3.t :=
  makeExtentsUpdater (fun val1 val2 => Nlt val1 val2).

Definition updateMaxExtents : vec3.t -> vec3.t -> vec3.t :=
  makeExtentsUpdater (fun val1 val2 => Ngt val1 val2).

(** [tmpVec] after its three components are read from [curVerts] at [k]. *)
Definition readVertex (curVerts : list R) (k : nat) : vec3.t :=
  vec3.mk (readNumber curVerts k) (readNumber curVerts (k + 1))
    (readNumber curVerts (k + 2)).

(** The innermost loop, [for (k = 0; k < curVerts.length; k += 3)], with
    [fuel] as in [vertexLoop].  [mat4.multiplyVec3] reads the elements of
    its first argument, a TypeError when [curNode.modelMatrix] is
    undefined. *)
Fixpoint extentsVertexLoop (fuel : nat) (curNode : Node) (curVerts : list R)
  (k : nat) (minExtent maxExtent : vec3.t)
  : Completion (vec3.t * vec3.t) unit :=
  match fuel with
  | O => Normal (minExtent, maxExtent)
  | S fuel =>
    if k <? List.length curVerts then
      let tmpVec := readVertex curVerts k in
      match modelMatrix curNode with
      | None => Throw TypeError tt
      | Some mat =>
        let tmpVec := mat4.multiplyVec3 mat tmpVec in
        let minExtent := updateMinExtents minExtent tmpVec in
        let maxExtent := updateMaxExtents maxExtent tmpVec in
        extentsVertexLoop fuel curNode curVerts (k + 3) minExtent maxExtent
      end
    else Normal (minExtent, maxExtent)
  end.

(** The loop over [curNode.meshIndices]; it throws on an index that names
    no mesh and on a mesh without [vertexPositions]. *)
Fixpoint extentsMeshLoop (meshes : list Mesh) (curNode : Node)
  (meshIndices : list nat) (minExtent maxExtent : vec3.t)
  : Completion (vec3.t * vec3.t) unit :=
  match meshIndices with
  | [] => Normal (minExtent, maxExtent)
  | idx :: rest =>
    match nth_error meshes idx with
    | None => Throw TypeError tt
    | Some mesh =>
      match vertexPositions mesh with
      | None => Throw TypeError tt
      | Some curVerts =>
        match extentsVertexLoop (List.length curVerts) curNode curVerts 0
                minExtent maxExtent with
        | Throw e u => Throw e u
        | Normal (minExtent, maxExtent) =>
          extentsMeshLoop meshes curNode rest minExtent maxExtent
        end
      end
    end
  end.

(** The loop over the nodes; reading [curNode.meshIndices.length] is a
    TypeError when the node has no [meshIndices]. *)
Fixpoint extentsNodeLoop (meshes : list Mesh) (nodes : list Node)
  (minExtent maxExtent : vec3.t) : Completion (vec3.t * vec3.t) unit :=
  match nodes with
  | [] => Normal (minExtent, maxExtent)
  | curNode :: rest =>
    match meshIndices curNode with
    | None => Throw TypeError tt
    | Some meshIndices =>
      match extentsMeshLoop meshes curNode meshIndices
              minExtent maxExtent with
      | Throw e u => Throw e u
      | Normal (minExtent, maxExtent) =>
        extentsNodeLoop meshes rest minExtent maxExtent
      end
    end
  end.

Definition _computeExtents {F32 : Type} (this : t F32)
  : Completion (t F32) (t F32) :=
  let minExtent :=
    vec3.createFrom (Num Number_MAX_VALUE) (Num Number_MAX_VALUE)
      (Num Number_MAX_VALUE) in
  let maxExtent :=
    vec3.createFrom (Num (- Number_MIN_VALUE)) (Num (- Number_MIN_VALUE))
      (Num (- Number_MIN_VALUE)) in
  match extentsNodeLoop (meshes (json this)) (nodes (json this))
          minExtent maxExtent with
  | Throw e _ => Throw e this
  | Normal (minExtent, maxExtent) =>
    let center := vec3.create in
    let center := vec3.add minExtent maxExtent in
    let center := vec3.scale center (Num (1 / 2)) in
    let min := vec3.set minExtent (min this) in
    let max := vec3.set maxExtent (max this) in
    Normal
      {| json := json this;
         vbo := vbo this;
         ibo := ibo this;
         min := min;
         max := max;
         center := vec3.set center (Model.center this);
         diagonal := vec3.dist min max |}
  end.

End Model.

(** * The vocabulary of the specification *)

(** "The material's diffuse-texture reference is non-empty." *)
Definition hasDiffuseTexture (curMaterial : Material) : Prop :=
  exists paths, diffuseTexture curMaterial = Some paths /\ paths <> [].

(** "The mesh has a non-empty texcoord channel 0 and its material's
    diffuse-texture reference is non-empty." *)
Definition textured (s : Scene) (m : Mesh) : Prop :=
  (exists texCoords, texChannel0 m = Some texCoords /\ texCoords <> []) /\
  (exists curMaterial,
     nth_error (materials s) (materialIndex m) = Some curMaterial /\
     hasDiffuseTexture curMaterial).

(** "The mesh declares a non-empty index sequence." *)
Definition indexed (m : Mesh) : Prop :=
  exists idx, indices m = Some idx /\ idx <> [].

(** Number of indices a mesh declares. *)
Definition indexCount (m : Mesh) : nat :=
  match indices m with
  | Some idx => List.length idx
  | None => 0
  end.

(** [len(vertexPositions) / 3] *)
Definition vertexCount (m : Mesh) : nat :=
  match vertexPositions m with
  | Some positions => List.length positions / 3
  | None => 0
  end.

(** A well-formed mesh: positions and normals are present and equally long,
    and a textured mesh has two texture coordinates for every three
    position numbers. *)
Definition wellFormedMesh (s : Scene) (m : Mesh) : Prop :=
  exists positions normals,
    vertexPositions m = Some positions /\
    vertexNormals m = Some normals /\
    List.length normals = List.length positions /\
    (textured s m ->
     exists texCoords,
       texChannel0 m = Some texCoords /\
       3 * List.length texCoords = 2 * List.length positions).

Definition wellFormed (s : Scene) : Prop :=
  Forall (wellFormedMesh s) (meshes s).

(** Every position array is a sequence of whole triples. *)
Definition wholeTriples (s : Scene) : Prop :=
  Forall (fun m => forall positions,
            vertexPositions m = Some positions ->
            List.length positions mod 3 = 0) (meshes s).

(** The parsed part of two mesh objects is the same. *)
Definition sameData (m m' : Mesh) : Prop :=
  vertexPositions m' = vertexPositions m /\
  vertexNormals m' = vertexNormals m /\
  vertexTexCoordinates m' = vertexTexCoordinates m /\
  indices m' = indices m /\
  materialIndex m' = materialIndex m.

(** A [bufferSubData] call of [n] elements at [offset] stays inside a store
    of [capacity] elements. *)
Definition inCapacity (capacity : nat) (call : nat * nat) : Prop :=
  fst call < capacity /\ fst call + snd call <= capacity.

(** Reading [n] elements back from a buffer, starting at [offset]. *)
Definition readBack {A E : Type} (b : Buffer.t A E) (offset n : nat)
  : list E :=
  slice (store (Buffer.rawBuffer b)) offset (offset + n).

(** The [k]-th position triple, normal triple and texcoord pair of a
    mesh. *)
Definition positionOf (m : Mesh) (k : nat) : list R :=
  match vertexPositions m with
  | Some positions => slice positions (3 * k) (3 * k + 3)
  | None => []
  end.

Definition normalOf (m : Mesh) (k : nat) : list R :=
  match vertexNormals m with
  | Some normals => slice normals (3 * k) (3 * k + 3)
  | None => []
  end.

Definition texCoordOf (m : Mesh) (k : nat) : list R :=
  match texChannel0 m with
  | Some texCoords => slice texCoords (2 * k) (2 * k + 2)
  | None => []
  end.

(** The interleaved record of vertex [k] and the packed form of a mesh and
    of a list of meshes. *)
Definition vertexRecord (m : Mesh) (k : nat) : list R :=
  positionOf m k ++ normalOf m k
    ++ (if truthy (hasTexture m) then texCoordOf m k else []).

Definition packedMesh (m : Mesh) : list R :=
  flat_map (vertexRecord m) (seq 0 (vertexCount m)).

Definition packed (ms : list Mesh) : list R :=
  flat_map packedMesh ms.

(** Elements a mesh takes in the vertex buffer, from its attached fields. *)
Definition meshSize (m : Mesh) : nat :=
  match stride m with
  | Some st => st * vertexCount m
  | None => 0
  end.

(** ** Extents *)

(** What the extents are to be, in the words of the specification: the
    points to visit and the scan over them.  None of these definitions
    uses the code's own [readVertex], [multiplyVec3] or extents updaters;
    the theorems compare them with what the loops compute. *)

(** The vertices a position array lists: its numbers taken three by three.
    A last vertex the array leaves incomplete has undefined coordinates. *)
Fixpoint meshVertices (curVerts : list R) : list vec3.t :=
  match curVerts with
  | x :: y :: z :: rest =>
    vec3.mk (Num x) (Num y) (Num z) :: meshVertices rest
  | [x; y] => [vec3.mk (Num x) (Num y) NaN]
  | [x] => [vec3.mk (Num x) NaN NaN]
  | [] => []
  end.

(** A point under a model matrix: the homogeneous transform with w = 1,
    written out on the sixteen numbers of the matrix.  A point with an
    undefined coordinate has no defined image. *)
Definition transformPoint (mat : mat4.t) (p : vec3.t) : vec3.t :=
  match vec3.x p, vec3.y p, vec3.z p with
  | Num x, Num y, Num z =>
    vec3.mk
      (Num (mat4.m00 mat * x + mat4.m10 mat * y + mat4.m20 mat * z
            + mat4.m30 mat))
      (Num (mat4.m01 mat * x + mat4.m11 mat * y + mat4.m21 mat * z
            + mat4.m31 mat))
      (Num (mat4.m02 mat * x + mat4.m12 mat * y + mat4.m22 mat * z
            + mat4.m32 mat))
  | _, _, _ => vec3.mk NaN NaN NaN
  end.

(** The world-space points of one reference to mesh [idx] from [node]. *)
Definition referencePoints (s : Scene) (node : Node) (idx : nat)
  : list vec3.t :=
  match nth_error (meshes s) idx, modelMatrix node with
  | Some mesh, Some mat =>
    match vertexPositions mesh with
    | Some curVerts => map (transformPoint mat) (meshVertices curVerts)
    | None => []
    end
  | _, _ => []
  end.

(** All points the scan is to visit: for every node, for every mesh index
    it lists, the vertices of that mesh under the node's [modelMatrix]. *)
Definition visitedPoints (s : Scene) : list vec3.t :=
  flat_map (fun node =>
              match meshIndices node with
              | Some meshIndices =>
                flat_map (referencePoints s node) meshIndices
              | None => []
              end)
           (nodes s).

(** The lesser and the greater of a bound and a coordinate.  An undefined
    bound gives way to the coordinate, and an undefined coordinate
    replaces the bound. *)
Definition lesser (bound coord : Number) : Number :=
  match bound, coord with
  | Num b, Num c => Num (Rmin b c)
  | _, _ => coord
  end.

Definition greater (bound coord : Number) : Number :=
  match bound, coord with
  | Num b, Num c => Num (Rmax b c)
  | _, _ => coord
  end.

(** One step of the scan, axis by axis, and the scan of a list of
    points. *)
Definition scanStep (ext : vec3.t * vec3.t) (p : vec3.t)
  : vec3.t * vec3.t :=
  (vec3.mk (lesser (vec3.x (fst ext)) (vec3.x p))
           (lesser (vec3.y (fst ext)) (vec3.y p))
           (lesser (vec3.z (fst ext)) (vec3.z p)),
   vec3.mk (greater (vec3.x (snd ext)) (vec3.x p))
           (greater (vec3.y (snd ext)) (vec3.y p))
           (greater (vec3.z (snd ext)) (vec3.z p))).

Definition sentinels : vec3.t * vec3.t :=
  (vec3.mk (Num Number_MAX_VALUE) (Num Number_MAX_VALUE)
     (Num Number_MAX_VALUE),
   vec3.mk (Num (- Number_MIN_VALUE)) (Num (- Number_MIN_VALUE))
     (Num (- Number_MIN_VALUE))).

Definition scan (points : list vec3.t) : vec3.t * vec3.t :=
  fold_left scanStep points sentinels.

(** The four extents fields a completed [_computeExtents] leaves, [None]
    when it threw. *)
Definition extentsOf {F32 : Type}
  (c : Completion (Model.t F32) (Model.t F32))
  : option (vec3.t * vec3.t * vec3.t * Number) :=
  match c with
  | Normal this =>
    Some (Model.min this, Model.max this, Model.center this,
          Model.diagonal this)
  | Throw _ _ => None
  end.

(** A vector of three reals. *)
Definition vec (a b c : R) : vec3.t := vec3.mk (Num a) (Num b) (Num c).

(** A matrix has an inverse. *)
Definition invertible (m : mat4.t) : Prop :=
  exists inv, mat4.mul m inv = mat4.identity /\
              mat4.mul inv m = mat4.identity.

(** The fields the size pass attaches are the same on two mesh objects. *)
Definition sameLayout (m m' : Mesh) : Prop :=
  hasTexture m' = hasTexture m /\
  stride m' = stride m /\
  hasIndices m' = hasIndices m /\
  indicesOffset m' = indicesOffset m /\
  indicesByteOffset m' = indicesByteOffset m.

(** What the size pass attaches to a mesh reached with [iboSize] indices
    before it. *)
Definition sized (materials : list Material) (iboSize : nat) (m m' : Mesh)
  : Prop :=
  sameData m m' /\
  (exists b, hasTexture m' = Some b /\
     stride m' = Some (6 + (if b then 2 else 0)) /\
     (b = true <->
      (exists texCoords, texChannel0 m = Some texCoords /\ texCoords <> []) /\
      (exists curMaterial,
         nth_error materials (materialIndex m) = Some curMaterial /\
         hasDiffuseTexture curMaterial))) /\
  (exists c, hasIndices m' = Some c /\
     (c = true <-> indexed m) /\
     (c = true ->
      indicesOffset m' = Some iboSize /\
      indicesByteOffset m' = Some (2 * iboSize))).

(** Elements a mesh adds to the vertex-buffer size in the size pass. *)
Definition sizeOf (m' : Mesh) : nat :=
  match vertexPositions m', vertexNormals m' with
  | Some positions, Some normals =>
    List.length positions + List.length normals
      + (if truthy (hasTexture m')
         then match texChannel0 m' with
              | Some texCoords => List.length texCoords
              | None => 0
              end
         else 0)
  | _, _ => 0
  end.

(** A mesh the write pass can pack: [n] whole vertices, normals as long as
    positions, the stride the size pass gave it, and two texture
    coordinates a vertex when it is textured. *)
Definition packable (m : Mesh) (n : nat) : Prop :=
  exists positions normals,
    vertexPositions m = Some positions /\
    vertexNormals m = Some normals /\
    List.length positions = 3 * n /\
    List.length normals = 3 * n /\
    stride m = Some (6 + (if truthy (hasTexture m) then 2 else 0)) /\
    (truthy (hasTexture m) = true ->
     exists texCoords,
       texChannel0 m = Some texCoords /\ List.length texCoords = 2 * n).

(** What the write pass attaches to a mesh reached with the cursor at
    [writeIdx]. *)
Definition placed (writeIdx : nat) (m m' : Mesh) : Prop :=
  sameData m m' /\ sameLayout m m' /\
  positionsOffset m' = Some writeIdx /\
  normalsOffset m' = Some (3 + writeIdx) /\
  (truthy (hasTexture m) = true -> texCoordsOffset m' = Some (6 + writeIdx)).

(** The material a mesh names exists and has a [diffuseTexture] property. *)
Definition resolves (materials : list Material) (m : Mesh) : Prop :=
  exists curMaterial,
    nth_error materials (materialIndex m) = Some curMaterial /\
    diffuseTexture curMaterial <> None.

(** Every mesh with texture coordinates names such a material. *)
Definition materialsResolve (s : Scene) : Prop :=
  Forall (fun m =>
            (exists texCoords,
               texChannel0 m = Some texCoords /\ texCoords <> []) ->
            resolves (materials s) m) (meshes s).

(** * Concrete scenes *)

(** A typed array that stores every number as it is. *)
Definition exactArray : TypedArray R R :=
  {| BYTES_PER_ELEMENT := 4; element := fun r => r; zero := 0%R |}.

Definition plainMaterial : Material := {| diffuseTexture := Some [] |}.

Definition brickMaterial : Material :=
  {| diffuseTexture := Some ["brick.png"%string] |}.

(** Two vertices with texture coordinates, a textured material and two
    indices. *)
Definition texturedSegment : Mesh :=
  parsedMesh (Some [1; 2; 3; 4; 5; 6]%R) (Some [0; 0; 1; 0; 1; 0]%R)
    (Some [[10; 11; 12; 13]%R]) (Some [0; 1]%Z) 0.

(** One vertex with texture coordinates but a material without texture, and
    one index. *)
Definition plainPoint : Mesh :=
  parsedMesh (Some [7; 8; 9]%R) (Some [1; 0; 0]%R)
    (Some [[14; 15]%R]) (Some [0]%Z) 1.

(** One vertex, no texture coordinates, no indices. *)
Definition barePoint : Mesh :=
  parsedMesh (Some [7; 8; 9]%R) (Some [1; 0; 0]%R) None None 1.

Definition twoMeshScene : Scene :=
  {| meshes := [texturedSegment; plainPoint];
     materials := [brickMaterial; plainMaterial];
     nodes := [] |}.

(** Four position numbers and four normal numbers: the arrays agree in
    length, but the last vertex is incomplete. *)
Definition raggedMesh : Mesh :=
  parsedMesh (Some [1; 2; 3; 4]%R) (Some [0; 0; 1; 0]%R) None None 0.

Definition raggedScene : Scene :=
  {| meshes := [raggedMesh]; materials := [plainMaterial]; nodes := [] |}.

Definition raggedPairScene : Scene :=
  {| meshes := [raggedMesh; barePoint];
     materials := [plainMaterial; plainMaterial];
     nodes := [] |}.

(** Three positions but six normal numbers. *)
Definition mismatchedMesh : Mesh :=
  parsedMesh (Some [1; 2; 3]%R) (Some [0; 0; 1; 0; 0; 1]%R) None None 0.

Definition mismatchedScene : Scene :=
  {| meshes := [mismatchedMesh]; materials := [plainMaterial]; nodes := [] |}.

(** A mesh whose [vertexNormals] array is missing, after a complete one. *)
Definition normallessMesh : Mesh :=
  parsedMesh (Some [1; 2; 3]%R) None None None 0.

Definition normallessScene : Scene :=
  {| meshes := [barePoint; normallessMesh];
     materials := [plainMaterial; plainMaterial];
     nodes := [] |}.

(** A node that flattens its meshes onto the plane z = 0: a singular
    transform. *)
Definition flattening : mat4.t :=
  mat4.mk 1 0 0 0  0 1 0 0  0 0 0 0  0 0 0 1.

Definition parsedNode (modelMatrix : mat4.t) (meshIndices : list nat) : Node :=
  {| modelMatrix := Some modelMatrix; meshIndices := Some meshIndices;
     normalMatrix := None |}.

Definition flattenedScene : Scene :=
  {| meshes := [barePoint]; materials := [plainMaterial; plainMaterial];
     nodes := [parsedNode flattening [0]] |}.

(** An identity node and a node scaling uniformly by 2. *)
Definition scaledScene : Scene :=
  {| meshes := [barePoint]; materials := [plainMaterial; plainMaterial];
     nodes := [parsedNode mat4.identity [0];
               parsedNode (mat4.scaling 2) [0]] |}.

(** The triangle of the specification's extents examples. *)
Definition triangleMesh : Mesh :=
  parsedMesh (Some [0; 0; 0; 2; 0; 0; 0; 2; 0]%R)
    (Some [0; 0; 1; 0; 0; 1; 0; 0; 1]%R) None None 0.

Definition triangleScene (modelMatrix : mat4.t) : Scene :=
  {| meshes := [triangleMesh]; materials := [plainMaterial];
     nodes := [parsedNode modelMatrix [0]] |}.

(** One vertex with negative coordinates under an identity node. *)
Definition negativePoint : Mesh :=
  parsedMesh (Some [-1; -1; -1]%R) (Some [0; 0; 1]%R) None None 0.

Definition negativeScene : Scene :=
  {| meshes := [negativePoint]; materials := [plainMaterial];
     nodes := [parsedNode mat4.identity [0]] |}.

Definition emptyScene : Scene :=
  {| meshes := []; materials := []; nodes := [] |}.

(** The triangle referenced twice by a translating node and once by an
    identity node, next to a mesh no node references. *)
Definition instancedScene : Scene :=
  {| meshes := [triangleMesh; negativePoint];
     materials := [plainMaterial];
     nodes := [parsedNode (mat4.translation 5 0 0) [0; 0];
               parsedNode mat4.identity [0]] |}.

(** The same scene with another mesh in the unreferenced slot. *)
Definition instancedScene' : Scene :=
  {| meshes := [triangleMesh; barePoint];
     materials := [plainMaterial];
     nodes := [parsedNode (mat4.translation 5 0 0) [0; 0];
               parsedNode mat4.identity [0]] |}.

(** ** ShipGL.BufferUtilities *)

Module BufferUtilities.

(** The function [makeBufferCreator(BufferType, ArrayType)] returns, applied
    to [array] and the optional [length]; [length || array.length] takes the
    array's length when [length] is missing or 0. *)
Definition makeBufferCreator {A E : Type} (BufferType : BufferTarget)
  (ArrayType : TypedArray A E) (array : list A) (length : option nat)
  : Buffer.t A E :=
  let length :=
    match length with
    | Some (S n) => S n
    | _ => List.length array
    end in
  let buffer := Buffer.new BufferType ArrayType in
  let buffer := Buffer.bind buffer in
  let buffer := Buffer.allocate buffer length in
  let buffer := Buffer.write buffer array None in
  let buffer := Buffer.unbind buffer in
  buffer.

Definition createVertexBuffer {F32 : Type} (Float32Array : TypedArray R F32)
  : list R -> option nat -> Buffer.t R F32 :=
  makeBufferCreator ARRAY_BUFFER Float32Array.

Definition createIndexBuffer : list Z -> option nat -> Buffer.t Z Z :=
  makeBufferCreator ELEMENT_ARRAY_BUFFER Uint16Array.

End BufferUtilities.

(** ** ShipGL.Math *)

(** [ToInt32], the conversion the bitwise operators apply to an integer
    operand. *)
Definition ToInt32 (z : Z) : Z :=
  ((z + 2 ^ 31) mod 2 ^ 32 - 2 ^ 31)%Z.

(** [Math.max] and [Math.min] of two numbers: [NaN] as soon as one is. *)
Definition Math_max (a b : Number) : Number :=
  match a, b with
  | Num u, Num v => Num (Rmax u v)
  | _, _ => NaN
  end.

Definition Math_min (a b : Number) : Number :=
  match a, b with
  | Num u, Num v => Num (Rmin u v)
  | _, _ => NaN
  end.

Module Math.

Definition toDegrees (radians : R) : R := (radians * 180 / PI)%R.

Definition toRadians (degrees : R) : R := (degrees * PI / 180)%R.

(** [(x & (x - 1)) == 0] on an integer [x]. *)
Definition isPowerOf2 (x : Z) : bool :=
  (Z.land (ToInt32 x) (ToInt32 (x - 1)) =? 0)%Z.

(** The loop [for (var i = 1; i < 32; i <<= 1) x = x | x >> i] from the
    values [i] and [x]; [fuel] bounds the iterations, and 32 is more than
    the doublings of [i] that stay below 32. *)
Fixpoint smearLoop (fuel : nat) (i x : Z) : Z :=
  match fuel with
  | O => x
  | S fuel =>
    if (i <? 32)%Z then
      let x := Z.lor (ToInt32 x) (Z.shiftr (ToInt32 x) i) in
      smearLoop fuel (Z.shiftl i 1) x
    else x
  end.

Definition nextHighestPowerOf2 (x : Z) : Z :=
  let x := (x - 1)%Z in
  let x := smearLoop 32 1 x in
  (x + 1)%Z.

(** [makeClamp(min, max)(value)] *)
Definition makeClamp (min max value : Number) : Number :=
  Math_min (Math_max value min) max.

Definition lerp (val1 val2 amount : R) : R :=
  (val1 + (val2 - val1) * amount)%R.

(** [sphericalToCartesian(theta, phi, r)]; [r || 1] replaces a missing or
    zero radius by 1. *)
Definition sphericalToCartesian (theta phi : R) (r : option R)
  : R * R * R :=
  let r :=
    match r with
    | Some r => if Req_dec_T r 0 then 1%R else r
    | None => 1%R
    end in
  let radTheta := toRadians theta in
  let radPhi := toRadians phi in
  ((r * cos radPhi * sin radTheta)%R,
   (r * sin radPhi * sin radTheta)%R,
   (r * cos radTheta)%R).

End Math.

(** ** ShipGL.Texture *)

Inductive WrapMode : Type :=
| REPEAT
| CLAMP_TO_EDGE.

Inductive FilterMode : Type :=
| NEAREST
| LINEAR
| LINEAR_MIPMAP_LINEAR.

(** An [Image] element: the path it is asked to load and, once the browser
    has loaded it, its size in pixels. *)
Record Image : Type := {
  src : option string;
  imageWidth : Z;
  imageHeight : Z
}.

(** What the code sets of a raw WebGL texture: the four parameters of
    [texParameteri], the image given to [texImage2D] and whether
    [generateMipmap] ran.  A parameter never set is [None]. *)
Record WebGLTexture : Type := {
  TEXTURE_WRAP_S : option WrapMode;
  TEXTURE_WRAP_T : option WrapMode;
  TEXTURE_MAG_FILTER : option FilterMode;
  TEXTURE_MIN_FILTER : option FilterMode;
  texImage : option Image;
  mipmapped : bool
}.

Definition createTexture : WebGLTexture :=
  {| TEXTURE_WRAP_S := None;
     TEXTURE_WRAP_T := None;
     TEXTURE_MAG_FILTER := None;
     TEXTURE_MIN_FILTER := None;
     texImage := None;
     mipmapped := false |}.

Module Texture.

Record t : Type := {
  rawTexture : WebGLTexture;
  isLoaded : bool;
  width : Z;
  height : Z;
  NPOT : bool;
  _image : option Image
}.

(** [new ShipGL.Texture(gl)] *)
Definition new : t :=
  {| rawTexture := createTexture;
     isLoaded := false;
     width := 0;
     height := 0;
     NPOT := true;
     _image := Some {| src := None; imageWidth := 0; imageHeight := 0 |} |}.

(** Binding selects the texture later calls act on; each call is modelled
    as acting on the texture's own [rawTexture]. *)
Definition bind (this : t) : t := this.

Definition unbind (this : t) : t := this.

Definition with_rawTexture (this : t) (raw : WebGLTexture) : t :=
  {| rawTexture := raw;
     isLoaded := isLoaded this;
     width := width this;
     height := height this;
     NPOT := NPOT this;
     _image := _image this |}.

(** [load(pathToTexture)]: [this._image.src = pathToTexture]; a TypeError
    once [_image] has been deleted. *)
Definition load (this : t) (pathToTexture : string) : Completion t t :=
  match _image this with
  | None => Throw TypeError this
  | Some image =>
    Normal
      {| rawTexture := rawTexture this;
         isLoaded := isLoaded this;
         width := width this;
         height := height this;
         NPOT := NPOT this;
         _image := Some {| src := Some pathToTexture;
                           imageWidth := imageWidth image;
                           imageHeight := imageHeight image |} |}
  end.

Definition setRepeatS (this : t) (repeat : bool) : t :=
  let raw := rawTexture this in
  with_rawTexture this
    {| TEXTURE_WRAP_S := Some (if repeat then REPEAT else CLAMP_TO_EDGE);
       TEXTURE_WRAP_T := TEXTURE_WRAP_T raw;
       TEXTURE_MAG_FILTER := TEXTURE_MAG_FILTER raw;
       TEXTURE_MIN_FILTER := TEXTURE_MIN_FILTER raw;
       texImage := texImage raw;
       mipmapped := mipmapped raw |}.

Definition setRepeatT (this : t) (repeat : bool) : t :=
  let raw := rawTexture this in
  with_rawTexture this
    {| TEXTURE_WRAP_S := TEXTURE_WRAP_S raw;
       TEXTURE_WRAP_T := Some (if repeat then REPEAT else CLAMP_TO_EDGE);
       TEXTURE_MAG_FILTER := TEXTURE_MAG_FILTER raw;
       TEXTURE_MIN_FILTER := TEXTURE_MIN_FILTER raw;
       texImage := texImage raw;
       mipmapped := mipmapped raw |}.

Definition setSmooth (this : t) (smooth : bool) : t :=
  let raw := rawTexture this in
  let smoothMin := if NPOT this then LINEAR else LINEAR_MIPMAP_LINEAR in
  with_rawTexture this
    {| TEXTURE_WRAP_S := TEXTURE_WRAP_S raw;
       TEXTURE_WRAP_T := TEXTURE_WRAP_T raw;
       TEXTURE_MAG_FILTER := Some (if smooth then LINEAR else NEAREST);
       TEXTURE_MIN_FILTER := Some (if smooth then smoothMin else NEAREST);
       texImage := texImage raw;
       mipmapped := mipmapped raw |}.

(** [gl.texImage2D(textureType, 0, ..., image)] *)
Definition texImage2D (this : t) (image : Image) : t :=
  let raw := rawTexture this in
  with_rawTexture this
    {| TEXTURE_WRAP_S := TEXTURE_WRAP_S raw;
       TEXTURE_WRAP_T := TEXTURE_WRAP_T raw;
       TEXTURE_MAG_FILTER := TEXTURE_MAG_FILTER raw;
       TEXTURE_MIN_FILTER := TEXTURE_MIN_FILTER raw;
       texImage := Some image;
       mipmapped := mipmapped raw |}.

(** [gl.generateMipmap(textureType)] *)
Definition generateMipmap (this : t) : t :=
  let raw := rawTexture this in
  with_rawTexture this
    {| TEXTURE_WRAP_S := TEXTURE_WRAP_S raw;
       TEXTURE_WRAP_T := TEXTURE_WRAP_T raw;
       TEXTURE_MAG_FILTER := TEXTURE_MAG_FILTER raw;
       TEXTURE_MIN_FILTER := TEXTURE_MIN_FILTER raw;
       texImage := texImage raw;
       mipmapped := true |}.

(** [onImageLoad()], the callback of the image's [onload]; reading
    [this._image.width] is a TypeError once [_image] has been deleted. *)
Definition onImageLoad (this : t) : Completion t t :=
  let this := bind this in
  match _image this with
  | None => Throw TypeError this
  | Some image =>
    let this :=
      {| rawTexture := rawTexture this;
         isLoaded := isLoaded this;
         width := imageWidth image;
         height := imageHeight image;
         NPOT := negb (Math.isPowerOf2 (imageWidth image) &&
                       Math.isPowerOf2 (imageHeight image));
         _image := _image this |} in
    let POT := negb (NPOT this) in
    let this := texImage2D this image in
    let this := setRepeatS this POT in
    let this := setRepeatT this POT in
    let this := setSmooth this true in
    let this := if POT then generateMipmap this else this in
    let this := unbind this in
    Normal
      {| rawTexture := rawTexture this;
         isLoaded := true;
         width := width this;
         height := height this;
         NPOT := NPOT this;
         _image := None |}
  end.

End Texture.

(** ** ShipGL.Model, continued *)

Module ModelInit.

(** [_initMaterialTextures]: the loop over [this.json.materials], giving
    for every material the [texture] property it has afterwards, [None]
    when the loop attaches none.  Reading [curMaterial.diffuseTexture.length]
    is a TypeError on a material without [diffuseTexture]; the state at a
    throw is the textures of the materials before it.  [_imageDirHelper] is
    the model's field of that name. *)
Fixpoint _initMaterialTextures (_imageDirHelper : string)
  (materials : list Material)
  : Completion (list (option Texture.t)) (list (option Texture.t)) :=
  match materials with
  | [] => Normal []
  | curMaterial :: rest =>
    match diffuseTexture curMaterial with
    | None => Throw TypeError []
    | Some paths =>
      let texture : Completion (option Texture.t) (option Texture.t) :=
        match paths with
        | path :: _ =>
          match Texture.load Texture.new
                  (String.append _imageDirHelper path) with
          | Normal texture => Normal (Some texture)
          | Throw e texture => Throw e (Some texture)
          end
        | [] => Normal None
        end in
      match texture with
      | Throw e texture => Throw e [texture]
      | Normal texture =>
        match _initMaterialTextures _imageDirHelper rest with
        | Throw e textures => Throw e (texture :: textures)
        | Normal textures => Normal (texture :: textures)
        end
      end
    end
  end.

(** [initialize()]: the four steps in their order; the textures are the
    [texture] properties [_initMaterialTextures] gives the materials.  A
    step that throws ends the call with the model as that step left it.
    [degenerate] is what the matrix library does with a singular matrix. *)
Definition initialize {F32 : Type} (degenerate : mat4.Degenerate)
  (_imageDirHelper : string) (this : Model.t F32)
  : Completion (Model.t F32 * list (option Texture.t)) (Model.t F32) :=
  match Model._initBuffers this with
  | Throw e this => Throw e this
  | Normal (this, _) =>
    match _initMaterialTextures _imageDirHelper
            (materials (Model.json this)) with
    | Throw e _ => Throw e this
    | Normal textures =>
      match Model._initNormalMatrices degenerate this with
      | Throw e this => Throw e this
      | Normal this =>
        match Model._computeExtents this with
        | Throw e this => Throw e this
        | Normal this => Normal (this, textures)
        end
      end
    end
  end.

End ModelInit.

(** * Further vocabulary and examples *)

(** The buffer of the example in [ShipGL.Buffer.write]'s documentation:
    three elements, then [1, 2, 3] written over all of it. *)
Definition documentedBuffer : Buffer.t R R :=
  Buffer.write (Buffer.allocate (Buffer.new ARRAY_BUFFER exactArray) 3)
    [1; 2; 3]%R None.

(** The size pass throws at this mesh: an array is missing, or the mesh has
    texture coordinates and its [materialIndex] names no material, or a
    material without [diffuseTexture]. *)
Definition unsizable (materials : list Material) (m : Mesh) : Prop :=
  vertexPositions m = None \/
  vertexNormals m = None \/
  ((exists texCoords, texChannel0 m = Some texCoords /\ texCoords <> []) /\
   match nth_error materials (materialIndex m) with
   | Some curMaterial => diffuseTexture curMaterial = None
   | None => True
   end).

(** What the vertex loop needs of a mesh to run without a TypeError. *)
Definition writable (m : Mesh) : Prop :=
  vertexPositions m <> None /\
  vertexNormals m <> None /\
  (truthy (hasTexture m) = true -> texChannel0 m <> None).

(** All index arrays of a list of meshes, in order. *)
Definition allIndices (ms : list Mesh) : list Z :=
  flat_map (fun m => match indices m with
                     | Some idx => idx
                     | None => []
                     end) ms.

(** The index fields of a list of meshes are laid out from [base]: a mesh
    with [hasIndices] starts at the sum of the index counts before it, a
    mesh without has no index to store. *)
Fixpoint indexLaidOut (base : nat) (ms : list Mesh) : Prop :=
  match ms with
  | [] => True
  | m :: rest =>
    (truthy (hasIndices m) = true -> indicesOffset m = Some base) /\
    (truthy (hasIndices m) = false -> indexCount m = 0) /\
    indexLaidOut (base + indexCount m) rest
  end.

(** A mesh with texture coordinates whose [materialIndex] names no
    material of its scene. *)
Definition danglingScene : Scene :=
  {| meshes := [barePoint; texturedSegment];
     materials := [];
     nodes := [] |}.

(** Indices above 65535, and a mesh without indices between two with. *)
Definition wideIndexMesh : Mesh :=
  parsedMesh (Some [1; 2; 3]%R) (Some [0; 0; 1]%R) None
    (Some [65536; 70000; 2]%Z) 0.

Definition indexedScene : Scene :=
  {| meshes := [texturedSegment; barePoint; wideIndexMesh];
     materials := [brickMaterial; plainMaterial];
     nodes := [] |}.

(** [z] is a power of two. *)
Definition powerOf2 (z : Z) : Prop :=
  exists k, (0 <= k)%Z /\ z = (2 ^ k)%Z.

(** The [texture] property [_initMaterialTextures] gives a material: none
    without a [diffuseTexture] entry, else a fresh texture whose image is
    asked to load the first entry from the model's directory. *)
Definition requestedTexture (_imageDirHelper : string)
  (curMaterial : Material) : option Texture.t :=
  match diffuseTexture curMaterial with
  | Some (path :: _) =>
    Some {| Texture.rawTexture := createTexture;
            Texture.isLoaded := false;
            Texture.width := 0;
            Texture.height := 0;
            Texture.NPOT := true;
            Texture._image :=
              Some {| src := Some (String.append _imageDirHelper path);
                      imageWidth := 0;
                      imageHeight := 0 |} |}
  | _ => None
  end.

(** An image of 640 x 480 pixels and one of 256 x 64. *)
Definition photo : Image :=
  {| src := Some "photo.png"%string; imageWidth := 640; imageHeight := 480 |}.

Definition tile : Image :=
  {| src := Some "tile.png"%string; imageWidth := 256; imageHeight := 64 |}.

Definition textureOf (image : Image) : Texture.t :=
  {| Texture.rawTexture := createTexture;
     Texture.isLoaded := false;
     Texture.width := 0;
     Texture.height := 0;
     Texture.NPOT := true;
     Texture._image := Some image |}.

(** An entry of a node's [meshIndices] the extents scan cannot follow: it
    names no mesh, or a mesh without [vertexPositions]. *)
Definition dangling (ms : list Mesh) (idx : nat) : Prop :=
  match nth_error ms idx with
  | Some mesh => vertexPositions mesh = None
  | None => True
  end.

(** An entry of a node's [meshIndices] that names a mesh with at least one
    position number: the scan has a vertex to transform there. *)
Definition populated (ms : list Mesh) (idx : nat) : Prop :=
  exists mesh positions,
    nth_error ms idx = Some mesh /\
    vertexPositions mesh = Some positions /\ positions <> [].

(** The extents scan cannot get through this node: it has no
    [meshIndices], or lists an entry the scan cannot follow, or has no
    [modelMatrix] for a vertex it lists. *)
Definition unscannable (ms : list Mesh) (node : Node) : Prop :=
  match meshIndices node with
  | None => True
  | Some idxs =>
    Exists (dangling ms) idxs \/
    (modelMatrix node = None /\ Exists (populated ms) idxs)
  end.

(** Some node of the scene stops the extents scan. *)
Definition danglingReference (s : Scene) : Prop :=
  Exists (unscannable (meshes s)) (nodes s).

(** The normal-matrix loop cannot get through this node: it has no
    [modelMatrix], or a singular one on which the matrix library throws. *)
Definition uninvertible (degenerate : mat4.Degenerate) (node : Node)
  : Prop :=
  match modelMatrix node with
  | None => True
  | Some mat =>
    mat4.determinant mat = 0%R /\
    exists e dest,
      degenerate mat (mat4.Numbers mat4.create) = Throw e dest
  end.

(** Two node objects have the same [modelMatrix] and [meshIndices]. *)
Definition sameReferences (node' node : Node) : Prop :=
  modelMatrix node' = modelMatrix node /\
  meshIndices node' = meshIndices node.

(** Everything of a model but the nodes' [normalMatrix] properties is as it
    is on another model. *)
Definition sameButNormalMatrices {F32 : Type} (this' this : Model.t F32)
  : Prop :=
  meshes (Model.json this') = meshes (Model.json this) /\
  materials (Model.json this') = materials (Model.json this) /\
  Model.vbo this' = Model.vbo this /\ Model.ibo this' = Model.ibo this /\
  Model.min this' = Model.min this /\ Model.max this' = Model.max this /\
  Model.center this' = Model.center this /\
  Model.diagonal this' = Model.diagonal this /\
  Forall2 sameReferences (nodes (Model.json this')) (nodes (Model.json this)).

(** A node that lists mesh 0 and then a mesh the scene does not have. *)
Definition strayScene : Scene :=
  {| meshes := [triangleMesh]; materials := [plainMaterial];
     nodes := [parsedNode mat4.identity [0; 3]] |}.

(** What [initialize] needs of a scene to run to its end. *)
Definition initializable (degenerate : mat4.Degenerate) (s : Scene)
  : Prop :=
  ~ Exists (unsizable (materials s)) (meshes s) /\
  Forall (fun curMaterial => diffuseTexture curMaterial <> None)
         (materials s) /\
  ~ Exists (uninvertible degenerate) (nodes s) /\
  ~ danglingReference s.

(** Three behaviours of a matrix library on a singular matrix: it returns
    and leaves the destination as it was; it returns after dividing by the
    zero determinant, leaving elements that are [NaN] or infinite; or it
    throws. *)
Definition leavesDestination : mat4.Degenerate :=
  fun _ dest => Normal dest.

Definition dividesByZero : mat4.Degenerate :=
  fun _ _ => Normal mat4.NonFinite.

Definition throwsOnSingular : mat4.Degenerate :=
  fun _ dest => Throw TypeError dest.

(** A material without [diffuseTexture], and scenes that have one: under a
    mesh without texture coordinates, and under a mesh with them. *)
Definition bareMaterial : Material := {| diffuseTexture := None |}.

Definition bareMaterialScene : Scene :=
  {| meshes := [barePoint];
     materials := [plainMaterial; bareMaterial];
     nodes := [parsedNode mat4.identity [0]] |}.

Definition texturedBareScene : Scene :=
  {| meshes := [texturedSegment]; materials := [bareMaterial];
     nodes := [] |}.

(** A node without [meshIndices] and a node without [modelMatrix]. *)
Definition looseNode : Node :=
  {| modelMatrix := Some mat4.identity; meshIndices := None;
     normalMatrix := None |}.

Definition unplacedNode : Node :=
  {| modelMatrix := None; meshIndices := Some [0];
     normalMatrix := None |}.

Definition looseScene : Scene :=
  {| meshes := [triangleMesh]; materials := [plainMaterial];
     nodes := [looseNode] |}.

Definition unplacedScene : Scene :=
  {| meshes := [triangleMesh]; materials := [plainMaterial];
     nodes := [parsedNode mat4.identity [0]; unplacedNode] |}.

(** The point a vertex with an undefined coordinate becomes. *)
Definition NaNPoint : vec3.t := vec3.mk NaN NaN NaN.

(** A mesh with an incomplete last vertex, visited before a vertex with
    negative coordinates. *)
Definition raggedFirstScene : Scene :=
  {| meshes := [raggedMesh; negativePoint];
     materials := [plainMaterial];
     nodes := [parsedNode mat4.identity [0; 1]] |}.

(** The mesh object after the write pass reached it with the cursor at
    [writeIdx]. *)
Definition withOffsets (writeIdx : nat) (m : Mesh) : Mesh :=
  let m := set_positionsOffset m writeIdx in
  let m := set_normalsOffset m (3 + writeIdx) in
  if truthy (hasTexture m) then set_texCoordsOffset m (6 + writeIdx) else m.

(** Two buffers with the same typed array and the same contents. *)
Definition sameContents {A E : Type} (a b : Buffer.t A E) : Prop :=
  Buffer.ArrayType a = Buffer.ArrayType b /\
  store (Buffer.rawBuffer a) = store (Buffer.rawBuffer b) /\
  Buffer.length a = Buffer.length b.

(** * Proofs *)

Unset Implicit Arguments.

Lemma sizeBody_sized (materials : list Material) (m m' : Mesh)
  (vboSize iboSize vboSize' iboSize' : nat) :
  Model.sizeBody materials m vboSize iboSize
    = Normal (m', vboSize', iboSize') ->
  sized materials iboSize m m' /\
  vboSize' = vboSize + sizeOf m' /\
  iboSize' = iboSize + indexCount m /\
  positionsOffset m' = positionsOffset m /\
  normalsOffset m' = normalsOffset m /\
  texCoordsOffset m' = texCoordsOffset m.
Proof.
  unfold Model.sizeBody, sized, sameData, indexed, indexCount, sizeOf,
    texChannel0, hasDiffuseTexture.
  destruct m as [pos nrm tex idx mi ht hi st po no to io ibo]; simpl.
  destruct pos as [pos|]; [|discriminate].
  destruct nrm as [nrm|]; [|discriminate].
  destruct tex as [[|[|t0 tx] chans]|]; simpl;
    try destruct (nth_error materials mi) as [[[[|d ds]|]]|]; simpl;
    destruct idx as [[|i0 ix]|]; simpl; intros H; inversion H; subst; clear H; simpl.
  all: split; [split; [repeat split|split]|repeat split; try solve [lia|reflexivity]].
  
  all: try (exists false; split; [reflexivity|split; [reflexivity|]]).
  all: try (exists true; split; [reflexivity|split; [reflexivity|]]).
  all: try (split; intros; try discriminate; try reflexivity).
  all: try (exists false; split; [reflexivity|split; [split; intros; try discriminate|intros; discriminate]]).
  all: try (exists true; split; [reflexivity|split; [split; intros; try reflexivity|intros; split; reflexivity]]).
  all: try solve [ match goal with
                | H : exists _, _ |- _ => destruct H as (? & ? & ?); congruence
                end
              | match goal with
                | H : _ /\ _ |- _ =>
                  destruct H as [(? & ? & ?) (? & ? & ?)]; congruence
                end
              | split; eexists; split; try reflexivity; discriminate
              | eexists; split; try reflexivity; discriminate ].
  all: try match goal with
       | H : _ /\ (exists _, Some _ = Some _ /\ _) |- _ =>
         destruct H as [_ (cm & E & (paths & P & N))]; inversion E; subst;
         simpl in P; congruence
       end.
  all: split; eexists; (split; [reflexivity|]);
    [discriminate|eexists; split; [reflexivity|discriminate]].
Qed.


Lemma sizeLoop_spec (materials : list Material) (ms : list Mesh) :
  forall (vboSize iboSize : nat) (ms' : list Mesh) (vboSize' iboSize' : nat),
  Model.sizeLoop materials ms vboSize iboSize
    = Normal (ms', vboSize', iboSize') ->
  List.length ms' = List.length ms /\
  vboSize' = vboSize + list_sum (map sizeOf ms') /\
  iboSize' = iboSize + list_sum (map indexCount ms) /\
  forall k m', nth_error ms' k = Some m' ->
    exists m, nth_error ms k = Some m /\
      sized materials (iboSize + list_sum (map indexCount (firstn k ms))) m m' /\
      positionsOffset m' = positionsOffset m /\
      normalsOffset m' = normalsOffset m /\
      texCoordsOffset m' = texCoordsOffset m.
Proof.
  induction ms as [|m ms IH]; intros vboSize iboSize ms' vboSize' iboSize' H.
  - simpl in H. inversion H; subst. simpl.
    repeat split; try lia. intros [|k] m' Hk; discriminate.
  - simpl in H.
    destruct (Model.sizeBody materials m vboSize iboSize)
      as [[[m1 v1] i1]|] eqn:Hb; [|discriminate].
    destruct (Model.sizeLoop materials ms v1 i1)
      as [[[ms1 v2] i2]|] eqn:Hl; [|discriminate].
    inversion H; subst; clear H.
    apply sizeBody_sized in Hb.
    destruct Hb as (Hs & Hv & Hi & Hpo & Hno & Hto).
    apply IH in Hl. destruct Hl as (Hlen & Hv2 & Hi2 & Hnth).
    simpl. repeat split; try lia.
    intros [|k] m' Hk; simpl in Hk.
    + inversion Hk; subst. exists m. simpl.
      rewrite Nat.add_0_r. auto.
    + apply Hnth in Hk. destruct Hk as (m0 & Hm0 & Hsz & Ho).
      exists m0. simpl. split; [assumption|]. split; [|assumption].
      replace (iboSize + (indexCount m + list_sum (map indexCount (firstn k ms))))
        with (i1 + list_sum (map indexCount (firstn k ms))) by lia.
      assumption.
Qed.

(** ** Lists, slices and buffer writes *)

Lemma slice_length {A : Type} (l : list A) (b c : nat) :
  b + c <= List.length l -> List.length (slice l b (b + c)) = c.
Proof.
  intros H. unfold slice.
  rewrite length_firstn, length_skipn. lia.
Qed.

Lemma slice_app_middle {A : Type} (pre mid post : list A) :
  slice (pre ++ mid ++ post) (List.length pre)
        (List.length pre + List.length mid) = mid.
Proof.
  unfold slice.
  rewrite skipn_app, skipn_all, Nat.sub_diag. simpl.
  replace (List.length pre + List.length mid - List.length pre)
    with (List.length mid + 0) by lia.
  rewrite firstn_app_2. simpl. apply app_nil_r.
Qed.

Lemma write_store {A E : Type} (b : Buffer.t A E) (data : list A)
  (pre mid post : list E) (w : nat) :
  store (Buffer.rawBuffer b) = pre ++ mid ++ post ->
  List.length pre = w ->
  List.length mid = List.length data ->
  store (Buffer.rawBuffer (Buffer.write b data (Some w)))
    = pre ++ map (element (Buffer.ArrayType b)) data ++ post.
Proof.
  intros Hs Hp Hm. unfold Buffer.write, bufferSubData. simpl.
  rewrite Hs, length_map, !length_app.
  replace (w + List.length data <=?
           List.length pre + (List.length mid + List.length post))
    with true by (symmetry; apply Nat.leb_le; lia).
  subst w. f_equal.
  - rewrite firstn_app, firstn_all, Nat.sub_diag. simpl. apply app_nil_r.
  - f_equal. rewrite <- Hm.
    rewrite app_assoc, skipn_app, skipn_all2 by (rewrite length_app; lia).
    rewrite length_app.
    replace (List.length pre + List.length mid
             - (List.length pre + List.length mid)) with 0 by lia.
    reflexivity.
Qed.

Lemma write_fields {A E : Type} (b : Buffer.t A E) (data : list A)
  (index : option nat) :
  Buffer.length (Buffer.write b data index) = Buffer.length b /\
  Buffer.ArrayType (Buffer.write b data index) = Buffer.ArrayType b /\
  subData (Buffer.rawBuffer (Buffer.write b data index))
    = (match index with Some i => i | None => 0 end, List.length data)
        :: subData (Buffer.rawBuffer b).
Proof.
  unfold Buffer.write, bufferSubData. simpl.
  rewrite length_map. auto.
Qed.

Lemma write_store_skip {A E : Type} (b : Buffer.t A E) (data : list A)
  (pre rest : list E) (w : nat) :
  store (Buffer.rawBuffer b) = pre ++ rest ->
  List.length pre = w ->
  List.length data <= List.length rest ->
  store (Buffer.rawBuffer (Buffer.write b data (Some w)))
    = (pre ++ map (element (Buffer.ArrayType b)) data)
        ++ skipn (List.length data) rest.
Proof.
  intros Hs Hp Hd.
  rewrite <- (firstn_skipn (List.length data) rest) in Hs.
  rewrite <- app_assoc.
  apply write_store with (mid := firstn (List.length data) rest); auto.
  rewrite length_firstn. lia.
Qed.

(** ** The vertex loop on a packable mesh *)

Section VertexLoop.

Context {F32 : Type}.
Variable m : Mesh.
Variable n : nat.
Variables positions normals : list R.
Hypothesis Hpos : vertexPositions m = Some positions.
Hypothesis Hnrm : vertexNormals m = Some normals.
Hypothesis Hlenp : List.length positions = 3 * n.
Hypothesis Hlenn : List.length normals = 3 * n.
Hypothesis Htex :
  truthy (hasTexture m) = true ->
  exists texCoords,
    texChannel0 m = Some texCoords /\ List.length texCoords = 2 * n.

Let st : nat := 6 + (if truthy (hasTexture m) then 2 else 0).

Lemma vertexRecord_length (i : nat) :
  i < n -> List.length (vertexRecord m i) = st.
Proof.
  intros Hi. unfold vertexRecord, positionOf, normalOf, texCoordOf, st.
  rewrite Hpos, Hnrm, !length_app, !slice_length by lia.
  destruct (truthy (hasTexture m)) eqn:Ht.
  - destruct (Htex eq_refl) as (tex & -> & Hl).
    rewrite slice_length by lia. reflexivity.
  - reflexivity.
Qed.

Lemma vertexLoop_packs :
  forall (d fuel i k : nat) (vbo : Buffer.t R F32) (w : nat),
  i + d = n -> d <= fuel ->
  (truthy (hasTexture m) = true -> k = 2 * i) ->
  exists vbo',
    Model.vertexLoop fuel m positions (3 * i) k vbo w
      = Normal (vbo', w + st * d) /\
    Buffer.length vbo' = Buffer.length vbo /\
    Buffer.ArrayType vbo' = Buffer.ArrayType vbo /\
    (exists calls,
       subData (Buffer.rawBuffer vbo')
         = calls ++ subData (Buffer.rawBuffer vbo) /\
       list_sum (map snd calls) = st * d /\
       Forall (fun c => w <= fst c /\ fst c + snd c <= w + st * d /\
                        0 < snd c) calls) /\
    (forall pre rest,
       store (Buffer.rawBuffer vbo) = pre ++ rest ->
       List.length pre = w ->
       st * d <= List.length rest ->
       store (Buffer.rawBuffer vbo')
         = pre ++ map (element (Buffer.ArrayType vbo))
                    (flat_map (vertexRecord m) (seq i d))
               ++ skipn (st * d) rest).
Proof.
  induction d as [|d IH]; intros fuel i k vbo w Hid Hfuel Hk.
  - exists vbo. rewrite Nat.mul_0_r, Nat.add_0_r.
    split; [|split; [reflexivity|split; [reflexivity|split]]].
    + destruct fuel; cbn [Model.vertexLoop]; [reflexivity|].
      replace (3 * i <? List.length positions) with false; [reflexivity|].
      symmetry. apply Nat.ltb_ge. lia.
    + exists []. simpl. auto.
    + intros pre rest Hs _ _. simpl. assumption.
  - destruct fuel as [|fuel]; [lia|].
    cbn [Model.vertexLoop].
    replace (3 * i <? List.length positions) with true
      by (symmetry; apply Nat.ltb_lt; lia).
    rewrite Hnrm.
    set (vbo1 := Buffer.write vbo (slice positions (3 * i) (3 * i + 3))
                   (Some w)).
    set (vbo2 := Buffer.write vbo1 (slice normals (3 * i) (3 * i + 3))
                   (Some (w + 3))).
    assert (Hp3 : List.length (slice positions (3 * i) (3 * i + 3)) = 3)
      by (apply slice_length; lia).
    assert (Hn3 : List.length (slice normals (3 * i) (3 * i + 3)) = 3)
      by (apply slice_length; lia).
    destruct (write_fields vbo (slice positions (3 * i) (3 * i + 3)) (Some w))
      as (Hl1 & Ha1 & Hc1). fold vbo1 in Hl1, Ha1, Hc1.
    destruct (write_fields vbo1 (slice normals (3 * i) (3 * i + 3))
                (Some (w + 3))) as (Hl2 & Ha2 & Hc2).
    fold vbo2 in Hl2, Ha2, Hc2.
    assert (Hrec : vertexRecord m i
                   = slice positions (3 * i) (3 * i + 3)
                       ++ slice normals (3 * i) (3 * i + 3)
                       ++ (if truthy (hasTexture m)
                           then texCoordOf m i else [])).
    { unfold vertexRecord, positionOf, normalOf. rewrite Hpos, Hnrm.
      reflexivity. }
    unfold st in *.
    destruct (truthy (hasTexture m)) eqn:Ht.
    + destruct (Htex eq_refl) as (tex & Htx & Hlt).
      rewrite Htx. specialize (Hk eq_refl). subst k.
      set (vbo3 := Buffer.write vbo2 (slice tex (2 * i) (2 * i + 2))
                     (Some (w + 3 + 3))).
      assert (Ht2 : List.length (slice tex (2 * i) (2 * i + 2)) = 2)
        by (apply slice_length; lia).
      destruct (write_fields vbo2 (slice tex (2 * i) (2 * i + 2))
                  (Some (w + 3 + 3))) as (Hl3 & Ha3 & Hc3).
      fold vbo3 in Hl3, Ha3, Hc3.
      replace (3 * i + 3) with (3 * S i) by lia.
      replace (2 * i + 2) with (2 * S i) by lia.
      destruct (IH fuel (S i) (2 * S i) vbo3 (w + 3 + 3 + 2))
        as (vbo' & Hrun & Hl & Ha & (calls & Hcalls & Hsum & Hall) & Hst);
        [lia|lia|reflexivity|].
      exists vbo'. split; [|split; [|split; [|split]]].
      * rewrite Hrun. do 2 f_equal. lia.
      * congruence.
      * congruence.
      * exists (calls ++ [(w + 3 + 3, 2); (w + 3, 3); (w, 3)]).
        split; [|split].
        -- rewrite Hcalls, Hc3, Hc2, Hc1, Ht2, Hn3, Hp3, <- app_assoc.
           reflexivity.
        -- rewrite map_app, list_sum_app, Hsum. simpl. lia.
        -- apply Forall_app. split.
           ++ eapply Forall_impl; [|exact Hall]. simpl. intros c Hc. lia.
           ++ repeat constructor; simpl; lia.
      * intros pre rest Hs Hp Hr.
        assert (Hs1 := write_store_skip vbo _ pre rest _ Hs Hp
                         ltac:(rewrite Hp3; lia)).
        fold vbo1 in Hs1.
        assert (Hs2 := write_store_skip vbo1
                         (slice normals (3 * i) (3 * S i)) _ _ (w + 3) Hs1
                         ltac:(rewrite length_app, length_map, Hp3; lia)
                         ltac:(rewrite length_skipn, Hp3; 
                               replace (3 * S i) with (3 * i + 3) by lia;
                               rewrite Hn3; lia)).
        replace (3 * S i) with (3 * i + 3) in Hs2 by lia.
        fold vbo2 in Hs2.
        assert (Hs3 := write_store_skip vbo2
                         (slice tex (2 * i) (2 * i + 2)) _ _ (w + 3 + 3) Hs2
                         ltac:(rewrite !length_app, !length_map, Hp3, Hn3; lia)
                         ltac:(rewrite !length_skipn, Hp3, Hn3, Ht2; lia)).
        replace (2 * S i) with (2 * i + 2) in vbo3 by lia.
        fold vbo3 in Hs3.
        rewrite (Hst _ _ Hs3).
        -- rewrite Ha3, Ha2, Ha1. cbn [seq flat_map]. rewrite Hrec.
           unfold texCoordOf. rewrite Htx.
           rewrite !map_app, <- !app_assoc.
           do 5 f_equal. rewrite !skipn_skipn, Ht2, Hn3, Hp3. f_equal. lia.
        -- rewrite !length_app, !length_map, Hp3, Hn3, Ht2. lia.
        -- rewrite !length_skipn, Hp3, Hn3, Ht2. lia.
    + replace (3 * i + 3) with (3 * S i) by lia.
      destruct (IH fuel (S i) k vbo2 (w + 3 + 3))
        as (vbo' & Hrun & Hl & Ha & (calls & Hcalls & Hsum & Hall) & Hst);
        [lia|lia|discriminate|].
      exists vbo'. split; [|split; [|split; [|split]]].
      * rewrite Hrun. do 2 f_equal. lia.
      * congruence.
      * congruence.
      * exists (calls ++ [(w + 3, 3); (w, 3)]).
        split; [|split].
        -- rewrite Hcalls, Hc2, Hc1, Hn3, Hp3, <- app_assoc.
           reflexivity.
        -- rewrite map_app, list_sum_app, Hsum. simpl. lia.
        -- apply Forall_app. split.
           ++ eapply Forall_impl; [|exact Hall]. simpl. intros c Hc. lia.
           ++ repeat constructor; simpl; lia.
      * intros pre rest Hs Hp Hr.
        assert (Hs1 := write_store_skip vbo _ pre rest _ Hs Hp
                         ltac:(rewrite Hp3; lia)).
        fold vbo1 in Hs1.
        assert (Hs2 := write_store_skip vbo1
                         (slice normals (3 * i) (3 * S i)) _ _ (w + 3) Hs1
                         ltac:(rewrite length_app, length_map, Hp3; lia)
                         ltac:(rewrite length_skipn, Hp3; 
                               replace (3 * S i) with (3 * i + 3) by lia;
                               rewrite Hn3; lia)).
        replace (3 * S i) with (3 * i + 3) in Hs2 by lia.
        fold vbo2 in Hs2.
        rewrite (Hst _ _ Hs2).
        -- rewrite Ha2, Ha1. cbn [seq flat_map]. rewrite Hrec, app_nil_r.
           rewrite !map_app, <- !app_assoc.
           do 4 f_equal. rewrite !skipn_skipn, Hn3, Hp3. f_equal. lia.
        -- rewrite !length_app, !length_map, Hp3, Hn3. lia.
        -- rewrite !length_skipn, Hp3, Hn3. lia.
Qed.

End VertexLoop.

(** ** The write pass *)

Lemma vertexRecord_ext (m m' : Mesh) :
  sameData m m' -> hasTexture m' = hasTexture m ->
  forall k, vertexRecord m' k = vertexRecord m k.
Proof.
  intros (Hp & Hn & Ht & _ & _) Hh k.
  unfold vertexRecord, positionOf, normalOf, texCoordOf, texChannel0.
  rewrite Hp, Hn, Ht, Hh. reflexivity.
Qed.

Lemma packedMesh_ext (m m' : Mesh) :
  sameData m m' -> hasTexture m' = hasTexture m ->
  packedMesh m' = packedMesh m.
Proof.
  intros Hd Hh. unfold packedMesh, vertexCount.
  destruct Hd as (Hp & Hd'). rewrite Hp.
  apply flat_map_ext. intros k.
  apply vertexRecord_ext; [split; assumption | assumption].
Qed.

Lemma packable_meshSize (m : Mesh) (n : nat) :
  packable m n ->
  vertexCount m = n /\
  meshSize m = (6 + (if truthy (hasTexture m) then 2 else 0)) * n.
Proof.
  intros (positions & normals & Hp & Hn & Hlp & Hln & Hst & Htx).
  assert (Hv : vertexCount m = n).
  { unfold vertexCount. rewrite Hp, Hlp, Nat.mul_comm.
    apply Nat.div_mul. discriminate. }
  split; [assumption|]. unfold meshSize. rewrite Hst, Hv. reflexivity.
Qed.

Lemma packedMesh_length (m : Mesh) (n : nat) :
  packable m n -> List.length (packedMesh m) = meshSize m.
Proof.
  intros Hpk. destruct (packable_meshSize m n Hpk) as (Hv & Hs).
  destruct Hpk as (positions & normals & Hp & Hn & Hlp & Hln & Hst & Htx).
  rewrite Hs. unfold packedMesh. rewrite Hv.
  assert (H : forall d i, i + d <= n ->
            List.length (flat_map (vertexRecord m) (seq i d))
              = (6 + (if truthy (hasTexture m) then 2 else 0)) * d).
  { induction d as [|d IH]; intros i Hi; [simpl; lia|].
    cbn [seq flat_map]. rewrite length_app, IH by lia.
    rewrite (vertexRecord_length m n positions normals Hp Hn Hlp Hln Htx)
      by lia.
    lia. }
  apply H. lia.
Qed.

Lemma writeBody_packs {F32 : Type} (m : Mesh) (n : nat)
  (vbo : Buffer.t R F32) (ibo : Buffer.t Z Z) (w : nat) :
  packable m n ->
  exists m' vbo' ibo',
    Model.writeBody m vbo ibo w = Normal (m', vbo', ibo', w + meshSize m) /\
    placed w m m' /\
    Buffer.length vbo' = Buffer.length vbo /\
    Buffer.ArrayType vbo' = Buffer.ArrayType vbo /\
    Buffer.length ibo' = Buffer.length ibo /\
    (exists calls,
       subData (Buffer.rawBuffer vbo')
         = calls ++ subData (Buffer.rawBuffer vbo) /\
       list_sum (map snd calls) = meshSize m /\
       Forall (fun c => w <= fst c /\ fst c + snd c <= w + meshSize m /\
                        0 < snd c) calls) /\
    (forall pre rest,
       store (Buffer.rawBuffer vbo) = pre ++ rest ->
       List.length pre = w ->
       meshSize m <= List.length rest ->
       store (Buffer.rawBuffer vbo')
         = pre ++ map (element (Buffer.ArrayType vbo)) (packedMesh m)
               ++ skipn (meshSize m) rest).
Proof.
  intros Hpk. destruct (packable_meshSize m n Hpk) as (Hv & Hs).
  destruct Hpk as (positions & normals & Hp & Hn & Hlp & Hln & Hst & Htx).
  unfold Model.writeBody.
  set (m1 := if truthy (hasTexture (set_normalsOffset
                                      (set_positionsOffset m w) (3 + w)))
             then set_texCoordsOffset
                    (set_normalsOffset (set_positionsOffset m w) (3 + w))
                    (6 + w)
             else set_normalsOffset (set_positionsOffset m w) (3 + w)).
  assert (Hpl : placed w m m1).
  { unfold placed, sameData, sameLayout, m1. simpl.
    destruct (truthy (hasTexture m)); simpl; repeat split; auto;
      discriminate. }
  assert (Hpl' := Hpl).
  destruct Hpl as (Hd & Hl & Hpo & Hno & Hto).
  assert (Hd' := Hd). destruct Hd' as (Hp1 & Hn1 & Ht1 & Hi1 & Hm1).
  destruct Hl as (Hht & Hl').
  assert (Htc : texChannel0 m1 = texChannel0 m)
    by (unfold texChannel0; rewrite Ht1; reflexivity).
  rewrite Hp1, Hp.
  destruct (@vertexLoop_packs F32 m1 n positions normals
              ltac:(congruence) ltac:(congruence) Hlp Hln
              ltac:(rewrite Hht, Htc; exact Htx)
              n (List.length positions) 0 0 vbo w)
    as (vbo' & Hrun & Hlen & Harr & Hcalls & Hstore); [lia|lia|lia|].
  rewrite Hht in Hrun, Hcalls, Hstore.
  change (3 * 0) with 0 in Hrun. rewrite Hrun.
  rewrite <- Hs in Hcalls, Hstore.
  eexists m1, vbo', _. split; [rewrite Hs; reflexivity|].
  split; [exact Hpl'|].
  split; [assumption|]. split; [assumption|]. split.
  { destruct (truthy (hasIndices m1)); [|reflexivity].
    apply write_fields. }
  split; [exact Hcalls|].
  intros pre rest H1 H2 H3. rewrite (Hstore pre rest H1 H2 H3).
  do 3 f_equal. unfold packedMesh. rewrite Hv.
  apply flat_map_ext. intros k. apply vertexRecord_ext; assumption.
Qed.

Lemma writeLoop_packs {F32 : Type} (ms : list Mesh) :
  Forall (fun m => exists n, packable m n) ms ->
  forall (vbo : Buffer.t R F32) (ibo : Buffer.t Z Z) (w : nat),
  exists ms' vbo' ibo',
    Model.writeLoop ms vbo ibo w
      = Normal (ms', vbo', ibo', w + list_sum (map meshSize ms)) /\
    (forall k m', nth_error ms' k = Some m' ->
       exists m, nth_error ms k = Some m /\
         placed (w + list_sum (map meshSize (firstn k ms))) m m') /\
    List.length ms' = List.length ms /\
    Buffer.length vbo' = Buffer.length vbo /\
    Buffer.ArrayType vbo' = Buffer.ArrayType vbo /\
    Buffer.length ibo' = Buffer.length ibo /\
    (exists calls,
       subData (Buffer.rawBuffer vbo')
         = calls ++ subData (Buffer.rawBuffer vbo) /\
       list_sum (map snd calls) = list_sum (map meshSize ms) /\
       Forall (fun c => w <= fst c /\
                        fst c + snd c <= w + list_sum (map meshSize ms) /\
                        0 < snd c) calls) /\
    (forall pre rest,
       store (Buffer.rawBuffer vbo) = pre ++ rest ->
       List.length pre = w ->
       list_sum (map meshSize ms) <= List.length rest ->
       store (Buffer.rawBuffer vbo')
         = pre ++ map (element (Buffer.ArrayType vbo)) (packed ms)
               ++ skipn (list_sum (map meshSize ms)) rest).
Proof.
  induction 1 as [|m ms [n Hm] Hms IH]; intros vbo ibo w.
  - exists [], vbo, ibo. cbn [Model.writeLoop map list_sum fold_right].
    rewrite Nat.add_0_r.
    split; [reflexivity|]. split; [intros [|k] m' Hk; discriminate|].
    repeat (split; [reflexivity|]). split.
    + exists []. simpl. auto.
    + intros pre rest Hs _ _. simpl. assumption.
  - destruct (writeBody_packs m n vbo ibo w Hm)
      as (m1 & vbo1 & ibo1 & Hrun1 & Hpl1 & Hl1 & Ha1 & Hi1
          & (calls1 & Hc1 & Hsum1 & Hall1) & Hst1).
    destruct (IH vbo1 ibo1 (w + meshSize m))
      as (ms2 & vbo2 & ibo2 & Hrun2 & Hpl2 & Hlen2 & Hl2 & Ha2 & Hi2
          & (calls2 & Hc2 & Hsum2 & Hall2) & Hst2).
    exists (m1 :: ms2), vbo2, ibo2.
    cbn [Model.writeLoop map list_sum fold_right].
    change (fold_right Nat.add 0 (map meshSize ms))
      with (list_sum (map meshSize ms)).
    rewrite Hrun1, Hrun2.
    split; [do 2 f_equal; lia|]. split.
    { intros [|k] m' Hk; simpl in Hk.
      - inversion Hk; subst. exists m. simpl. rewrite Nat.add_0_r. auto.
      - destruct (Hpl2 k m' Hk) as (m0 & Hm0 & Hp0).
        exists m0. simpl. split; [assumption|].
        rewrite Nat.add_assoc. assumption. }
    split; [simpl; congruence|].
    split; [congruence|]. split; [congruence|]. split; [congruence|].
    split.
    { exists (calls2 ++ calls1). split; [|split].
      - rewrite Hc2, Hc1, app_assoc. reflexivity.
      - rewrite map_app, list_sum_app. lia.
      - apply Forall_app. split.
        + eapply Forall_impl; [|exact Hall2]. simpl. intros c Hc. lia.
        + eapply Forall_impl; [|exact Hall1]. simpl. intros c Hc. lia. }
    intros pre rest Hs Hp Hr.
    assert (Hpm := packedMesh_length m n Hm).
    rewrite (Hst2 (pre ++ map (element (Buffer.ArrayType vbo)) (packedMesh m))
               (skipn (meshSize m) rest)).
    + rewrite Ha1. unfold packed. cbn [flat_map].
      rewrite map_app, <- !app_assoc, skipn_skipn.
      do 3 f_equal. f_equal. lia.
    + rewrite (Hst1 pre rest Hs Hp) by lia. apply app_assoc.
    + rewrite length_app, length_map, Hpm. lia.
    + rewrite length_skipn. lia.
Qed.

(** Whatever the meshes are, the write pass keeps what the size pass
    attached and the size of the index buffer. *)
Lemma writeBody_keeps {F32 : Type} (m m' : Mesh) (vbo vbo' : Buffer.t R F32)
  (ibo ibo' : Buffer.t Z Z) (w w' : nat) :
  Model.writeBody m vbo ibo w = Normal (m', vbo', ibo', w') ->
  sameData m m' /\ sameLayout m m' /\
  Buffer.length ibo' = Buffer.length ibo.
Proof.
  unfold Model.writeBody.
  set (m1 := if truthy (hasTexture (set_normalsOffset
                                      (set_positionsOffset m w) (3 + w)))
             then set_texCoordsOffset
                    (set_normalsOffset (set_positionsOffset m w) (3 + w))
                    (6 + w)
             else set_normalsOffset (set_positionsOffset m w) (3 + w)).
  assert (H1 : sameData m m1 /\ sameLayout m m1).
  { unfold sameData, sameLayout, m1. simpl.
    destruct (truthy (hasTexture m)); simpl; repeat split; reflexivity. }
  destruct (vertexPositions m1) as [positions|]; [|discriminate].
  destruct (Model.vertexLoop (List.length positions) m1 positions 0 0 vbo w)
    as [[vbo1 w1]|]; [|discriminate].
  intros H. inversion H; subst; clear H.
  destruct H1 as (Hd & Hl). split; [assumption|]. split; [assumption|].
  destruct (truthy (hasIndices m1)); [|reflexivity].
  apply write_fields.
Qed.

Lemma writeLoop_keeps {F32 : Type} (ms : list Mesh) :
  forall (ms' : list Mesh) (vbo vbo' : Buffer.t R F32)
         (ibo ibo' : Buffer.t Z Z) (w w' : nat),
  Model.writeLoop ms vbo ibo w = Normal (ms', vbo', ibo', w') ->
  Buffer.length ibo' = Buffer.length ibo /\
  List.length ms' = List.length ms /\
  forall k m', nth_error ms' k = Some m' ->
    exists m, nth_error ms k = Some m /\ sameData m m' /\ sameLayout m m'.
Proof.
  induction ms as [|m ms IH]; intros ms' vbo vbo' ibo ibo' w w' H.
  - simpl in H. inversion H; subst. split; [reflexivity|].
    split; [reflexivity|].
    intros [|k] m' Hk; discriminate.
  - simpl in H.
    destruct (Model.writeBody m vbo ibo w)
      as [[[[m1 vbo1] ibo1] w1]|e [[m1 vbo1] ibo1]] eqn:Hb; [|discriminate].
    destruct (Model.writeLoop ms vbo1 ibo1 w1)
      as [[[[ms2 vbo2] ibo2] w2]|e [[ms2 vbo2] ibo2]] eqn:Hl; [|discriminate].
    inversion H; subst; clear H.
    apply writeBody_keeps in Hb. destruct Hb as (Hd & Hy & Hi).
    apply IH in Hl. destruct Hl as (Hi2 & Hlen & Hnth).
    split; [congruence|]. split; [simpl; congruence|].
    intros [|k] m' Hk; simpl in Hk.
    + inversion Hk; subst. exists m. simpl. auto.
    + apply Hnth in Hk. exact Hk.
Qed.

(** ** _initBuffers as a whole *)

Lemma initBuffers_passes {F32 : Type} (this this' : Model.t F32)
  (locals : Model.Locals) :
  Model._initBuffers this = Normal (this', locals) ->
  exists ms1 vbo2 ibo2,
    Model.sizeLoop (materials (Model.json this))
      (meshes (Model.json this)) 0 0
      = Normal (ms1, Model.vboSize locals, Model.iboSize locals) /\
    Model.writeLoop ms1
      (Buffer.allocate (Model.vbo this) (Model.vboSize locals))
      (Buffer.allocate (Model.ibo this) (Model.iboSize locals)) 0
      = Normal (meshes (Model.json this'), vbo2, ibo2,
                Model.writeIdx locals) /\
    Model.vbo this' = vbo2 /\ Model.ibo this' = ibo2 /\
    materials (Model.json this') = materials (Model.json this) /\
    nodes (Model.json this') = nodes (Model.json this).
Proof.
  unfold Model._initBuffers, Buffer.bind, Buffer.unbind.
  destruct (Model.sizeLoop _ _ 0 0) as [[[ms1 v1] i1]|]; [|discriminate].
  destruct (Model.writeLoop ms1 _ _ 0)
    as [[[[ms2 vbo2] ibo2] w2]|e [[ms2 vbo2] ibo2]] eqn:Hl; [|discriminate].
  intros H. inversion H; subst; clear H. simpl.
  exists ms1, vbo2, ibo2. rewrite Hl. repeat split; reflexivity.
Qed.

Lemma initBuffers_meshes {F32 : Type} (this this' : Model.t F32)
  (locals : Model.Locals) :
  Model._initBuffers this = Normal (this', locals) ->
  List.length (meshes (Model.json this'))
    = List.length (meshes (Model.json this)) /\
  Buffer.length (Model.ibo this')
    = list_sum (map indexCount (meshes (Model.json this))) /\
  forall i m', nth_error (meshes (Model.json this')) i = Some m' ->
    exists m, nth_error (meshes (Model.json this)) i = Some m /\
      sized (materials (Model.json this))
        (list_sum (map indexCount (firstn i (meshes (Model.json this)))))
        m m'.
Proof.
  intros H. apply initBuffers_passes in H.
  destruct H as (ms1 & vbo2 & ibo2 & Hsize & Hwrite & Hvbo & Hibo & _).
  apply sizeLoop_spec in Hsize.
  destruct Hsize as (Hlen1 & _ & Hibs & Hnth1).
  apply writeLoop_keeps in Hwrite.
  destruct Hwrite as (Hil & Hlen2 & Hnth2).
  split; [congruence|]. split.
  { rewrite Hibo, Hil. simpl. lia. }
  intros i m' Hi.
  destruct (Hnth2 i m' Hi) as (m1 & Hm1 & Hd & Hl).
  destruct (Hnth1 i m1 Hm1) as (m & Hm & Hs & _).
  exists m. split; [assumption|].
  destruct Hd as (d1 & d2 & d3 & d4 & d5).
  destruct Hl as (l1 & l2 & l3 & l4 & l5).
  destruct Hs as ((s1 & s2 & s3 & s4 & s5) & Ht & Hx).
  unfold sized, sameData.
  rewrite d1, d2, d3, d4, d5, l1, l2, l3, l4, l5.
  simpl in Ht, Hx. repeat split; auto.
Qed.


Lemma indexed_indexCount (m : Mesh) : ~ indexed m -> indexCount m = 0.
Proof.
  unfold indexed, indexCount. intros H.
  destruct (indices m) as [[|i0 idx]|]; try reflexivity.
  exfalso. apply H. eexists. split; [reflexivity|discriminate].
Qed.


(** C2.  After [_initBuffers] every mesh has [stride = 6 + (2 if hasTexture
    else 0)], and [hasTexture] is true exactly when the mesh has a non-empty
    texcoord channel 0 and the material its [materialIndex] names has a
    non-empty [diffuseTexture]; a mesh with texcoords whose material has no
    texture gets [hasTexture = false] and the stride 6 of a layout without
    texcoords. *)
Theorem initBuffers_stride_hasTexture {F32 : Type} (this this' : Model.t F32)
  (locals : Model.Locals) :
  Model._initBuffers this = Normal (this', locals) ->
  List.length (meshes (Model.json this'))
    = List.length (meshes (Model.json this)) /\
  forall i m', nth_error (meshes (Model.json this')) i = Some m' ->
    exists m b,
      nth_error (meshes (Model.json this)) i = Some m /\
      sameData m m' /\
      hasTexture m' = Some b /\
      stride m' = Some (6 + (if b then 2 else 0)) /\
      (b = true <-> textured (Model.json this) m) /\
      (forall curMaterial,
         nth_error (materials (Model.json this)) (materialIndex m)
           = Some curMaterial ->
         ~ hasDiffuseTexture curMaterial ->
         hasTexture m' = Some false /\ stride m' = Some 6).
Proof.
  intros H. apply initBuffers_meshes in H. destruct H as (Hlen & _ & Hnth).
  split; [assumption|]. intros i m' Hi.
  destruct (Hnth i m' Hi) as (m & Hm & Hd & (b & Hb & Hst & Hiff) & _).
  exists m, b. repeat (split; [assumption|]).
  intros curMaterial Hmat Hemp.
  destruct b; [|auto].
  destruct Hiff as [Hiff _].
  destruct (Hiff eq_refl) as (_ & cm & Hcm & Hdt).
  rewrite Hmat in Hcm. inversion Hcm; subst. contradiction.
Qed.


(** ** Well-formed scenes *)

Lemma sized_packable (s : Scene) (i : nat) (m m1 : Mesh) :
  wellFormedMesh s m ->
  (forall positions, vertexPositions m = Some positions ->
                     List.length positions mod 3 = 0) ->
  sized (materials s) i m m1 ->
  exists n, packable m1 n /\ sizeOf m1 = meshSize m1.
Proof.
  intros (positions & normals & Hp & Hn & Hlen & Htex) H3
         ((d1 & d2 & d3 & d4 & d5) & (b & Hb & Hst & Hiff) & _).
  specialize (H3 positions Hp).
  assert (Hdiv : List.length positions = 3 * (List.length positions / 3)).
  { apply Nat.Div0.div_exact. assumption. }
  set (n := List.length positions / 3) in *.
  assert (Htr : truthy (hasTexture m1) = b) by (rewrite Hb; destruct b; reflexivity).
  assert (Htc : texChannel0 m1 = texChannel0 m)
    by (unfold texChannel0; rewrite d3; reflexivity).
  assert (Hpk : packable m1 n).
  { exists positions, normals. rewrite d1, d2, Htr.
    repeat (split; [assumption || lia|]).
    intros Hbt. destruct Hiff as [Hiff _].
    destruct (Htex (Hiff Hbt)) as (tex & Htx & Hl).
    exists tex. rewrite Htc. split; [assumption|lia]. }
  exists n. split; [assumption|].
  destruct (packable_meshSize m1 n Hpk) as (_ & ->).
  unfold sizeOf. rewrite d1, d2, Hp, Hn, Htr, Htc.
  destruct b.
  - destruct Hiff as [Hiff _].
    destruct (Htex (Hiff eq_refl)) as (tex & -> & Hl). lia.
  - lia.
Qed.

Lemma wellFormed_packable (s : Scene) (ms1 : list Mesh) (v i : nat) :
  wellFormed s -> wholeTriples s ->
  Model.sizeLoop (materials s) (meshes s) 0 0 = Normal (ms1, v, i) ->
  Forall (fun m => exists n, packable m n) ms1 /\
  v = list_sum (map meshSize ms1).
Proof.
  intros Hwf Htr Hsize. apply sizeLoop_spec in Hsize.
  destruct Hsize as (Hlen & Hv & _ & Hnth).
  assert (H : Forall (fun m1 => (exists n, packable m1 n) /\
                                sizeOf m1 = meshSize m1) ms1).
  { apply Forall_forall. intros m1 Hin.
    apply In_nth_error in Hin. destruct Hin as (k & Hk).
    destruct (Hnth k m1 Hk) as (m & Hm & Hs & _).
    apply nth_error_In in Hm.
    unfold wellFormed, wholeTriples in *. rewrite Forall_forall in Hwf, Htr.
    destruct (sized_packable s _ m m1 (Hwf m Hm) (Htr m Hm) Hs)
      as (n & Hpk & He).
    split; [exists n; assumption|assumption]. }
  split.
  - eapply Forall_impl; [|exact H]. simpl. intros a (Ha & _). exact Ha.
  - rewrite Hv. simpl. f_equal. apply map_ext_Forall.
    eapply Forall_impl; [|exact H]. simpl. intros a (_ & Ha). exact Ha.
Qed.

Lemma initBuffers_packs {F32 : Type} (Float32Array : TypedArray R F32)
  (s : Scene) (this' : Model.t F32) (locals : Model.Locals) :
  wellFormed s -> wholeTriples s ->
  Model._initBuffers (Model.new Float32Array s) = Normal (this', locals) ->
  exists ms1,
    Model.sizeLoop (materials s) (meshes s) 0 0
      = Normal (ms1, Model.vboSize locals, Model.iboSize locals) /\
    Forall (fun m => exists n, packable m n) ms1 /\
    Model.vboSize locals = list_sum (map meshSize ms1) /\
    Model.writeIdx locals = Model.vboSize locals /\
    Buffer.length (Model.vbo this') = Model.vboSize locals /\
    store (Buffer.rawBuffer (Model.vbo this'))
      = map (element Float32Array) (packed ms1) /\
    Buffer.written (Model.vbo this') = Model.vboSize locals /\
    Forall (inCapacity (Model.vboSize locals))
      (subData (Buffer.rawBuffer (Model.vbo this'))) /\
    (forall k m', nth_error (meshes (Model.json this')) k = Some m' ->
       exists m1, nth_error ms1 k = Some m1 /\
         placed (list_sum (map meshSize (firstn k ms1))) m1 m').
Proof.
  intros Hwf Htr H. apply initBuffers_passes in H.
  destruct H as (ms1 & vbo2 & ibo2 & Hsize & Hwrite & Hvbo & Hibo & _).
  simpl in Hsize, Hwrite.
  destruct (wellFormed_packable s ms1 _ _ Hwf Htr Hsize) as (Hpk & Hv).
  exists ms1. split; [assumption|]. split; [assumption|].
  split; [assumption|].
  destruct (writeLoop_packs ms1 Hpk
              (Buffer.allocate (Buffer.new ARRAY_BUFFER Float32Array)
                 (Model.vboSize locals))
              (Buffer.allocate (Buffer.new ELEMENT_ARRAY_BUFFER Uint16Array)
                 (Model.iboSize locals)) 0)
    as (ms' & vbo' & ibo' & Hrun & Hpl & _ & Hl & Ha & _
        & (calls & Hc & Hsum & Hall) & Hst).
  rewrite Hrun in Hwrite. inversion Hwrite; subst ms' vbo' ibo'; clear Hwrite.
  rewrite Hvbo. simpl in *.
  split; [lia|]. split; [assumption|]. split.
  { rewrite (Hst [] (repeat (zero Float32Array) (Model.vboSize locals)))
      by (try reflexivity; rewrite repeat_length; lia).
    rewrite <- Hv, skipn_all2 by (rewrite repeat_length; lia).
    simpl. apply app_nil_r. }
  split.
  { unfold Buffer.written. rewrite Hc, app_nil_r. lia. }
  split.
  { rewrite Hc, app_nil_r. eapply Forall_impl; [|exact Hall].
    unfold inCapacity. intros c Hcc. lia. }
  exact Hpl.
Qed.

Lemma slice_map_middle {A E : Type} (f : A -> E) (l pre mid post : list A)
  (off n : nat) :
  l = pre ++ mid ++ post ->
  off = List.length pre -> n = List.length mid ->
  slice (map f l) off (off + n) = map f mid.
Proof.
  intros -> -> ->. rewrite !map_app.
  rewrite <- (length_map f pre), <- (length_map f mid).
  apply slice_app_middle.
Qed.

Lemma packed_length (ms : list Mesh) :
  Forall (fun m => exists n, packable m n) ms ->
  List.length (packed ms) = list_sum (map meshSize ms).
Proof.
  induction 1 as [|m ms [n Hm] _ IH]; [reflexivity|].
  unfold packed in *. cbn [flat_map map list_sum fold_right].
  change (fold_right Nat.add 0) with list_sum.
  rewrite length_app, IH, (packedMesh_length m n Hm). reflexivity.
Qed.

Lemma packed_split (ms : list Mesh) (i : nat) (m : Mesh) :
  nth_error ms i = Some m ->
  packed ms = packed (firstn i ms) ++ packedMesh m ++ packed (skipn (S i) ms).
Proof.
  revert i. induction ms as [|a ms IH]; intros [|i] H; try discriminate.
  - simpl in H. inversion H; subst. reflexivity.
  - simpl in H. unfold packed in *. cbn [firstn skipn flat_map].
    rewrite (IH i H), <- app_assoc. reflexivity.
Qed.

Lemma flat_map_seq_split {A : Type} (f : nat -> list A) (n k : nat) :
  k < n ->
  flat_map f (seq 0 n)
    = flat_map f (seq 0 k) ++ f k ++ flat_map f (seq (S k) (n - S k)).
Proof.
  intros Hk. replace n with (k + S (n - S k)) at 1 by lia.
  rewrite seq_app, flat_map_app. reflexivity.
Qed.

Lemma vertexRecords_length (m : Mesh) (n : nat) :
  packable m n ->
  forall k, k <= n ->
    List.length (flat_map (vertexRecord m) (seq 0 k))
      = (6 + (if truthy (hasTexture m) then 2 else 0)) * k.
Proof.
  intros (positions & normals & Hp & Hn & Hlp & Hln & Hst & Htx).
  induction k as [|k IH]; intros Hk; [simpl; lia|].
  rewrite seq_S, flat_map_app, length_app, IH by lia.
  cbn [flat_map Nat.add]. rewrite app_nil_r.
  rewrite (vertexRecord_length m n positions normals Hp Hn Hlp Hln Htx) by lia.
  lia.
Qed.

(** C1, amended.  For a well-formed scene whose position arrays are whole
    triples, the write pass of [_initBuffers] hands the vertex buffer
    exactly [stride * (len(vertexPositions) / 3)] elements for each mesh,
    these counts add up to the vertex-buffer size of the size pass, the
    final write cursor equals that size, and every write starts before and
    ends within the allocated capacity. *)
Theorem initBuffers_counts_exact {F32 : Type}
  (Float32Array : TypedArray R F32) (s : Scene) (this' : Model.t F32)
  (locals : Model.Locals) :
  wellFormed s -> wholeTriples s ->
  Model._initBuffers (Model.new Float32Array s) = Normal (this', locals) ->
  exists ms1,
    Model.sizeLoop (materials s) (meshes s) 0 0
      = Normal (ms1, Model.vboSize locals, Model.iboSize locals) /\
    List.length ms1 = List.length (meshes s) /\
    Forall (fun m1 =>
              forall (vbo : Buffer.t R F32) (ibo : Buffer.t Z Z) (w : nat),
              exists m' vbo' ibo',
                Model.writeBody m1 vbo ibo w
                  = Normal (m', vbo', ibo', w + meshSize m1) /\
                Buffer.written vbo' = Buffer.written vbo + meshSize m1) ms1 /\
    list_sum (map meshSize ms1) = Model.vboSize locals /\
    Buffer.written (Model.vbo this') = Model.vboSize locals /\
    Model.writeIdx locals = Model.vboSize locals /\
    Buffer.length (Model.vbo this') = Model.vboSize locals /\
    List.length (store (Buffer.rawBuffer (Model.vbo this')))
      = Model.vboSize locals /\
    Forall (inCapacity (Buffer.length (Model.vbo this')))
      (subData (Buffer.rawBuffer (Model.vbo this'))).
Proof.
  intros Hwf Htr H.
  destruct (initBuffers_packs Float32Array s this' locals Hwf Htr H)
    as (ms1 & Hsize & Hpk & Hv & Hw & Hl & Hst & Hwr & Hcap & _).
  assert (Hlen : List.length (store (Buffer.rawBuffer (Model.vbo this')))
                 = Model.vboSize locals).
  { rewrite Hst, length_map, (packed_length ms1 Hpk). symmetry. exact Hv. }
  exists ms1. split; [assumption|]. split.
  { apply sizeLoop_spec in Hsize. apply Hsize. }
  split.
  { eapply Forall_impl; [|exact Hpk]. simpl. intros m1 [n Hm] vbo ibo w.
    destruct (writeBody_packs m1 n vbo ibo w Hm)
      as (m' & vbo' & ibo' & Hrun & _ & _ & _ & _
          & (calls & Hc & Hsum & _) & _).
    exists m', vbo', ibo'. split; [assumption|].
    unfold Buffer.written. rewrite Hc, map_app, list_sum_app. lia. }
  rewrite Hl. repeat (split; [auto|]). assumption.
Qed.

Lemma Forall_prefix {A : Type} (P : A -> Prop) (l : list A) :
  Forall P l -> forall n, Forall P (firstn n l).
Proof.
  induction 1 as [|a l Ha _ IH]; intros [|n]; simpl; constructor; auto.
Qed.

(** C3, amended.  For a well-formed scene whose position arrays are whole
    triples, every mesh and every vertex index [k] of it: the vertex buffer
    read back at [positionsOffset + k * stride] (3 elements), at
    [normalsOffset + k * stride] (3 elements) and, when [hasTexture], at
    [texCoordsOffset + k * stride] (2 elements) holds the mesh's [k]-th
    position triple, normal triple and texcoord pair as the typed array
    stores them; the record of a vertex is positions, then normals, then
    (if textured) texcoords. *)
Theorem initBuffers_round_trip {F32 : Type}
  (Float32Array : TypedArray R F32) (s : Scene) (this' : Model.t F32)
  (locals : Model.Locals) :
  wellFormed s -> wholeTriples s ->
  Model._initBuffers (Model.new Float32Array s) = Normal (this', locals) ->
  forall i m', nth_error (meshes (Model.json this')) i = Some m' ->
  forall k, k < vertexCount m' ->
    exists m po st,
      nth_error (meshes s) i = Some m /\ sameData m m' /\
      positionsOffset m' = Some po /\
      normalsOffset m' = Some (3 + po) /\
      stride m' = Some st /\
      List.length (positionOf m k) = 3 /\
      List.length (normalOf m k) = 3 /\
      readBack (Model.vbo this') (po + k * st) 3
        = map (element Float32Array) (positionOf m k) /\
      readBack (Model.vbo this') (3 + po + k * st) 3
        = map (element Float32Array) (normalOf m k) /\
      (truthy (hasTexture m') = true ->
       texCoordsOffset m' = Some (6 + po) /\
       List.length (texCoordOf m k) = 2 /\
       readBack (Model.vbo this') (6 + po + k * st) 2
         = map (element Float32Array) (texCoordOf m k)) /\
      readBack (Model.vbo this') (po + k * st) st
        = map (element Float32Array)
            (positionOf m k ++ normalOf m k
               ++ (if truthy (hasTexture m') then texCoordOf m k else [])).
Proof.
  intros Hwf Htr H i m' Hi k Hk.
  destruct (initBuffers_packs Float32Array s this' locals Hwf Htr H)
    as (ms1 & Hsize & Hpk & Hv & Hw & Hl & Hstore & _ & _ & Hnth).
  destruct (Hnth i m' Hi) as (m1 & Hm1 & Hd1 & Hl1 & Hpo & Hno & Hto).
  apply sizeLoop_spec in Hsize. destruct Hsize as (_ & _ & _ & Hnth0).
  destruct (Hnth0 i m1 Hm1) as (m & Hm & (Hd0 & _) & _).
  assert (Hpk1 : exists n, packable m1 n).
  { rewrite Forall_forall in Hpk. apply Hpk. eapply nth_error_In; eauto. }
  destruct Hpk1 as (n & Hpk1).
  destruct (packable_meshSize m1 n Hpk1) as (Hvc & Hms).
  assert (Hpk1' := Hpk1).
  destruct Hpk1' as (positions & normals & Hp & Hn & Hlp & Hln & Hst & Htx).
  destruct Hd0 as (a1 & a2 & a3 & a4 & a5).
  destruct Hd1 as (b1 & b2 & b3 & b4 & b5).
  destruct Hl1 as (c1 & c2 & _).
  assert (Hkn : k < n).
  { unfold vertexCount in Hk, Hvc. rewrite b1 in Hk. lia. }
  set (st := 6 + (if truthy (hasTexture m1) then 2 else 0)) in *.
  set (po := list_sum (map meshSize (firstn i ms1))) in *.
  assert (Hpos : positionOf m k = positionOf m1 k)
    by (unfold positionOf; rewrite a1; reflexivity).
  assert (Hnor : normalOf m k = normalOf m1 k)
    by (unfold normalOf; rewrite a2; reflexivity).
  assert (Htc : texCoordOf m k = texCoordOf m1 k)
    by (unfold texCoordOf, texChannel0; rewrite a3; reflexivity).
  assert (Hlpos : List.length (positionOf m1 k) = 3).
  { unfold positionOf. rewrite Hp. apply slice_length. lia. }
  assert (Hlnor : List.length (normalOf m1 k) = 3).
  { unfold normalOf. rewrite Hn. apply slice_length. lia. }
  assert (Hltc : truthy (hasTexture m1) = true ->
                 List.length (texCoordOf m1 k) = 2).
  { intros Ht. destruct (Htx Ht) as (tex & Htc0 & Hlt).
    unfold texCoordOf. rewrite Htc0. apply slice_length. lia. }
  assert (Hsplit :
    packed ms1
    = (packed (firstn i ms1) ++ flat_map (vertexRecord m1) (seq 0 k))
        ++ vertexRecord m1 k
        ++ (flat_map (vertexRecord m1) (seq (S k) (n - S k))
              ++ packed (skipn (S i) ms1))).
  { rewrite (packed_split ms1 i m1 Hm1). unfold packedMesh. rewrite Hvc.
    rewrite (flat_map_seq_split (vertexRecord m1) n k Hkn).
    rewrite <- !app_assoc. reflexivity. }
  assert (Hpre :
    List.length (packed (firstn i ms1)
                   ++ flat_map (vertexRecord m1) (seq 0 k)) = po + k * st).
  { rewrite length_app, packed_length by (apply Forall_prefix; assumption).
    rewrite (vertexRecords_length m1 n Hpk1 k) by lia. fold st po. lia. }
  exists m, po, st. rewrite c1, c2, Hpos, Hnor, Htc.
  split; [assumption|]. split; [repeat split; congruence|].
  split; [assumption|]. split; [assumption|]. split; [assumption|].
  split; [assumption|]. split; [assumption|].
  unfold readBack. rewrite Hstore.
  assert (Hrec : vertexRecord m1 k
                 = positionOf m1 k ++ normalOf m1 k
                     ++ (if truthy (hasTexture m1)
                         then texCoordOf m1 k else [])) by reflexivity.
  split; [|split; [|split]].
  - apply slice_map_middle
      with (pre := packed (firstn i ms1)
                     ++ flat_map (vertexRecord m1) (seq 0 k))
           (post := (normalOf m1 k
                       ++ (if truthy (hasTexture m1)
                           then texCoordOf m1 k else []))
                      ++ flat_map (vertexRecord m1) (seq (S k) (n - S k))
                      ++ packed (skipn (S i) ms1)); auto.
    rewrite Hsplit, Hrec, <- !app_assoc. reflexivity.
  - apply slice_map_middle
      with (pre := (packed (firstn i ms1)
                      ++ flat_map (vertexRecord m1) (seq 0 k))
                     ++ positionOf m1 k)
           (post := (if truthy (hasTexture m1)
                     then texCoordOf m1 k else [])
                      ++ flat_map (vertexRecord m1) (seq (S k) (n - S k))
                      ++ packed (skipn (S i) ms1)); auto.
    + rewrite Hsplit, Hrec, <- !app_assoc. reflexivity.
    + rewrite length_app, Hpre, Hlpos. lia.
  - intros Ht. split; [auto|]. split; [auto|].
    apply slice_map_middle
      with (pre := ((packed (firstn i ms1)
                       ++ flat_map (vertexRecord m1) (seq 0 k))
                      ++ positionOf m1 k) ++ normalOf m1 k)
           (post := flat_map (vertexRecord m1) (seq (S k) (n - S k))
                      ++ packed (skipn (S i) ms1)).
    + rewrite Hsplit, Hrec, Ht, <- !app_assoc. reflexivity.
    + rewrite length_app, length_app, Hpre, Hlpos, Hlnor. lia.
    + symmetry. auto.
  - rewrite <- Hrec.
    apply slice_map_middle
      with (pre := packed (firstn i ms1)
                     ++ flat_map (vertexRecord m1) (seq 0 k))
           (post := flat_map (vertexRecord m1) (seq (S k) (n - S k))
                      ++ packed (skipn (S i) ms1)); auto.
    symmetry.
    apply (vertexRecord_length m1 n positions normals Hp Hn Hlp Hln Htx).
    assumption.
Qed.

(** ** Matrices *)

Ltac mat_unfold :=
  cbv [mat4.mul mat4.determinant mat4.identity mat4.transpose mat4.create
       mat4.scaling mat4.translation
       mat4.m00 mat4.m01 mat4.m02 mat4.m03 mat4.m10 mat4.m11 mat4.m12 mat4.m13
       mat4.m20 mat4.m21 mat4.m22 mat4.m23 mat4.m30 mat4.m31 mat4.m32 mat4.m33].

Ltac mat_unfold_in H :=
  cbv [mat4.mul mat4.determinant mat4.identity mat4.transpose mat4.create
       mat4.scaling mat4.translation
       mat4.m00 mat4.m01 mat4.m02 mat4.m03 mat4.m10 mat4.m11 mat4.m12 mat4.m13
       mat4.m20 mat4.m21 mat4.m22 mat4.m23 mat4.m30 mat4.m31 mat4.m32 mat4.m33]
    in H.

Lemma mat4_eq (a b : mat4.t) :
  mat4.m00 a = mat4.m00 b -> mat4.m01 a = mat4.m01 b ->
  mat4.m02 a = mat4.m02 b -> mat4.m03 a = mat4.m03 b ->
  mat4.m10 a = mat4.m10 b -> mat4.m11 a = mat4.m11 b ->
  mat4.m12 a = mat4.m12 b -> mat4.m13 a = mat4.m13 b ->
  mat4.m20 a = mat4.m20 b -> mat4.m21 a = mat4.m21 b ->
  mat4.m22 a = mat4.m22 b -> mat4.m23 a = mat4.m23 b ->
  mat4.m30 a = mat4.m30 b -> mat4.m31 a = mat4.m31 b ->
  mat4.m32 a = mat4.m32 b -> mat4.m33 a = mat4.m33 b ->
  a = b.
Proof.
  destruct a, b. simpl. intros. subst. reflexivity.
Qed.

Lemma mat4_mul_assoc (a b c : mat4.t) :
  mat4.mul (mat4.mul a b) c = mat4.mul a (mat4.mul b c).
Proof.
  destruct a, b, c. apply mat4_eq; mat_unfold; ring.
Qed.

Lemma mat4_mul_identity_l (a : mat4.t) : mat4.mul mat4.identity a = a.
Proof.
  destruct a. apply mat4_eq; mat_unfold; ring.
Qed.

Lemma mat4_mul_identity_r (a : mat4.t) : mat4.mul a mat4.identity = a.
Proof.
  destruct a. apply mat4_eq; mat_unfold; ring.
Qed.

Lemma mat4_determinant_mul (a b : mat4.t) :
  mat4.determinant (mat4.mul a b)
    = (mat4.determinant a * mat4.determinant b)%R.
Proof.
  destruct a, b. mat_unfold. ring.
Qed.

Lemma mat4_determinant_identity : mat4.determinant mat4.identity = 1%R.
Proof.
  mat_unfold. ring.
Qed.

(** On a matrix with a non-zero determinant [mat4.inverse] returns, whatever
    the library does with singular matrices, and what it writes is a
    two-sided inverse. *)
Lemma mat4_inverse_returns (degenerate : mat4.Degenerate)
  (m : mat4.t) (dest : mat4.Contents) :
  mat4.determinant m <> 0%R ->
  exists inv,
    mat4.inverse degenerate m dest = Normal (mat4.Numbers inv) /\
    mat4.mul m inv = mat4.identity /\
    mat4.mul inv m = mat4.identity.
Proof.
  intros Hd. unfold mat4.inverse.
  destruct (Req_dec_T (mat4.determinant m) 0%R) as [H0|_]; [contradiction|].
  eexists. split; [reflexivity|].
  destruct m. mat_unfold_in Hd.
  split; apply mat4_eq; mat_unfold; field; exact Hd.
Qed.

Lemma mat4_inverse_singular (degenerate : mat4.Degenerate)
  (m : mat4.t) (dest : mat4.Contents) :
  mat4.determinant m = 0%R ->
  mat4.inverse degenerate m dest = degenerate m dest.
Proof.
  intros Hd. unfold mat4.inverse.
  destruct (Req_dec_T (mat4.determinant m) 0%R) as [_|H]; [reflexivity|].
  contradiction.
Qed.

Lemma invertible_determinant (m : mat4.t) :
  invertible m <-> mat4.determinant m <> 0%R.
Proof.
  split.
  - intros (inv & Hr & _) Hz.
    assert (H := mat4_determinant_mul m inv).
    rewrite Hr, mat4_determinant_identity, Hz in H. lra.
  - intros Hd.
    destruct (mat4_inverse_returns (fun _ d => Normal d) m
                (mat4.Numbers mat4.create) Hd)
      as (inv & _ & Hr & Hl).
    exists inv. split; assumption.
Qed.

(** A right inverse is the inverse [mat4.inverse] writes. *)
Lemma mat4_inverse_unique (degenerate : mat4.Degenerate)
  (m inv : mat4.t) (dest : mat4.Contents) :
  mat4.mul m inv = mat4.identity ->
  mat4.inverse degenerate m dest = Normal (mat4.Numbers inv).
Proof.
  intros Hr.
  assert (Hd : mat4.determinant m <> 0%R).
  { intros Hz. assert (H := mat4_determinant_mul m inv).
    rewrite Hr, mat4_determinant_identity, Hz in H. lra. }
  destruct (mat4_inverse_returns degenerate m dest Hd)
    as (inv' & Hrun & _ & Hl).
  rewrite Hrun. do 2 f_equal.
  rewrite <- (mat4_mul_identity_r inv'), <- Hr.
  rewrite <- mat4_mul_assoc, Hl.
  apply mat4_mul_identity_l.
Qed.

(** ** _initNormalMatrices *)

Lemma mat4_transpose_create : mat4.transpose mat4.create = mat4.create.
Proof. reflexivity. Qed.

(** What a completed loop body attached, in terms of what [mat4.inverse]
    left in the destination. *)
Lemma normalMatrixBody_fields (degenerate : mat4.Degenerate)
  (node node' : Node) :
  Model.normalMatrixBody degenerate node = Normal node' ->
  modelMatrix node' = modelMatrix node /\
  meshIndices node' = meshIndices node /\
  exists mat left,
    modelMatrix node = Some mat /\
    mat4.inverse degenerate mat (mat4.Numbers mat4.create) = Normal left /\
    normalMatrix node' = Some (mat4.transposeContents left).
Proof.
  unfold Model.normalMatrixBody. cbn [modelMatrix Model.set_normalMatrix].
  destruct (modelMatrix node) as [mat|] eqn:Hm; [|discriminate].
  destruct (mat4.inverse degenerate mat (mat4.Numbers mat4.create)) as [left|e dest] eqn:Hi;
    [|discriminate].
  intros H. inversion H; subst; clear H. cbn. rewrite Hm.
  split; [reflexivity|]. split; [reflexivity|].
  exists mat, left. auto.
Qed.

Lemma normalMatrixBody_invertible (degenerate : mat4.Degenerate)
  (node : Node) (mat inv : mat4.t) :
  modelMatrix node = Some mat ->
  mat4.mul mat inv = mat4.identity ->
  exists node',
    Model.normalMatrixBody degenerate node = Normal node' /\
    normalMatrix node' = Some (mat4.Numbers (mat4.transpose inv)).
Proof.
  intros Hm Hr. unfold Model.normalMatrixBody.
  cbn [modelMatrix Model.set_normalMatrix]. rewrite Hm.
  rewrite (mat4_inverse_unique degenerate mat inv
             (mat4.Numbers mat4.create) Hr).
  eexists. split; reflexivity.
Qed.

(** The loop body throws exactly at a node without [modelMatrix] and at a
    singular [modelMatrix] on which the library throws. *)
Lemma normalMatrixBody_throws_iff (degenerate : mat4.Degenerate)
  (node : Node) :
  (exists e s, Model.normalMatrixBody degenerate node = Throw e s)
  <-> uninvertible degenerate node.
Proof.
  unfold Model.normalMatrixBody, uninvertible.
  cbn [modelMatrix Model.set_normalMatrix].
  destruct (modelMatrix node) as [mat|].
  - destruct (Req_dec_T (mat4.determinant mat) 0%R) as [Hz|Hnz].
    + rewrite (mat4_inverse_singular degenerate mat (mat4.Numbers mat4.create) Hz).
      destruct (degenerate mat (mat4.Numbers mat4.create)) as [left|e dest].
      * split; [intros (e & s & H); discriminate|].
        intros (_ & e & dest & H). discriminate.
      * split; [|intros _; eexists; eexists; reflexivity].
        intros _. split; [exact Hz|]. eexists. eexists. reflexivity.
    + destruct (mat4_inverse_returns degenerate mat (mat4.Numbers mat4.create) Hnz)
        as (inv & Hrun & _). rewrite Hrun.
      split; [intros (e & s & H); discriminate|].
      intros (Hz & _). contradiction.
  - split; [intros _; exact I|intros _; eexists; eexists; reflexivity].
Qed.

Lemma normalMatrixLoop_nth (degenerate : mat4.Degenerate)
  (nds : list Node) :
  forall nds',
  Model.normalMatrixLoop degenerate nds = Normal nds' ->
  List.length nds' = List.length nds /\
  forall i node, nth_error nds i = Some node ->
    exists node',
      nth_error nds' i = Some node' /\
      Model.normalMatrixBody degenerate node = Normal node'.
Proof.
  induction nds as [|node nds IH]; intros nds' H.
  - simpl in H. inversion H; subst. split; [reflexivity|].
    intros [|i] n Hn; discriminate.
  - cbn [Model.normalMatrixLoop] in H.
    destruct (Model.normalMatrixBody degenerate node) as [node1|] eqn:Hb;
      [|discriminate].
    destruct (Model.normalMatrixLoop degenerate nds) as [nds1|] eqn:Hl;
      [|discriminate].
    inversion H; subst; clear H.
    destruct (IH nds1 eq_refl) as (Hlen & Hnth).
    split; [simpl; congruence|].
    intros [|i] n Hn; simpl in Hn.
    + inversion Hn; subst. exists node1. split; [reflexivity|exact Hb].
    + apply Hnth. exact Hn.
Qed.

Lemma normalMatrixLoop_throws_iff (degenerate : mat4.Degenerate)
  (nds : list Node) :
  (exists e s, Model.normalMatrixLoop degenerate nds = Throw e s)
  <-> Exists (uninvertible degenerate) nds.
Proof.
  induction nds as [|node nds IH].
  - simpl. split; [intros (e & s & H); discriminate|intros H; inversion H].
  - cbn [Model.normalMatrixLoop].
    pose proof (normalMatrixBody_throws_iff degenerate node) as Hb.
    destruct (Model.normalMatrixBody degenerate node) as [node1|e1 s1].
    + assert (Hok : ~ uninvertible degenerate node).
      { intros Hbad. apply Hb in Hbad. destruct Hbad as (e & s & H).
        discriminate. }
      destruct (Model.normalMatrixLoop degenerate nds) as [nds1|e2 s2].
      * split; [intros (e & s & H); discriminate|].
        intros H. inversion H as [? ? Hh|? ? Ht]; subst; [contradiction|].
        apply IH in Ht. destruct Ht as (e & s & Ht). discriminate.
      * split; [|intros _; eexists; eexists; reflexivity].
        intros _. apply Exists_cons_tl. apply IH.
        eexists. eexists. reflexivity.
    + split; [|intros _; eexists; eexists; reflexivity].
      intros _. apply Exists_cons_hd. apply Hb.
      eexists. eexists. reflexivity.
Qed.

Lemma initNormalMatrices_loop {F32 : Type} (degenerate : mat4.Degenerate)
  (this this' : Model.t F32) :
  Model._initNormalMatrices degenerate this = Normal this' ->
  exists nds',
    Model.normalMatrixLoop degenerate (nodes (Model.json this))
      = Normal nds' /\
    this' = Model.with_nodes this nds'.
Proof.
  unfold Model._initNormalMatrices.
  destruct (Model.normalMatrixLoop degenerate (nodes (Model.json this)))
    as [nds'|]; [|discriminate].
  intros H. inversion H. exists nds'. split; reflexivity.
Qed.

Lemma initNormalMatrices_throws_when {F32 : Type}
  (degenerate : mat4.Degenerate) (this : Model.t F32) :
  (exists e s, Model._initNormalMatrices degenerate this = Throw e s)
  <-> Exists (uninvertible degenerate) (nodes (Model.json this)).
Proof.
  rewrite <- normalMatrixLoop_throws_iff. unfold Model._initNormalMatrices.
  destruct (Model.normalMatrixLoop degenerate (nodes (Model.json this)))
    as [nds'|e s].
  - split; intros (e & s & H); discriminate.
  - split; intros _; eexists; eexists; reflexivity.
Qed.

Lemma initNormalMatrices_returns_or_throws {F32 : Type}
  (degenerate : mat4.Degenerate) (this : Model.t F32) :
  (exists this', Model._initNormalMatrices degenerate this = Normal this') \/
  (exists e s, Model._initNormalMatrices degenerate this = Throw e s).
Proof.
  destruct (Model._initNormalMatrices degenerate this) as [this'|e s];
    [left; eexists; reflexivity|right; eexists; eexists; reflexivity].
Qed.

Lemma mat4_scaling_inverse (s : R) :
  s <> 0%R ->
  mat4.mul (mat4.scaling s) (mat4.scaling (1 / s)%R) = mat4.identity.
Proof.
  intros Hs. apply mat4_eq; mat_unfold; field; exact Hs.
Qed.

(** C5.  [_initNormalMatrices] returns when every node has an invertible
    [modelMatrix], and after it every node with an invertible
    [modelMatrix] has as [normalMatrix] the transpose of the inverse of its
    [modelMatrix]; an identity [modelMatrix] gives the identity and a
    uniform scale by [s] gives the uniform scale by [1 / s].  This holds
    whatever the matrix library does with singular matrices. *)
Theorem initNormalMatrices_inverse_transpose {F32 : Type}
  (degenerate : mat4.Degenerate) (this : Model.t F32) :
  (Forall (fun node => exists mat,
             modelMatrix node = Some mat /\ invertible mat)
          (nodes (Model.json this)) ->
   exists this', Model._initNormalMatrices degenerate this = Normal this') /\
  forall this',
    Model._initNormalMatrices degenerate this = Normal this' ->
    List.length (nodes (Model.json this'))
      = List.length (nodes (Model.json this)) /\
    forall i node, nth_error (nodes (Model.json this)) i = Some node ->
      exists node',
        nth_error (nodes (Model.json this')) i = Some node' /\
        modelMatrix node' = modelMatrix node /\
        meshIndices node' = meshIndices node /\
        forall mat, modelMatrix node = Some mat ->
          (invertible mat ->
           exists inv,
             mat4.mul mat inv = mat4.identity /\
             mat4.mul inv mat = mat4.identity /\
             normalMatrix node' = Some (mat4.Numbers (mat4.transpose inv))) /\
          (forall inv,
             mat4.mul mat inv = mat4.identity ->
             mat4.mul inv mat = mat4.identity ->
             normalMatrix node' = Some (mat4.Numbers (mat4.transpose inv))) /\
          (mat = mat4.identity ->
           normalMatrix node' = Some (mat4.Numbers mat4.identity)) /\
          (forall s, s <> 0%R -> mat = mat4.scaling s ->
                     normalMatrix node' = Some (mat4.Numbers (mat4.scaling (1 / s)%R))).
Proof.
  split.
  - intros Hall.
    destruct (initNormalMatrices_returns_or_throws degenerate this)
      as [Hret|Hthrow]; [exact Hret|exfalso].
    apply initNormalMatrices_throws_when in Hthrow.
    rewrite Exists_exists in Hthrow. destruct Hthrow as (node & Hin & Hbad).
    rewrite Forall_forall in Hall.
    destruct (Hall node Hin) as (mat & Hm & Hinv).
    unfold uninvertible in Hbad. rewrite Hm in Hbad.
    destruct Hbad as (Hz & _).
    apply invertible_determinant in Hinv. contradiction.
  - intros this' Hrun.
    destruct (initNormalMatrices_loop degenerate this this' Hrun)
      as (nds' & Hloop & ->).
    destruct (normalMatrixLoop_nth degenerate _ _ Hloop) as (Hlen & Hnth).
    cbn [Model.json Model.with_nodes nodes].
    split; [exact Hlen|].
    intros i node Hi.
    destruct (Hnth i node Hi) as (node' & Hi' & Hbody).
    exists node'. split; [exact Hi'|].
    destruct (normalMatrixBody_fields degenerate node node' Hbody)
      as (Hmm & Hmi & _).
    split; [exact Hmm|]. split; [exact Hmi|].
    intros mat Hm.
    assert (Hkey : forall inv, mat4.mul mat inv = mat4.identity ->
                     normalMatrix node' = Some (mat4.Numbers (mat4.transpose inv))).
    { intros inv Hr.
      destruct (normalMatrixBody_invertible degenerate node mat inv Hm Hr)
        as (node'' & Hb' & Hn'').
      rewrite Hbody in Hb'. inversion Hb'; subst. exact Hn''. }
    split; [|split; [|split]].
    + intros (inv & Hr & Hl). exists inv. auto.
    + intros inv Hr _. apply Hkey. exact Hr.
    + intros ->. apply (Hkey mat4.identity). apply mat4_mul_identity_l.
    + intros s Hs ->.
      rewrite (Hkey (mat4.scaling (1 / s)%R));
        [reflexivity|apply mat4_scaling_inverse; exact Hs].
Qed.

(** C9, amended.  [_initNormalMatrices] makes no check of its own on a
    singular [modelMatrix]: an error reaches the caller exactly when some
    node has no [modelMatrix] or [mat4.inverse] itself throws on a node's
    singular [modelMatrix]; and when [_initNormalMatrices] returns, a node
    with a singular [modelMatrix] has as [normalMatrix] the transpose of
    whatever [mat4.inverse] left in the fresh destination matrix. *)
Theorem initNormalMatrices_singular_silent {F32 : Type}
  (degenerate : mat4.Degenerate) (this : Model.t F32) :
  ((exists e s, Model._initNormalMatrices degenerate this = Throw e s)
   <-> Exists (uninvertible degenerate) (nodes (Model.json this))) /\
  forall this',
    Model._initNormalMatrices degenerate this = Normal this' ->
    forall i node mat,
      nth_error (nodes (Model.json this)) i = Some node ->
      modelMatrix node = Some mat ->
      ~ invertible mat ->
      exists left node',
        degenerate mat (mat4.Numbers mat4.create) = Normal left /\
        nth_error (nodes (Model.json this')) i = Some node' /\
        normalMatrix node' = Some (mat4.transposeContents left).
Proof.
  split; [apply initNormalMatrices_throws_when|].
  intros this' Hrun i node mat Hi Hm Hs.
  destruct (initNormalMatrices_loop degenerate this this' Hrun)
    as (nds' & Hloop & ->).
  destruct (normalMatrixLoop_nth degenerate _ _ Hloop) as (_ & Hnth).
  destruct (Hnth i node Hi) as (node' & Hi' & Hbody).
  destruct (normalMatrixBody_fields degenerate node node' Hbody)
    as (_ & _ & mat' & left & Hm' & Hinv & Hn).
  rewrite Hm in Hm'. inversion Hm'; subst mat'.
  assert (Hz : mat4.determinant mat = 0%R).
  { destruct (Req_dec_T (mat4.determinant mat) 0%R) as [Hz|Hnz];
      [exact Hz|].
    exfalso. apply Hs. apply invertible_determinant. exact Hnz. }
  rewrite (mat4_inverse_singular degenerate mat (mat4.Numbers mat4.create) Hz) in Hinv.
  exists left, node'. auto.
Qed.

Lemma flattening_singular : ~ invertible flattening.
Proof.
  intros H. apply invertible_determinant in H. apply H.
  unfold flattening. mat_unfold. ring.
Qed.

(** C9 as stated fails: for the flattening node, under every matrix
    library whose inversion returns on that matrix, the computation
    returns normally and stores the transpose of what the inversion left.
    Under a library that divides by the zero determinant the stored
    [normalMatrix] has [NaN] or infinite elements; under one that leaves
    the destination as it was it is the zero matrix. *)
Lemma initNormalMatrices_flattening_no_error :
  ~ invertible flattening /\
  nth_error (nodes flattenedScene) 0 = Some (parsedNode flattening [0]) /\
  (forall degenerate left,
     degenerate flattening (mat4.Numbers mat4.create) = Normal left ->
     exists this' node',
       Model._initNormalMatrices degenerate
         (Model.new exactArray flattenedScene) = Normal this' /\
       nth_error (nodes (Model.json this')) 0 = Some node' /\
       normalMatrix node' = Some (mat4.transposeContents left)) /\
  (exists this' node',
     Model._initNormalMatrices dividesByZero
       (Model.new exactArray flattenedScene) = Normal this' /\
     nth_error (nodes (Model.json this')) 0 = Some node' /\
     normalMatrix node' = Some mat4.NonFinite) /\
  (exists this' node',
     Model._initNormalMatrices leavesDestination
       (Model.new exactArray flattenedScene) = Normal this' /\
     nth_error (nodes (Model.json this')) 0 = Some node' /\
     normalMatrix node' = Some (mat4.Numbers mat4.create)).
Proof.
  split; [exact flattening_singular|]. split; [reflexivity|].
  assert (Hz : mat4.determinant flattening = 0%R)
    by (unfold flattening; mat_unfold; ring).
  assert (Hgen : forall degenerate left,
     degenerate flattening (mat4.Numbers mat4.create) = Normal left ->
     exists this' node',
       Model._initNormalMatrices degenerate
         (Model.new exactArray flattenedScene) = Normal this' /\
       nth_error (nodes (Model.json this')) 0 = Some node' /\
       normalMatrix node' = Some (mat4.transposeContents left)).
  { intros degenerate left Hleft.
    unfold Model._initNormalMatrices.
    cbn [Model.json Model.new nodes flattenedScene Model.normalMatrixLoop].
    unfold Model.normalMatrixBody.
    cbn [modelMatrix parsedNode Model.set_normalMatrix].
    rewrite (mat4_inverse_singular degenerate flattening
               (mat4.Numbers mat4.create) Hz).
    rewrite Hleft. eexists. eexists. split; [reflexivity|].
    split; reflexivity. }
  split; [exact Hgen|]. split.
  - exact (Hgen dividesByZero mat4.NonFinite eq_refl).
  - exact (Hgen leavesDestination (mat4.Numbers mat4.create) eq_refl).
Qed.

(** C9, amended, at the flattening node under a library that divides by
    the zero determinant: no error, and a [normalMatrix] with [NaN] or
    infinite elements. *)
Lemma initNormalMatrices_singular_silent_witness :
  exists this' node',
    Model._initNormalMatrices dividesByZero
      (Model.new exactArray flattenedScene) = Normal this' /\
    nth_error (nodes (Model.json this')) 0 = Some node' /\
    normalMatrix node' = Some mat4.NonFinite.
Proof.
  destruct (initNormalMatrices_returns_or_throws dividesByZero
              (Model.new exactArray flattenedScene)) as [(this' & Hrun)|Hth].
  - destruct (proj2 (initNormalMatrices_singular_silent dividesByZero
                       (Model.new exactArray flattenedScene))
                this' Hrun 0 (parsedNode flattening [0]) flattening
                eq_refl eq_refl flattening_singular)
      as (left & node' & Hleft & Hnth & Hnm).
    exists this', node'. split; [exact Hrun|]. split; [exact Hnth|].
    injection Hleft as <-. exact Hnm.
  - exfalso.
    apply (proj1 (initNormalMatrices_singular_silent dividesByZero
                    (Model.new exactArray flattenedScene))) in Hth.
    inversion Hth as [? ? Hh|? ? Ht]; subst; [|inversion Ht].
    destruct Hh as (_ & e & dest & Hd). discriminate.
Defined.

(** C5 at an identity node and a node scaling by 2, under a library that
    throws on singular matrices. *)
Lemma initNormalMatrices_inverse_transpose_witness :
  Forall (fun node => exists mat,
            modelMatrix node = Some mat /\ invertible mat)
         (nodes scaledScene) /\
  exists this' node0 node1,
    Model._initNormalMatrices throwsOnSingular
      (Model.new exactArray scaledScene) = Normal this' /\
    nth_error (nodes (Model.json this')) 0 = Some node0 /\
    normalMatrix node0 = Some (mat4.Numbers mat4.identity) /\
    nth_error (nodes (Model.json this')) 1 = Some node1 /\
    normalMatrix node1 = Some (mat4.Numbers (mat4.scaling (1 / 2)%R)).
Proof.
  assert (Hall : Forall (fun node => exists mat,
                           modelMatrix node = Some mat /\ invertible mat)
                        (nodes scaledScene)).
  { repeat constructor.
    - exists mat4.identity. split; [reflexivity|].
      exists mat4.identity.
      split; apply mat4_mul_identity_l.
    - exists (mat4.scaling 2). split; [reflexivity|].
      apply invertible_determinant. mat_unfold. lra. }
  split; [exact Hall|].
  destruct (initNormalMatrices_inverse_transpose throwsOnSingular
              (Model.new exactArray scaledScene)) as (Hret & Hafter).
  destruct (Hret Hall) as (this' & Hrun).
  destruct (Hafter this' Hrun) as (_ & H).
  destruct (H 0 (parsedNode mat4.identity [0]) eq_refl)
    as (node0 & H0 & _ & _ & Hn0).
  destruct (H 1 (parsedNode (mat4.scaling 2) [0]) eq_refl)
    as (node1 & H1 & _ & _ & Hn1).
  destruct (Hn0 mat4.identity eq_refl) as (_ & _ & Hid & _).
  destruct (Hn1 (mat4.scaling 2) eq_refl) as (_ & _ & _ & Hsc).
  exists this', node0, node1.
  split; [exact Hrun|]. split; [exact H0|].
  split; [exact (Hid eq_refl)|]. split; [exact H1|].
  apply (Hsc 2%R); [lra|reflexivity].
Defined.

(** ** The extents scan *)

Lemma Number_MIN_VALUE_pos : (0 < Number_MIN_VALUE)%R.
Proof.
  unfold Number_MIN_VALUE. apply Rinv_0_lt_compat. apply pow_lt. lra.
Qed.

Lemma Number_MAX_VALUE_big : (8 <= Number_MAX_VALUE)%R.
Proof.
  unfold Number_MAX_VALUE.
  assert (H1 : (2 ^ 3 <= 2 ^ 1023)%R) by (apply Rle_pow; [lra|lia]).
  assert (H2 : (/ 2 ^ 52 <= 1)%R).
  { rewrite <- Rinv_1. apply Rinv_le_contravar; [lra|].
    apply pow_R1_Rle. lra. }
  assert (H3 : (2 ^ 3 = 8)%R) by (simpl; lra).
  nra.
Qed.

Lemma vertexLoop_guard (len i : nat) :
  (3 * i <? len) = (i <? (len + 2) / 3).
Proof.
  destruct (Nat.ltb_spec (3 * i) len) as [H|H];
    symmetry; [apply Nat.ltb_lt|apply Nat.ltb_ge].
  - pose proof (Nat.div_mod_eq (len + 2) 3).
    pose proof (Nat.mod_upper_bound (len + 2) 3). lia.
  - pose proof (Nat.div_mod_eq (len + 2) 3).
    pose proof (Nat.mod_upper_bound (len + 2) 3). lia.
Qed.

(** The specification's scan step is the step the two updaters take. *)
Lemma lesser_code (bound coord : Number) :
  lesser bound coord = if Nlt bound coord then bound else coord.
Proof.
  destruct bound as [b|], coord as [c|]; try reflexivity.
  unfold lesser, Nlt, Rltb, Rmin.
  destruct (Rlt_dec b c), (Rle_dec b c); f_equal; lra.
Qed.

Lemma greater_code (bound coord : Number) :
  greater bound coord = if Ngt bound coord then bound else coord.
Proof.
  destruct bound as [b|], coord as [c|]; try reflexivity.
  unfold greater, Ngt, Nlt, Rltb, Rmax.
  destruct (Rlt_dec c b), (Rle_dec b c); f_equal; lra.
Qed.

Lemma scanStep_code (mn mx p : vec3.t) :
  (Model.updateMinExtents mn p, Model.updateMaxExtents mx p)
  = scanStep (mn, mx) p.
Proof.
  unfold scanStep, Model.updateMinExtents, Model.updateMaxExtents,
    Model.makeExtentsUpdater.
  cbn [fst snd]. rewrite !lesser_code, !greater_code. reflexivity.
Qed.

(** The homogeneous transform is what [mat4.multiplyVec3] computes. *)
Lemma transformPoint_code (mat : mat4.t) (p : vec3.t) :
  mat4.multiplyVec3 mat p = transformPoint mat p.
Proof.
  destruct p as [[x|] [y|] [z|]]; reflexivity.
Qed.

(** The vertices of an array are the triples the loop reads. *)
Lemma meshVertices_step (curVerts : list R) :
  curVerts <> [] ->
  meshVertices curVerts
  = Model.readVertex curVerts 0 :: meshVertices (skipn 3 curVerts).
Proof.
  destruct curVerts as [|x [|y [|z rest]]]; intros H;
    [contradiction|reflexivity|reflexivity|reflexivity].
Qed.

Lemma readVertex_skipn (curVerts : list R) (k : nat) :
  Model.readVertex curVerts k = Model.readVertex (skipn k curVerts) 0.
Proof.
  unfold Model.readVertex, readNumber.
  rewrite !nth_error_skipn.
  replace (k + 0) with k by lia.
  replace (k + (0 + 1)) with (k + 1) by lia.
  replace (k + (0 + 2)) with (k + 2) by lia.
  reflexivity.
Qed.

Lemma extentsVertexLoop_scan (node : Node) (mat : mat4.t)
  (curVerts : list R) :
  modelMatrix node = Some mat ->
  forall (fuel k : nat) (mn mx : vec3.t),
  List.length curVerts - k <= fuel ->
  Model.extentsVertexLoop fuel node curVerts k mn mx
  = Normal (fold_left scanStep
              (map (transformPoint mat) (meshVertices (skipn k curVerts)))
              (mn, mx)).
Proof.
  intros Hm. induction fuel as [|fuel IH]; intros k mn mx Hfuel.
  - cbn [Model.extentsVertexLoop].
    rewrite skipn_all2 by lia. reflexivity.
  - cbn [Model.extentsVertexLoop]. rewrite Hm.
    destruct (Nat.ltb_spec k (List.length curVerts)) as [Hk|Hk].
    + assert (Hne : skipn k curVerts <> []).
      { intros He. apply (f_equal (@List.length R)) in He.
        rewrite length_skipn in He. simpl in He. lia. }
      rewrite (meshVertices_step _ Hne), skipn_skipn.
      cbn [map fold_left].
      rewrite <- readVertex_skipn, <- transformPoint_code, <- scanStep_code.
      replace (3 + k) with (k + 3) by lia.
      apply IH. lia.
    + rewrite skipn_all2 by lia. reflexivity.
Qed.

(** Without a [modelMatrix] the loop returns only when it has no vertex to
    transform. *)
Lemma extentsVertexLoop_unplaced (node : Node) (curVerts : list R)
  (mn mx : vec3.t) :
  modelMatrix node = None ->
  Model.extentsVertexLoop (List.length curVerts) node curVerts 0 mn mx
  = match curVerts with
    | [] => Normal (mn, mx)
    | _ :: _ => Throw TypeError tt
    end.
Proof.
  intros Hm. destruct curVerts as [|x rest]; [reflexivity|].
  cbn [Model.extentsVertexLoop List.length Nat.ltb Nat.leb].
  rewrite Hm. reflexivity.
Qed.

Lemma extentsMeshLoop_scan (s : Scene) (node : Node) (idxs : list nat) :
  forall (mn mx : vec3.t) (r : vec3.t * vec3.t),
  Model.extentsMeshLoop (meshes s) node idxs mn mx = Normal r ->
  r = fold_left scanStep (flat_map (referencePoints s node) idxs) (mn, mx).
Proof.
  induction idxs as [|idx idxs IH]; intros mn mx r H.
  - simpl in H. inversion H. reflexivity.
  - cbn [Model.extentsMeshLoop] in H. cbn [flat_map].
    unfold referencePoints at 1.
    destruct (nth_error (meshes s) idx) as [mesh|]; [|discriminate].
    destruct (vertexPositions mesh) as [curVerts|]; [|discriminate].
    destruct (modelMatrix node) as [mat|] eqn:Hm.
    + rewrite (extentsVertexLoop_scan node mat curVerts Hm) in H by lia.
      rewrite fold_left_app. cbn [skipn] in H.
      destruct (fold_left scanStep _ (mn, mx)) as [mn1 mx1].
      apply IH. exact H.
    + rewrite (extentsVertexLoop_unplaced node curVerts mn mx Hm) in H.
      destruct curVerts; [|discriminate].
      cbn [app]. apply IH. exact H.
Qed.

Lemma extentsNodeLoop_scan (s : Scene) (nds : list Node) :
  forall (mn mx : vec3.t) (r : vec3.t * vec3.t),
  Model.extentsNodeLoop (meshes s) nds mn mx = Normal r ->
  r = fold_left scanStep
        (flat_map (fun node =>
                     match meshIndices node with
                     | Some meshIndices =>
                       flat_map (referencePoints s node) meshIndices
                     | None => []
                     end)
                  nds)
        (mn, mx).
Proof.
  induction nds as [|node nds IH]; intros mn mx r H.
  - simpl in H. inversion H. reflexivity.
  - cbn [Model.extentsNodeLoop] in H. cbn [flat_map].
    destruct (meshIndices node) as [idxs|]; [|discriminate].
    destruct (Model.extentsMeshLoop (meshes s) node idxs mn mx)
      as [[mn1 mx1]|] eqn:Hl; [|discriminate].
    apply extentsMeshLoop_scan in Hl.
    rewrite fold_left_app, <- Hl. apply IH. exact H.
Qed.

Lemma extentsMeshLoop_agree (ms1 ms2 : list Mesh) (node : Node)
  (idxs : list nat) :
  (forall idx, In idx idxs ->
     option_map vertexPositions (nth_error ms1 idx)
     = option_map vertexPositions (nth_error ms2 idx)) ->
  forall mn mx,
    Model.extentsMeshLoop ms1 node idxs mn mx
    = Model.extentsMeshLoop ms2 node idxs mn mx.
Proof.
  induction idxs as [|idx idxs IH]; intros Hag mn mx; [reflexivity|].
  cbn [Model.extentsMeshLoop].
  assert (H := Hag idx (or_introl eq_refl)).
  destruct (nth_error ms1 idx) as [m1|], (nth_error ms2 idx) as [m2|];
    simpl in H; try discriminate; [|reflexivity].
  inversion H as [Hp]. rewrite Hp.
  destruct (vertexPositions m2) as [curVerts|]; [|reflexivity].
  destruct (Model.extentsVertexLoop _ node curVerts 0 mn mx)
    as [[mn1 mx1]|]; [|reflexivity].
  apply IH. intros i Hi. apply Hag. right. exact Hi.
Qed.

Lemma extentsNodeLoop_agree (ms1 ms2 : list Mesh) (nds : list Node) :
  (forall node idxs idx,
     In node nds -> meshIndices node = Some idxs -> In idx idxs ->
     option_map vertexPositions (nth_error ms1 idx)
     = option_map vertexPositions (nth_error ms2 idx)) ->
  forall mn mx,
    Model.extentsNodeLoop ms1 nds mn mx = Model.extentsNodeLoop ms2 nds mn mx.
Proof.
  induction nds as [|node nds IH]; intros Hag mn mx; [reflexivity|].
  cbn [Model.extentsNodeLoop].
  destruct (meshIndices node) as [idxs|] eqn:Hmi; [|reflexivity].
  rewrite (extentsMeshLoop_agree ms1 ms2 node idxs)
    by (intros idx Hi;
        apply (Hag node idxs idx); [left; reflexivity|exact Hmi|exact Hi]).
  destruct (Model.extentsMeshLoop ms2 node idxs mn mx)
    as [[mn1 mx1]|]; [|reflexivity].
  apply IH. intros n ix idx Hn Hix Hi.
  apply (Hag n ix idx); [right; exact Hn|exact Hix|exact Hi].
Qed.

Lemma computeExtents_scan {F32 : Type} (this this' : Model.t F32) :
  Model._computeExtents this = Normal this' ->
  (Model.min this', Model.max this') = scan (visitedPoints (Model.json this)) /\
  Model.center this'
    = vec3.scale (vec3.add (Model.min this') (Model.max this'))
        (Num (1 / 2)) /\
  Model.diagonal this' = vec3.dist (Model.min this') (Model.max this').
Proof.
  unfold Model._computeExtents, vec3.createFrom, vec3.set.
  destruct (Model.extentsNodeLoop _ _ _ _) as [[mn mx]|] eqn:Hl;
    [|discriminate].
  intros H. inversion H; subst; clear H. simpl.
  apply extentsNodeLoop_scan in Hl.
  split; [exact Hl|]. split; reflexivity.
Qed.

(** C10.  The extents scan visits exactly the points of the meshes that
    nodes reference through [meshIndices], once for every reference and
    under the referencing node's [modelMatrix]: [min] and [max] are the
    scan of that list of points, which is made of the meshes' position
    triples and the nodes' matrices alone.  The meshes no node references
    have no effect on [min], [max], [center] and [diagonal]. *)
Theorem computeExtents_visits_references {F32 : Type}
  (this this' : Model.t F32) :
  Model._computeExtents this = Normal this' ->
  (Model.min this', Model.max this') = scan (visitedPoints (Model.json this)) /\
  Model.center this'
    = vec3.scale (vec3.add (Model.min this') (Model.max this'))
        (Num (1 / 2)) /\
  Model.diagonal this' = vec3.dist (Model.min this') (Model.max this') /\
  forall that : Model.t F32,
    nodes (Model.json that) = nodes (Model.json this) ->
    (forall node idxs idx,
       In node (nodes (Model.json this)) ->
       meshIndices node = Some idxs -> In idx idxs ->
       option_map vertexPositions (nth_error (meshes (Model.json that)) idx)
       = option_map vertexPositions
           (nth_error (meshes (Model.json this)) idx)) ->
    extentsOf (Model._computeExtents that)
    = Some (Model.min this', Model.max this', Model.center this',
            Model.diagonal this').
Proof.
  intros H. destruct (computeExtents_scan this this' H) as (Hm & Hc & Hd).
  split; [assumption|]. split; [assumption|]. split; [assumption|].
  intros that Hn Hag.
  unfold Model._computeExtents in *.
  rewrite Hn, (extentsNodeLoop_agree (meshes (Model.json that))
                 (meshes (Model.json this)) (nodes (Model.json this)) Hag).
  destruct (Model.extentsNodeLoop _ _ _ _) as [[mn mx]|]; [|discriminate].
  inversion H; subst; clear H. reflexivity.
Qed.

(** On points without [NaN] a scan step takes the minimum and the maximum
    on every axis. *)
Lemma scanStep_real (a b c a' b' c' x y z : R) :
  scanStep (vec3.mk (Num a) (Num b) (Num c),
            vec3.mk (Num a') (Num b') (Num c'))
           (vec3.mk (Num x) (Num y) (Num z))
  = (vec3.mk (Num (Rmin a x)) (Num (Rmin b y)) (Num (Rmin c z)),
     vec3.mk (Num (Rmax a' x)) (Num (Rmax b' y)) (Num (Rmax c' z))).
Proof.
  reflexivity.
Qed.

Ltac eval_points :=
  cbv - [Rplus Rmult Ropp Rminus Rdiv Rinv IZR sqrt Rlt_dec Rle_dec Rmin Rmax
         Number_MAX_VALUE Number_MIN_VALUE scanStep fold_left].

Ltac eval_scan :=
  unfold scan, sentinels; eval_points; cbn [fold_left];
  rewrite !scanStep_real.

Ltac solve_minmax :=
  pose proof Number_MIN_VALUE_pos; pose proof Number_MAX_VALUE_big;
  unfold Rmin, Rmax;
  repeat match goal with
         | |- context [Rle_dec ?u ?v] =>
           lazymatch u with
           | context [Rle_dec _ _] => fail
           | _ => destruct (Rle_dec u v); try (exfalso; lra)
           end
         end;
  lra.

Lemma Number_MIN_VALUE_small : (Number_MIN_VALUE < 1)%R.
Proof.
  unfold Number_MIN_VALUE.
  assert (H : (/ 2 ^ 1074 < / 1)%R).
  { apply Rinv_lt_contravar; [|apply Rlt_pow_R1; [lra|lia]].
    rewrite Rmult_1_l. apply pow_lt. lra. }
  rewrite Rinv_1 in H. exact H.
Qed.

Lemma scan_triangle_identity :
  scan (visitedPoints (triangleScene mat4.identity))
  = (vec 0 0 0, vec 2 2 0).
Proof.
  eval_scan. unfold vec. repeat f_equal; solve_minmax.
Qed.

Lemma scan_triangle_translated :
  scan (visitedPoints (triangleScene (mat4.translation 5 0 0)))
  = (vec 5 0 0, vec 7 2 0).
Proof.
  eval_scan. unfold vec. repeat f_equal; solve_minmax.
Qed.

Lemma scan_negative :
  scan (visitedPoints negativeScene)
  = (vec (-1) (-1) (-1),
     vec (- Number_MIN_VALUE) (- Number_MIN_VALUE) (- Number_MIN_VALUE)).
Proof.
  eval_scan. unfold vec.
  pose proof Number_MIN_VALUE_small.
  repeat f_equal; solve_minmax.
Qed.


(** Nested minima and maxima, settled from the innermost outwards. *)
Ltac settle_minmax :=
  pose proof Number_MIN_VALUE_pos; pose proof Number_MAX_VALUE_big;
  repeat match goal with
         | |- context [Rmin ?a ?b] =>
           lazymatch a with
           | context [Rmin _ _] => fail
           | _ => first [ rewrite (Rmin_left a b) by lra
                        | rewrite (Rmin_right a b) by lra ]
           end
         | |- context [Rmax ?a ?b] =>
           lazymatch a with
           | context [Rmax _ _] => fail
           | _ => first [ rewrite (Rmax_left a b) by lra
                        | rewrite (Rmax_right a b) by lra ]
           end
         end;
  lra.

(** The points of the instanced scene: the triangle twice under the
    translation and once under the identity, and nothing of the mesh no
    node references. *)
Lemma instancedScene_points :
  visitedPoints instancedScene
  = [vec 5 0 0; vec 7 0 0; vec 5 2 0;
     vec 5 0 0; vec 7 0 0; vec 5 2 0;
     vec 0 0 0; vec 2 0 0; vec 0 2 0].
Proof.
  eval_points. unfold vec. repeat f_equal; lra.
Qed.

Lemma scan_instanced :
  scan (visitedPoints instancedScene) = (vec 0 0 0, vec 7 2 0).
Proof.
  eval_scan. unfold vec. repeat f_equal; settle_minmax.
Qed.

(** ** The example scenes *)

Ltac run_initBuffers :=
  cbv - [IZR Z.modulo]; reflexivity.

Ltac untextured :=
  let H := fresh in
  intros H; exfalso;
  first [ destruct H as [(? & H & _) _]; discriminate H
        | destruct H as [_ (? & H & ? & ? & ?)]; inversion H; subst;
          cbn in *; congruence ].

Lemma twoMeshScene_wellFormed : wellFormed twoMeshScene.
Proof.
  repeat constructor.
  - exists [1; 2; 3; 4; 5; 6]%R, [0; 0; 1; 0; 1; 0]%R.
    repeat (split; [reflexivity|]).
    intros _. exists [10; 11; 12; 13]%R. split; reflexivity.
  - exists [7; 8; 9]%R, [1; 0; 0]%R.
    repeat (split; [reflexivity|]). untextured.
Qed.

Lemma twoMeshScene_wholeTriples : wholeTriples twoMeshScene.
Proof.
  repeat constructor; intros positions H; inversion H; reflexivity.
Qed.

Lemma raggedScene_wellFormed : wellFormed raggedScene.
Proof.
  repeat constructor.
  exists [1; 2; 3; 4]%R, [0; 0; 1; 0]%R.
  repeat (split; [reflexivity|]). untextured.
Qed.

Lemma raggedPairScene_wellFormed : wellFormed raggedPairScene.
Proof.
  repeat constructor.
  - exists [1; 2; 3; 4]%R, [0; 0; 1; 0]%R.
    repeat (split; [reflexivity|]). untextured.
  - exists [7; 8; 9]%R, [1; 0; 0]%R.
    repeat (split; [reflexivity|]). untextured.
Qed.

(** C1 as stated fails: a mesh with four position numbers and four normal
    numbers meets the stated conditions, yet the cursor ends at 12 with a
    capacity of 8 and one write starts at element 9. *)
Lemma initBuffers_ragged_overruns :
  wellFormed raggedScene /\
  exists this' locals,
    Model._initBuffers (Model.new exactArray raggedScene)
      = Normal (this', locals) /\
    Model.vboSize locals = 8 /\
    Buffer.length (Model.vbo this') = 8 /\
    Model.writeIdx locals = 12 /\
    In (9, 1) (subData (Buffer.rawBuffer (Model.vbo this'))) /\
    ~ Forall (inCapacity (Buffer.length (Model.vbo this')))
        (subData (Buffer.rawBuffer (Model.vbo this'))).
Proof.
  split; [exact raggedScene_wellFormed|].
  eexists. eexists. split; [run_initBuffers|].
  repeat (split; [reflexivity|]). split; [simpl; auto|].
  intros H. apply Forall_inv in H. unfold inCapacity in H. simpl in H. lia.
Qed.

(** C3 as stated fails: after a mesh with an incomplete last vertex, the
    next mesh is placed at element 12 of a 14-element buffer, so its first
    position triple cannot be read back. *)
Lemma round_trip_ragged_fails :
  wellFormed raggedPairScene /\
  exists this' locals m',
    Model._initBuffers (Model.new exactArray raggedPairScene)
      = Normal (this', locals) /\
    nth_error (meshes (Model.json this')) 1 = Some m' /\
    0 < vertexCount m' /\
    positionsOffset m' = Some 12 /\
    stride m' = Some 6 /\
    positionOf m' 0 = [7; 8; 9]%R /\
    readBack (Model.vbo this') (12 + 0 * 6) 3 = [0; 0]%R /\
    readBack (Model.vbo this') (12 + 0 * 6) 3
      <> map (element exactArray) (positionOf m' 0).
Proof.
  split; [exact raggedPairScene_wellFormed|].
  eexists. eexists. eexists. split; [run_initBuffers|].
  split; [reflexivity|]. split; [cbv; lia|].
  repeat (split; [reflexivity|]). discriminate.
Qed.

(** C1, amended, at the two-mesh scene. *)
Lemma initBuffers_counts_exact_witness :
  wellFormed twoMeshScene /\ wholeTriples twoMeshScene /\
  exists this' locals,
    Model._initBuffers (Model.new exactArray twoMeshScene)
      = Normal (this', locals) /\
    exists ms1,
      Model.sizeLoop (materials twoMeshScene) (meshes twoMeshScene) 0 0
        = Normal (ms1, Model.vboSize locals, Model.iboSize locals) /\
      List.length ms1 = List.length (meshes twoMeshScene) /\
      Forall (fun m1 =>
                forall (vbo : Buffer.t R R) (ibo : Buffer.t Z Z) (w : nat),
                exists m' vbo' ibo',
                  Model.writeBody m1 vbo ibo w
                    = Normal (m', vbo', ibo', w + meshSize m1) /\
                  Buffer.written vbo' = Buffer.written vbo + meshSize m1)
             ms1 /\
      list_sum (map meshSize ms1) = Model.vboSize locals /\
      Buffer.written (Model.vbo this') = Model.vboSize locals /\
      Model.writeIdx locals = Model.vboSize locals /\
      Buffer.length (Model.vbo this') = Model.vboSize locals /\
      List.length (store (Buffer.rawBuffer (Model.vbo this')))
        = Model.vboSize locals /\
      Forall (inCapacity (Buffer.length (Model.vbo this')))
        (subData (Buffer.rawBuffer (Model.vbo this'))).
Proof.
  split; [exact twoMeshScene_wellFormed|].
  split; [exact twoMeshScene_wholeTriples|].
  eexists. eexists. split; [run_initBuffers|].
  apply (initBuffers_counts_exact exactArray twoMeshScene).
  - exact twoMeshScene_wellFormed.
  - exact twoMeshScene_wholeTriples.
  - run_initBuffers.
Defined.

(** C3, amended, at the two-mesh scene. *)
Lemma initBuffers_round_trip_witness :
  wellFormed twoMeshScene /\ wholeTriples twoMeshScene /\
  exists this' locals,
    Model._initBuffers (Model.new exactArray twoMeshScene)
      = Normal (this', locals) /\
    forall i m', nth_error (meshes (Model.json this')) i = Some m' ->
    forall k, k < vertexCount m' ->
      exists m po st,
        nth_error (meshes twoMeshScene) i = Some m /\ sameData m m' /\
        positionsOffset m' = Some po /\
        normalsOffset m' = Some (3 + po) /\
        stride m' = Some st /\
        List.length (positionOf m k) = 3 /\
        List.length (normalOf m k) = 3 /\
        readBack (Model.vbo this') (po + k * st) 3
          = map (element exactArray) (positionOf m k) /\
        readBack (Model.vbo this') (3 + po + k * st) 3
          = map (element exactArray) (normalOf m k) /\
        (truthy (hasTexture m') = true ->
         texCoordsOffset m' = Some (6 + po) /\
         List.length (texCoordOf m k) = 2 /\
         readBack (Model.vbo this') (6 + po + k * st) 2
           = map (element exactArray) (texCoordOf m k)) /\
        readBack (Model.vbo this') (po + k * st) st
          = map (element exactArray)
              (positionOf m k ++ normalOf m k
                 ++ (if truthy (hasTexture m') then texCoordOf m k else [])).
Proof.
  split; [exact twoMeshScene_wellFormed|].
  split; [exact twoMeshScene_wholeTriples|].
  eexists. eexists. split; [run_initBuffers|].
  eapply (initBuffers_round_trip exactArray twoMeshScene).
  - exact twoMeshScene_wellFormed.
  - exact twoMeshScene_wholeTriples.
  - run_initBuffers.
Defined.

(** C2 at the two-mesh scene. *)
Lemma initBuffers_stride_hasTexture_witness :
  exists this' locals,
    Model._initBuffers (Model.new exactArray twoMeshScene)
      = Normal (this', locals) /\
    List.length (meshes (Model.json this')) = List.length (meshes twoMeshScene) /\
    forall i m', nth_error (meshes (Model.json this')) i = Some m' ->
      exists m b,
        nth_error (meshes twoMeshScene) i = Some m /\
        sameData m m' /\
        hasTexture m' = Some b /\
        stride m' = Some (6 + (if b then 2 else 0)) /\
        (b = true <-> textured twoMeshScene m) /\
        (forall curMaterial,
           nth_error (materials twoMeshScene) (materialIndex m)
             = Some curMaterial ->
           ~ hasDiffuseTexture curMaterial ->
           hasTexture m' = Some false /\ stride m' = Some 6).
Proof.
  eexists. eexists. split; [run_initBuffers|].
  eapply (initBuffers_stride_hasTexture (Model.new exactArray twoMeshScene)).
  run_initBuffers.
Defined.


(** ** Malformed scenes *)

Lemma sizeBody_needs_arrays (materials : list Material) (m m' : Mesh)
  (v i v' i' : nat) :
  Model.sizeBody materials m v i = Normal (m', v', i') ->
  vertexPositions m <> None /\ vertexNormals m <> None.
Proof.
  unfold Model.sizeBody.
  destruct (vertexPositions m); [|discriminate].
  destruct (vertexNormals m); [|discriminate].
  intros _. split; discriminate.
Qed.

Lemma sizeLoop_missing_array (materials : list Material) (ms : list Mesh) :
  (exists m, In m ms /\
             (vertexPositions m = None \/ vertexNormals m = None)) ->
  forall v i, exists ms', Model.sizeLoop materials ms v i = Throw TypeError ms'.
Proof.
  induction ms as [|m ms IH]; intros (bad & Hin & Hbad) v i.
  - destruct Hin.
  - simpl.
    destruct (Model.sizeBody materials m v i) as [[[m1 v1] i1]|[] m1] eqn:Hb.
    + destruct (sizeBody_needs_arrays materials m m1 v i v1 i1 Hb)
        as (Hp & Hn).
      destruct Hin as [<-|Hin]; [destruct Hbad; contradiction|].
      destruct (IH (ex_intro _ bad (conj Hin Hbad)) v1 i1) as (ms' & ->).
      eexists. reflexivity.
    + eexists. reflexivity.
Qed.

(** C8, amended.  When some mesh lacks its [vertexPositions] or its
    [vertexNormals] array, [_initBuffers] throws a TypeError in the size
    pass, before any allocation: both buffers are then as they were before
    the call, and for a newly constructed model that is unallocated and
    unwritten. *)
Theorem initBuffers_missing_array_throws {F32 : Type} (this : Model.t F32) :
  (exists m, In m (meshes (Model.json this)) /\
             (vertexPositions m = None \/ vertexNormals m = None)) ->
  exists this',
    Model._initBuffers this = Throw TypeError this' /\
    Model.vbo this' = Model.vbo this /\
    Model.ibo this' = Model.ibo this /\
    (forall Float32Array s, this = Model.new Float32Array s ->
       Buffer.length (Model.vbo this') = 0 /\
       store (Buffer.rawBuffer (Model.vbo this')) = [] /\
       subData (Buffer.rawBuffer (Model.vbo this')) = [] /\
       Buffer.length (Model.ibo this') = 0 /\
       store (Buffer.rawBuffer (Model.ibo this')) = [] /\
       subData (Buffer.rawBuffer (Model.ibo this')) = []).
Proof.
  intros Hbad. unfold Model._initBuffers.
  destruct (sizeLoop_missing_array (materials (Model.json this))
              (meshes (Model.json this)) Hbad 0 0) as (ms' & ->).
  eexists. split; [reflexivity|]. simpl.
  split; [reflexivity|]. split; [reflexivity|].
  intros Float32Array s ->. simpl. repeat split; reflexivity.
Qed.

(** C8 as stated fails: position and normal counts that differ raise no
    error; the vertex buffer is allocated with 9 elements and written. *)
Lemma initBuffers_mismatch_unchecked :
  vertexPositions mismatchedMesh = Some [1; 2; 3]%R /\
  vertexNormals mismatchedMesh = Some [0; 0; 1; 0; 0; 1]%R /\
  exists this' locals,
    Model._initBuffers (Model.new exactArray mismatchedScene)
      = Normal (this', locals) /\
    Buffer.length (Model.vbo this') = 9 /\
    store (Buffer.rawBuffer (Model.vbo this'))
      = [1; 2; 3; 0; 0; 1; 0; 0; 0]%R /\
    subData (Buffer.rawBuffer (Model.vbo this')) = [(3, 3); (0, 3)].
Proof.
  split; [reflexivity|]. split; [reflexivity|].
  eexists. eexists. split; [run_initBuffers|].
  repeat split; reflexivity.
Qed.

(** C8, amended, at a scene whose second mesh has no [vertexNormals]. *)
Lemma initBuffers_missing_array_throws_witness :
  (exists m, In m (meshes normallessScene) /\
             (vertexPositions m = None \/ vertexNormals m = None)) /\
  exists this',
    Model._initBuffers (Model.new exactArray normallessScene)
      = Throw TypeError this' /\
    Buffer.length (Model.vbo this') = 0 /\
    store (Buffer.rawBuffer (Model.vbo this')) = [] /\
    subData (Buffer.rawBuffer (Model.vbo this')) = [] /\
    Buffer.length (Model.ibo this') = 0 /\
    store (Buffer.rawBuffer (Model.ibo this')) = [] /\
    subData (Buffer.rawBuffer (Model.ibo this')) = [].
Proof.
  assert (Hbad : exists m, In m (meshes normallessScene) /\
                   (vertexPositions m = None \/ vertexNormals m = None)).
  { exists normallessMesh. split; [simpl; auto|right; reflexivity]. }
  split; [exact Hbad|].
  destruct (initBuffers_missing_array_throws
              (Model.new exactArray normallessScene) Hbad)
    as (this' & Hrun & _ & _ & Hfresh).
  exists this'. split; [exact Hrun|].
  exact (Hfresh exactArray normallessScene eq_refl).
Defined.

Lemma computeExtents_values {F32 : Type} (this : Model.t F32)
  (mn mx : vec3.t) :
  (exists r,
     Model.extentsNodeLoop (meshes (Model.json this))
       (nodes (Model.json this)) (fst sentinels) (snd sentinels)
     = Normal r) ->
  scan (visitedPoints (Model.json this)) = (mn, mx) ->
  exists this',
    Model._computeExtents this = Normal this' /\
    Model.min this' = mn /\
    Model.max this' = mx /\
    Model.center this' = vec3.scale (vec3.add mn mx) (Num (1 / 2)) /\
    Model.diagonal this' = vec3.dist mn mx.
Proof.
  intros ([mn1 mx1] & Hl) Hscan.
  assert (Hrun : exists this', Model._computeExtents this = Normal this').
  { unfold Model._computeExtents, vec3.createFrom.
    unfold sentinels in Hl. cbn [fst snd] in Hl. rewrite Hl.
    eexists. reflexivity. }
  destruct Hrun as (this' & Hrun). exists this'.
  destruct (computeExtents_scan this this' Hrun) as (Hm & Hc & Hd).
  rewrite Hscan in Hm. inversion Hm as [[H1 H2]].
  rewrite Hc, Hd, H1, H2. auto.
Qed.

Lemma vec_ext (a b c a' b' c' : R) :
  a = a' -> b = b' -> c = c' -> vec a b c = vec a' b' c'.
Proof.
  intros -> -> ->. reflexivity.
Qed.

Lemma vec_center (a b c a' b' c' : R) :
  vec3.scale (vec3.add (vec a b c) (vec a' b' c')) (Num (1 / 2))
  = vec ((a + a') / 2) ((b + b') / 2) ((c + c') / 2).
Proof.
  unfold vec3.scale, vec3.add.
  cbn [vec vec3.x vec3.y vec3.z Nadd Nmul].
  apply vec_ext; lra.
Qed.

Lemma vec_dist (a b c a' b' c' : R) :
  vec3.dist (vec a b c) (vec a' b' c')
  = Num (sqrt ((a' - a) * (a' - a) + (b' - b) * (b' - b)
               + (c' - c) * (c' - c))).
Proof.
  unfold vec3.dist, vec, Math_sqrt. simpl.
  destruct (Rlt_dec _ 0) as [H|_]; [|reflexivity].
  exfalso.
  pose proof (Rle_0_sqr (a' - a)) as Ha.
  pose proof (Rle_0_sqr (b' - b)) as Hb.
  pose proof (Rle_0_sqr (c' - c)) as Hc.
  unfold Rsqr in Ha, Hb, Hc. lra.
Qed.

(** The two concrete cases of C4: the triangle under an identity node and
    under a translation by (5, 0, 0). *)
Lemma computeExtents_triangle_identity :
  exists this',
    Model._computeExtents
      (Model.new exactArray (triangleScene mat4.identity)) = Normal this' /\
    Model.min this' = vec 0 0 0 /\
    Model.max this' = vec 2 2 0 /\
    Model.center this' = vec 1 1 0 /\
    Model.diagonal this' = Num (sqrt 8).
Proof.
  destruct (computeExtents_values
              (Model.new exactArray (triangleScene mat4.identity))
              (vec 0 0 0) (vec 2 2 0))
    as (this' & Hrun & Hmin & Hmax & Hc & Hd).
  - eexists. reflexivity.
  - exact scan_triangle_identity.
  - exists this'. repeat (split; [assumption|]). split.
    + rewrite Hc, vec_center. apply vec_ext; lra.
    + rewrite Hd, vec_dist. do 2 f_equal. lra.
Qed.

Lemma computeExtents_triangle_translated :
  exists this',
    Model._computeExtents
      (Model.new exactArray (triangleScene (mat4.translation 5 0 0)))
      = Normal this' /\
    Model.min this' = vec 5 0 0 /\
    Model.max this' = vec 7 2 0.
Proof.
  destruct (computeExtents_values
              (Model.new exactArray (triangleScene (mat4.translation 5 0 0)))
              (vec 5 0 0) (vec 7 2 0))
    as (this' & Hrun & Hmin & Hmax & _).
  - eexists. reflexivity.
  - exact scan_triangle_translated.
  - exists this'. auto.
Qed.

Lemma vec_injective (a b c a' b' c' : R) :
  vec a b c = vec a' b' c' -> a = a' /\ b = b' /\ c = c'.
Proof.
  unfold vec. intros H. inversion H. auto.
Qed.

(** C4, at a vertex with negative coordinates: [min] is the vertex, but
    [max] stays at the initial [-Number.MIN_VALUE] on every axis instead of
    the per-axis maximum (-1, -1, -1). *)
Theorem computeExtents_negative_max_stuck :
  exists this',
    Model._computeExtents (Model.new exactArray negativeScene)
      = Normal this' /\
    visitedPoints negativeScene = [vec (-1) (-1) (-1)] /\
    Model.min this' = vec (-1) (-1) (-1) /\
    Model.max this'
      = vec (- Number_MIN_VALUE) (- Number_MIN_VALUE) (- Number_MIN_VALUE) /\
    Model.max this' <> vec (-1) (-1) (-1).
Proof.
  destruct (computeExtents_values (Model.new exactArray negativeScene) _ _
              ltac:(eexists; reflexivity) scan_negative)
    as (this' & Hrun & Hmin & Hmax & _).
  exists this'. split; [assumption|]. split.
  { eval_points. f_equal. apply vec_ext; lra. }
  split; [assumption|]. split; [assumption|].
  rewrite Hmax. intros H. apply vec_injective in H.
  pose proof Number_MIN_VALUE_small. lra.
Qed.

(** C7, at the empty scene: the four extents are the initial sentinels and
    what is computed from them, none of them zero. *)
Theorem computeExtents_empty_sentinels :
  exists this',
    Model._computeExtents (Model.new exactArray emptyScene) = Normal this' /\
    Model.min this'
      = vec Number_MAX_VALUE Number_MAX_VALUE Number_MAX_VALUE /\
    Model.max this'
      = vec (- Number_MIN_VALUE) (- Number_MIN_VALUE) (- Number_MIN_VALUE) /\
    Model.center this'
      = vec ((Number_MAX_VALUE + - Number_MIN_VALUE) / 2)
            ((Number_MAX_VALUE + - Number_MIN_VALUE) / 2)
            ((Number_MAX_VALUE + - Number_MIN_VALUE) / 2) /\
    (exists d, Model.diagonal this' = Num d /\ (0 < d)%R) /\
    Model.min this' <> vec 0 0 0 /\
    Model.max this' <> vec 0 0 0 /\
    Model.center this' <> vec 0 0 0 /\
    Model.diagonal this' <> Num 0.
Proof.
  pose proof Number_MIN_VALUE_pos as Hmin0.
  pose proof Number_MIN_VALUE_small as Hmin1.
  pose proof Number_MAX_VALUE_big as Hmax8.
  destruct (computeExtents_values (Model.new exactArray emptyScene)
              (fst sentinels) (snd sentinels)
              ltac:(eexists; reflexivity) eq_refl)
    as (this' & Hrun & Hmin & Hmax & Hc & Hd).
  unfold sentinels in *. cbn [fst snd] in *.
  fold (vec Number_MAX_VALUE Number_MAX_VALUE Number_MAX_VALUE) in *.
  fold (vec (- Number_MIN_VALUE) (- Number_MIN_VALUE) (- Number_MIN_VALUE))
    in *.
  rewrite vec_center in Hc. rewrite vec_dist in Hd.
  exists this'. rewrite Hmin, Hmax, Hc, Hd.
  split; [exact Hrun|].
  repeat (split; [reflexivity|]).
  assert (Hpos : (0 < sqrt ((- Number_MIN_VALUE - Number_MAX_VALUE)
                            * (- Number_MIN_VALUE - Number_MAX_VALUE)
                            + (- Number_MIN_VALUE - Number_MAX_VALUE)
                              * (- Number_MIN_VALUE - Number_MAX_VALUE)
                            + (- Number_MIN_VALUE - Number_MAX_VALUE)
                              * (- Number_MIN_VALUE - Number_MAX_VALUE)))%R).
  { apply sqrt_lt_R0. nra. }
  split; [eexists; split; [reflexivity|exact Hpos]|].
  split; [intros H; apply vec_injective in H; lra|].
  split; [intros H; apply vec_injective in H; lra|].
  split; [intros H; apply vec_injective in H; lra|].
  intros H. inversion H as [H0]. lra.
Qed.

(** C10 at a scene whose triangle is referenced twice by a translating node
    and once by an identity node, and whose second mesh is referenced by no
    node: nine points are visited, the extents are those of the nine
    points, and another mesh in the unreferenced slot changes nothing. *)
Lemma computeExtents_visits_references_witness :
  exists this',
    Model._computeExtents (Model.new exactArray instancedScene)
      = Normal this' /\
    visitedPoints instancedScene
      = [vec 5 0 0; vec 7 0 0; vec 5 2 0;
         vec 5 0 0; vec 7 0 0; vec 5 2 0;
         vec 0 0 0; vec 2 0 0; vec 0 2 0] /\
    Model.min this' = vec 0 0 0 /\
    Model.max this' = vec 7 2 0 /\
    Model.center this' = vec (7 / 2) 1 0 /\
    Model.diagonal this' = Num (sqrt 53) /\
    extentsOf (Model._computeExtents (Model.new exactArray instancedScene'))
    = Some (vec 0 0 0, vec 7 2 0, vec (7 / 2) 1 0, Num (sqrt 53)).
Proof.
  assert (Hrun : exists this',
             Model._computeExtents (Model.new exactArray instancedScene)
             = Normal this') by (eexists; reflexivity).
  destruct Hrun as (this' & Hrun). exists this'.
  split; [exact Hrun|]. split; [exact instancedScene_points|].
  destruct (computeExtents_visits_references
              (Model.new exactArray instancedScene) this' Hrun)
    as (Hscan & Hc & Hd & Hother).
  assert (Hboth : (Model.min this', Model.max this')
                  = (vec 0 0 0, vec 7 2 0))
    by (rewrite <- scan_instanced; exact Hscan).
  injection Hboth as Hmin Hmax.
  assert (Hc' : Model.center this' = vec (7 / 2) 1 0).
  { rewrite Hc, Hmin, Hmax, vec_center. apply vec_ext; lra. }
  assert (Hd' : Model.diagonal this' = Num (sqrt 53)).
  { rewrite Hd, Hmin, Hmax, vec_dist. do 2 f_equal. lra. }
  repeat (split; [assumption|]).
  rewrite <- Hmin, <- Hmax, <- Hc', <- Hd'.
  apply (Hother (Model.new exactArray instancedScene')); [reflexivity|].
  intros node idxs idx Hnode Hmi Hidx. simpl in Hnode.
  destruct Hnode as [<-|[<-|[]]]; injection Hmi as <-; simpl in Hidx;
    repeat (destruct Hidx as [<-|Hidx]; [reflexivity|]); destruct Hidx.
Defined.

(** ** Termination of the loops and of [_initBuffers] *)

(** The fuel the vertex loops are given is never used up: with at least
    [positions.length - j] units the loop ends by its guard, and more fuel
    changes nothing. *)
Lemma vertexLoop_fuel_enough {F32 : Type} (m : Mesh) (positions : list R) :
  forall (fuel extra j k : nat) (vbo : Buffer.t R F32) (w : nat),
  List.length positions - j <= fuel ->
  Model.vertexLoop (fuel + extra) m positions j k vbo w
  = Model.vertexLoop fuel m positions j k vbo w.
Proof.
  induction fuel as [|fuel IH]; intros extra j k vbo w Hf.
  - destruct extra; cbn [Model.vertexLoop Nat.add]; [reflexivity|].
    replace (j <? List.length positions) with false; [reflexivity|].
    symmetry. apply Nat.ltb_ge. lia.
  - cbn [Model.vertexLoop Nat.add].
    destruct (j <? List.length positions) eqn:Hj; [|reflexivity].
    destruct (vertexNormals m); [|reflexivity].
    destruct (truthy (hasTexture m)).
    + destruct (texChannel0 m); [|reflexivity]. apply IH. lia.
    + apply IH. lia.
Qed.

Lemma extentsVertexLoop_fuel_enough (node : Node) (curVerts : list R) :
  forall (fuel extra k : nat) (mn mx : vec3.t),
  List.length curVerts - k <= fuel ->
  Model.extentsVertexLoop (fuel + extra) node curVerts k mn mx
  = Model.extentsVertexLoop fuel node curVerts k mn mx.
Proof.
  induction fuel as [|fuel IH]; intros extra k mn mx Hf.
  - destruct extra; cbn [Model.extentsVertexLoop Nat.add]; [reflexivity|].
    replace (k <? List.length curVerts) with false; [reflexivity|].
    symmetry. apply Nat.ltb_ge. lia.
  - cbn [Model.extentsVertexLoop Nat.add].
    destruct (k <? List.length curVerts) eqn:Hk; [|reflexivity].
    destruct (modelMatrix node); [|reflexivity].
    apply IH. lia.
Qed.

Lemma sizeBody_returns (materials : list Material) (m : Mesh) (v i : nat) :
  vertexPositions m <> None -> vertexNormals m <> None ->
  ((exists texCoords, texChannel0 m = Some texCoords /\ texCoords <> []) ->
   resolves materials m) ->
  exists r, Model.sizeBody materials m v i = Normal r.
Proof.
  intros Hp Hn Hmat. unfold Model.sizeBody.
  destruct (vertexPositions m) as [positions|]; [|contradiction].
  destruct (vertexNormals m) as [normals|]; [|contradiction].
  change (texChannel0 (set_hasTexture m false)) with (texChannel0 m).
  change (materialIndex (set_hasTexture m false)) with (materialIndex m).
  destruct (texChannel0 m) as [[|t0 tex]|].
  - destruct (indices _) as [[|i0 idx]|]; eexists; reflexivity.
  - destruct Hmat as (mat & -> & Hd);
      [eexists; split; [reflexivity|discriminate]|].
    destruct (diffuseTexture mat) as [paths|]; [|contradiction].
    destruct (truthy _);
      destruct (indices _) as [[|i0 idx]|]; eexists; reflexivity.
  - destruct (indices _) as [[|i0 idx]|]; eexists; reflexivity.
Qed.

Lemma sizeLoop_returns (materials : list Material) (ms : list Mesh) :
  Forall (fun m =>
            vertexPositions m <> None /\ vertexNormals m <> None /\
            ((exists texCoords,
                texChannel0 m = Some texCoords /\ texCoords <> []) ->
             resolves materials m)) ms ->
  forall v i, exists r, Model.sizeLoop materials ms v i = Normal r.
Proof.
  induction 1 as [|m ms (Hp & Hn & Hm) _ IH]; intros v i.
  - eexists. reflexivity.
  - cbn [Model.sizeLoop].
    destruct (sizeBody_returns materials m v i Hp Hn Hm)
      as ([[m1 v1] i1] & ->).
    destruct (IH v1 i1) as ([[ms1 v2] i2] & ->).
    eexists. reflexivity.
Qed.

(** On a well-formed scene of whole triples whose meshes with texture
    coordinates name existing materials that have a [diffuseTexture],
    [_initBuffers] returns. *)
Lemma initBuffers_returns {F32 : Type} (Float32Array : TypedArray R F32)
  (s : Scene) :
  wellFormed s -> wholeTriples s -> materialsResolve s ->
  exists this' locals,
    Model._initBuffers (Model.new Float32Array s) = Normal (this', locals).
Proof.
  intros Hwf Htr Hres.
  assert (Hall : Forall (fun m =>
            vertexPositions m <> None /\ vertexNormals m <> None /\
            ((exists texCoords,
                texChannel0 m = Some texCoords /\ texCoords <> []) ->
             resolves (materials s) m)) (meshes s)).
  { unfold wellFormed, materialsResolve in *.
    rewrite Forall_forall in *. intros m Hin.
    destruct (Hwf m Hin) as (p & n & Hp & Hn & _).
    rewrite Hp, Hn. split; [discriminate|]. split; [discriminate|].
    apply Hres. exact Hin. }
  destruct (sizeLoop_returns (materials s) (meshes s) Hall 0 0)
    as ([[ms1 v] i] & Hsize).
  destruct (wellFormed_packable s ms1 v i Hwf Htr Hsize) as (Hpk & _).
  unfold Model._initBuffers, Buffer.bind, Buffer.unbind.
  cbn [Model.json Model.new materials meshes Model.vbo Model.ibo].
  rewrite Hsize.
  destruct (writeLoop_packs ms1 Hpk
              (Buffer.allocate (Buffer.new ARRAY_BUFFER Float32Array) v)
              (Buffer.allocate (Buffer.new ELEMENT_ARRAY_BUFFER Uint16Array)
                 i) 0)
    as (ms' & vbo' & ibo' & -> & _).
  eexists. eexists. reflexivity.
Qed.

(** ** What the scan computes on real points *)

(** On points without [NaN], [min] is on every axis the least of
    [Number.MAX_VALUE] and the points' coordinates, and [max] the greatest
    of [-Number.MIN_VALUE] and the points' coordinates: [max] is the true
    maximum on an axis only where some point reaches [-Number.MIN_VALUE]. *)
Lemma scan_real_from (pts : list (R * R * R)) :
  forall a b c a' b' c' : R,
  fold_left scanStep
    (map (fun p => vec (fst (fst p)) (snd (fst p)) (snd p)) pts)
    (vec a b c, vec a' b' c')
  = (vec (fold_left Rmin (map (fun p => fst (fst p)) pts) a)
         (fold_left Rmin (map (fun p => snd (fst p)) pts) b)
         (fold_left Rmin (map (fun p => snd p) pts) c),
     vec (fold_left Rmax (map (fun p => fst (fst p)) pts) a')
         (fold_left Rmax (map (fun p => snd (fst p)) pts) b')
         (fold_left Rmax (map (fun p => snd p) pts) c')).
Proof.
  induction pts as [|[[x y] z] pts IH]; intros a b c a' b' c'.
  - reflexivity.
  - cbn [map fold_left fst snd].
    change (scanStep (vec a b c, vec a' b' c') (vec x y z))
      with (scanStep (vec3.mk (Num a) (Num b) (Num c),
                      vec3.mk (Num a') (Num b') (Num c'))
                     (vec3.mk (Num x) (Num y) (Num z))).
    rewrite scanStep_real. apply IH.
Qed.

Lemma scan_real (pts : list (R * R * R)) :
  scan (map (fun p => vec (fst (fst p)) (snd (fst p)) (snd p)) pts)
  = (vec (fold_left Rmin (map (fun p => fst (fst p)) pts) Number_MAX_VALUE)
         (fold_left Rmin (map (fun p => snd (fst p)) pts) Number_MAX_VALUE)
         (fold_left Rmin (map (fun p => snd p) pts) Number_MAX_VALUE),
     vec (fold_left Rmax (map (fun p => fst (fst p)) pts)
            (- Number_MIN_VALUE)%R)
         (fold_left Rmax (map (fun p => snd (fst p)) pts)
            (- Number_MIN_VALUE)%R)
         (fold_left Rmax (map (fun p => snd p) pts)
            (- Number_MIN_VALUE)%R)).
Proof.
  unfold scan, sentinels. apply scan_real_from.
Qed.

(** * Further properties of the code *)

(** ** ShipGL.Buffer *)

(** X1.  A write never resizes a buffer: whatever the array and the index,
    the store keeps its number of elements and [length] its value; a write
    that does not fit leaves every element as it was. *)
Theorem Buffer_write_keeps_capacity {A E : Type} (b : Buffer.t A E)
  (array : list A) (index : option nat) :
  List.length (store (Buffer.rawBuffer (Buffer.write b array index)))
    = List.length (store (Buffer.rawBuffer b)) /\
  Buffer.length (Buffer.write b array index) = Buffer.length b /\
  Buffer.byteCount (Buffer.write b array index) = Buffer.byteCount b /\
  (List.length (store (Buffer.rawBuffer b))
     < match index with Some i => i | None => 0 end + List.length array ->
   store (Buffer.rawBuffer (Buffer.write b array index))
     = store (Buffer.rawBuffer b)).
Proof.
  unfold Buffer.write, bufferSubData. cbn [Buffer.rawBuffer store
    Buffer.length Buffer.byteCount].
  set (i := match index with Some i => i | None => 0 end).
  rewrite length_map.
  destruct (Nat.leb_spec (i + List.length array)
              (List.length (store (Buffer.rawBuffer b)))) as [Hfit|Hno].
  - split; [|split; [reflexivity|split; [reflexivity|lia]]].
    rewrite !length_app, length_firstn, length_skipn, length_map. lia.
  - repeat split; reflexivity.
Qed.

(** X2.  A write that fits can be read back, and touches nothing else: the
    elements from [index] on are the converted array, every element outside
    that range is the one that was there. *)
Theorem Buffer_write_read_back {A E : Type} (b : Buffer.t A E)
  (array : list A) (index : nat) :
  index + List.length array <= List.length (store (Buffer.rawBuffer b)) ->
  readBack (Buffer.write b array (Some index)) index (List.length array)
    = map (element (Buffer.ArrayType b)) array /\
  forall j, j < index \/ index + List.length array <= j ->
    nth_error (store (Buffer.rawBuffer (Buffer.write b array (Some index)))) j
    = nth_error (store (Buffer.rawBuffer b)) j.
Proof.
  intros Hfit.
  set (st := store (Buffer.rawBuffer b)) in *.
  assert (Hsplit : st = firstn index st
                        ++ firstn (List.length array) (skipn index st)
                        ++ skipn (List.length array) (skipn index st)).
  { rewrite firstn_skipn, firstn_skipn. reflexivity. }
  assert (Hpre : List.length (firstn index st) = index)
    by (rewrite length_firstn; lia).
  assert (Hmid : List.length (firstn (List.length array) (skipn index st))
                 = List.length array)
    by (rewrite length_firstn, length_skipn; lia).
  assert (Hst := write_store b array _ _ _ index Hsplit Hpre Hmid).
  split.
  - unfold readBack. rewrite Hst.
    pose proof (slice_app_middle (firstn index st)
                  (map (element (Buffer.ArrayType b)) array)
                  (skipn (List.length array) (skipn index st))) as H.
    rewrite Hpre, length_map in H. exact H.
  - intros j Hj. rewrite Hst.
    transitivity (nth_error
                    (firstn index st
                       ++ firstn (List.length array) (skipn index st)
                       ++ skipn (List.length array) (skipn index st)) j);
      [|rewrite <- Hsplit; reflexivity].
    destruct Hj as [Hj|Hj].
    + rewrite !nth_error_app1 by lia. reflexivity.
    + rewrite (nth_error_app2 (firstn index st)) by lia.
      rewrite (nth_error_app2 (firstn index st)) by lia.
      rewrite !nth_error_app2 by (rewrite ?length_map; lia).
      rewrite length_map, Hmid. reflexivity.
Qed.

(** X2 on the documented example: [4, 5] written at index 1 of a buffer
    holding [1, 2, 3]. *)
Lemma Buffer_write_read_back_witness :
  1 + List.length [4; 5]%R
    <= List.length (store (Buffer.rawBuffer documentedBuffer)) /\
  readBack (Buffer.write documentedBuffer [4; 5]%R (Some 1)) 1 2
    = [4; 5]%R /\
  nth_error
    (store (Buffer.rawBuffer (Buffer.write documentedBuffer [4; 5]%R
                                (Some 1)))) 0
  = Some 1%R.
Proof.
  assert (Hfit : 1 + List.length [4; 5]%R
                 <= List.length (store (Buffer.rawBuffer documentedBuffer)))
    by (simpl; lia).
  split; [exact Hfit|].
  destruct (Buffer_write_read_back documentedBuffer [4; 5]%R 1 Hfit)
    as (Hread & Hframe).
  split; [exact Hread|].
  rewrite (Hframe 0) by (left; lia). reflexivity.
Defined.

(** ** ShipGL.BufferUtilities *)

Lemma makeBufferCreator_fits {A E : Type}
  (BufferType : BufferTarget) (ArrayType : TypedArray A E)
  (array : list A) (length : option nat) :
  let n := match length with
           | Some (S k) => S k
           | _ => List.length array
           end in
  List.length array <= n ->
  let buffer :=
    BufferUtilities.makeBufferCreator BufferType ArrayType array length in
  Buffer.length buffer = n /\
  Buffer.byteCount buffer = BYTES_PER_ELEMENT ArrayType * n /\
  store (Buffer.rawBuffer buffer)
    = map (element ArrayType) array
        ++ repeat (zero ArrayType) (n - List.length array) /\
  readBack buffer 0 (List.length array) = map (element ArrayType) array.
Proof.
  intros n Hfit buffer.
  unfold buffer, BufferUtilities.makeBufferCreator, Buffer.bind,
    Buffer.unbind.
  fold n.
  set (b0 := Buffer.allocate (Buffer.new BufferType ArrayType) n).
  assert (Hs0 : store (Buffer.rawBuffer b0)
                = [] ++ repeat (zero ArrayType) (List.length array)
                     ++ repeat (zero ArrayType) (n - List.length array)).
  { simpl. rewrite <- repeat_app. f_equal. lia. }
  assert (Hst := write_store b0 array _ _ _ 0 Hs0 eq_refl
                   (repeat_length _ _)).
  change (Buffer.write b0 array (Some 0)) with (Buffer.write b0 array None)
    in Hst.
  split; [reflexivity|]. split; [reflexivity|]. split; [exact Hst|].
  unfold readBack. rewrite Hst.
  pose proof (slice_app_middle (@nil E) (map (element ArrayType) array)
                (repeat (zero ArrayType) (n - List.length array))) as H.
  rewrite length_map in H. exact H.
Qed.

(** X3.  A buffer creator called without a length, with length 0, or with a
    length the array fits in, returns a buffer of that many elements (the
    array's length in the first two cases) that holds the converted array
    followed by zeros. *)
Theorem makeBufferCreator_holds_array {A E : Type}
  (BufferType : BufferTarget) (ArrayType : TypedArray A E)
  (array : list A) (length : option nat) :
  let n := match length with
           | Some (S k) => S k
           | _ => List.length array
           end in
  List.length array <= n ->
  let buffer :=
    BufferUtilities.makeBufferCreator BufferType ArrayType array length in
  Buffer.length buffer = n /\
  Buffer.byteCount buffer = BYTES_PER_ELEMENT ArrayType * n /\
  store (Buffer.rawBuffer buffer)
    = map (element ArrayType) array
        ++ repeat (zero ArrayType) (n - List.length array) /\
  readBack buffer 0 (List.length array) = map (element ArrayType) array.
Proof.
  exact (makeBufferCreator_fits BufferType ArrayType array length).
Qed.

(** X4.  A buffer creator called with a positive length smaller than the
    array does not store the first [length] elements: the one write of the
    whole array does not fit and is refused, so the buffer holds [length]
    zeros. *)
Theorem makeBufferCreator_short_length_stores_nothing {A E : Type}
  (BufferType : BufferTarget) (ArrayType : TypedArray A E)
  (array : list A) (n : nat) :
  0 < n -> n < List.length array ->
  let buffer :=
    BufferUtilities.makeBufferCreator BufferType ArrayType array (Some n) in
  Buffer.length buffer = n /\
  store (Buffer.rawBuffer buffer) = repeat (zero ArrayType) n /\
  subData (Buffer.rawBuffer buffer) = [(0, List.length array)].
Proof.
  intros Hpos Hshort buffer.
  unfold buffer, BufferUtilities.makeBufferCreator, Buffer.bind,
    Buffer.unbind, Buffer.write, Buffer.allocate, Buffer.new, bufferData,
    bufferSubData.
  destruct n as [|k]; [lia|]. cbn [Buffer.rawBuffer Buffer.length store
    subData Buffer.ArrayType createBuffer].
  rewrite length_map, repeat_length.
  replace (0 + List.length array <=? S k) with false
    by (symmetry; apply Nat.leb_gt; lia).
  repeat split; reflexivity.
Qed.

(** X3 at the floor's index array, and X4 at the documented call with a
    length of 2 for an array of 3. *)
Lemma makeBufferCreator_holds_array_witness :
  store (Buffer.rawBuffer
           (BufferUtilities.createIndexBuffer [0; 1; 2; 0; 2; 3]%Z None))
  = [0; 1; 2; 0; 2; 3]%Z.
Proof.
  destruct (makeBufferCreator_holds_array ELEMENT_ARRAY_BUFFER Uint16Array
              [0; 1; 2; 0; 2; 3]%Z None (le_n _)) as (_ & _ & Hst & _).
  exact Hst.
Defined.

Lemma makeBufferCreator_short_length_stores_nothing_witness :
  store (Buffer.rawBuffer
           (BufferUtilities.createVertexBuffer exactArray [1; 2; 3]%R
              (Some 2)))
  = [0; 0]%R.
Proof.
  destruct (makeBufferCreator_short_length_stores_nothing ARRAY_BUFFER
              exactArray [1; 2; 3]%R 2) as (_ & Hst & _);
    [lia|simpl; lia|].
  exact Hst.
Defined.

(** X1 at a write that does not fit: three elements at index 1 of a
    three-element buffer. *)
Lemma Buffer_write_keeps_capacity_witness :
  List.length (store (Buffer.rawBuffer documentedBuffer))
    < 1 + List.length [7; 8; 9]%R /\
  store (Buffer.rawBuffer (Buffer.write documentedBuffer [7; 8; 9]%R
                             (Some 1)))
  = store (Buffer.rawBuffer documentedBuffer).
Proof.
  assert (H : List.length (store (Buffer.rawBuffer documentedBuffer))
              < 1 + List.length [7; 8; 9]%R) by (simpl; lia).
  split; [exact H|].
  destruct (Buffer_write_keeps_capacity documentedBuffer [7; 8; 9]%R
              (Some 1)) as (_ & _ & _ & Hsame).
  exact (Hsame H).
Defined.

(** ** Failure of [_initBuffers] *)

Lemma vertexLoop_returns {F32 : Type} (m : Mesh) (positions : list R) :
  vertexNormals m <> None ->
  (truthy (hasTexture m) = true -> texChannel0 m <> None) ->
  forall (fuel j k : nat) (vbo : Buffer.t R F32) (w : nat),
  exists r, Model.vertexLoop fuel m positions j k vbo w = Normal r.
Proof.
  intros Hn Ht. induction fuel as [|fuel IH]; intros j k vbo w.
  - eexists. reflexivity.
  - cbn [Model.vertexLoop].
    destruct (j <? List.length positions); [|eexists; reflexivity].
    destruct (vertexNormals m) as [normals|]; [|contradiction].
    destruct (truthy (hasTexture m)).
    + destruct (texChannel0 m) as [tex|]; [|exfalso; apply Ht; reflexivity].
      apply IH.
    + apply IH.
Qed.

Lemma writeBody_returns {F32 : Type} (m : Mesh) (vbo : Buffer.t R F32)
  (ibo : Buffer.t Z Z) (w : nat) :
  writable m -> exists r, Model.writeBody m vbo ibo w = Normal r.
Proof.
  intros (Hp & Hn & Ht). unfold Model.writeBody.
  set (m1 := if truthy (hasTexture (set_normalsOffset
                                      (set_positionsOffset m w) (3 + w)))
             then set_texCoordsOffset
                    (set_normalsOffset (set_positionsOffset m w) (3 + w))
                    (6 + w)
             else set_normalsOffset (set_positionsOffset m w) (3 + w)).
  assert (H1 : vertexPositions m1 = vertexPositions m /\
               vertexNormals m1 = vertexNormals m /\
               hasTexture m1 = hasTexture m /\
               texChannel0 m1 = texChannel0 m).
  { unfold m1, texChannel0. simpl.
    destruct (truthy (hasTexture m)); simpl; repeat split; reflexivity. }
  destruct H1 as (e1 & e2 & e3 & e4). rewrite e1.
  destruct (vertexPositions m) as [positions|]; [|contradiction].
  destruct (vertexLoop_returns m1 positions
              ltac:(rewrite e2; exact Hn) ltac:(rewrite e3, e4; exact Ht)
              (List.length positions) 0 0 vbo w) as ([vbo1 w1] & ->).
  eexists. reflexivity.
Qed.

Lemma writeLoop_returns {F32 : Type} (ms : list Mesh) :
  Forall writable ms ->
  forall (vbo : Buffer.t R F32) (ibo : Buffer.t Z Z) (w : nat),
  exists r, Model.writeLoop ms vbo ibo w = Normal r.
Proof.
  induction 1 as [|m ms Hm _ IH]; intros vbo ibo w.
  - eexists. reflexivity.
  - cbn [Model.writeLoop].
    destruct (writeBody_returns m vbo ibo w Hm)
      as ([[[m1 vbo1] ibo1] w1] & ->).
    destruct (IH vbo1 ibo1 w1) as ([[[ms2 vbo2] ibo2] w2] & ->).
    eexists. reflexivity.
Qed.

Lemma sizeBody_writable (materials : list Material) (m m' : Mesh)
  (v i v' i' : nat) :
  Model.sizeBody materials m v i = Normal (m', v', i') -> writable m'.
Proof.
  intros H.
  destruct (sizeBody_needs_arrays materials m m' v i v' i' H) as (Hp & Hn).
  apply sizeBody_sized in H.
  destruct H as (((d1 & d2 & d3 & _) & (b & Hb & _ & Hiff) & _) & _).
  unfold writable. rewrite d1, d2. split; [assumption|].
  split; [assumption|].
  rewrite Hb. intros Ht.
  assert (b = true) by (destruct b; [reflexivity|discriminate]).
  destruct Hiff as [Hiff _].
  destruct (Hiff H) as ((tex & Htex & _) & _).
  unfold texChannel0 in *. rewrite d3, Htex. discriminate.
Qed.

Lemma sizeLoop_writable (materials : list Material) (ms : list Mesh) :
  forall v i ms' v' i',
  Model.sizeLoop materials ms v i = Normal (ms', v', i') ->
  Forall writable ms'.
Proof.
  induction ms as [|m ms IH]; intros v i ms' v' i' H.
  - simpl in H. inversion H. constructor.
  - simpl in H.
    destruct (Model.sizeBody materials m v i)
      as [[[m1 v1] i1]|] eqn:Hb; [|discriminate].
    destruct (Model.sizeLoop materials ms v1 i1)
      as [[[ms1 v2] i2]|] eqn:Hl; [|discriminate].
    inversion H; subst; clear H. constructor.
    + eapply sizeBody_writable. exact Hb.
    + eapply IH. exact Hl.
Qed.

Lemma sizeBody_throws_iff (materials : list Material) (m : Mesh) (v i : nat) :
  (exists m', Model.sizeBody materials m v i = Throw TypeError m')
  <-> unsizable materials m.
Proof.
  assert (Hthrown : forall c : Completion (Mesh * nat * nat) Mesh,
            (exists r, c = Normal r) ->
            ~ exists m', c = Throw TypeError m').
  { intros c (r & ->) (m' & H). discriminate. }
  unfold unsizable.
  destruct (Model.sizeBody materials m v i) as [r|[] m1] eqn:Hb.
  - split; [intros (m' & H); discriminate|]. intros Hbad. exfalso.
    destruct r as [[m1 v1] i1].
    destruct (sizeBody_needs_arrays materials m m1 v i v1 i1 Hb) as (Hp & Hn).
    destruct Hbad as [Hbad|[Hbad|((tex & Htex & Hne) & Hmat)]];
      [contradiction|contradiction|].
    unfold Model.sizeBody in Hb.
    destruct (vertexPositions m); [|discriminate].
    destruct (vertexNormals m); [|discriminate].
    change (texChannel0 (set_hasTexture m false)) with (texChannel0 m) in Hb.
    change (materialIndex (set_hasTexture m false)) with (materialIndex m)
      in Hb.
    rewrite Htex in Hb.
    destruct tex; [contradiction|].
    destruct (nth_error materials (materialIndex m)); [|discriminate].
    rewrite Hmat in Hb. discriminate.
  - split; [|intros _; eexists; reflexivity]. intros _.
    destruct (vertexPositions m) as [p|] eqn:Hp; [|left; reflexivity].
    destruct (vertexNormals m) as [n|] eqn:Hn; [|right; left; reflexivity].
    right. right.
    assert (Hret :
      ~ ((exists texCoords,
            texChannel0 m = Some texCoords /\ texCoords <> []) ->
         resolves materials m)).
    { intros Hres.
      destruct (sizeBody_returns materials m v i) as (r & Hr);
        [rewrite Hp; discriminate|rewrite Hn; discriminate|exact Hres|].
      congruence. }
    destruct (texChannel0 m) as [[|t0 tex]|] eqn:Ht.
    + exfalso. apply Hret. intros (tx & Htx & Hne). congruence.
    + split; [eexists; split; [reflexivity|discriminate]|].
      destruct (nth_error materials (materialIndex m)) as [mat|] eqn:Hm;
        [|exact I].
      destruct (diffuseTexture mat) as [paths|] eqn:Hd; [|reflexivity].
      exfalso. apply Hret. intros _. exists mat.
      split; [exact Hm|congruence].
    + exfalso. apply Hret. intros (tx & Htx & Hne). congruence.
Qed.

Lemma sizeLoop_throws_iff (materials : list Material) (ms : list Mesh) :
  forall v i,
  (exists ms', Model.sizeLoop materials ms v i = Throw TypeError ms')
  <-> Exists (unsizable materials) ms.
Proof.
  induction ms as [|m ms IH]; intros v i.
  - simpl. split; [intros (ms' & H); discriminate|intros H; inversion H].
  - cbn [Model.sizeLoop].
    destruct (Model.sizeBody materials m v i) as [[[m1 v1] i1]|[] m1] eqn:Hb.
    + assert (Hok : ~ unsizable materials m).
      { intros Hbad. apply (sizeBody_throws_iff materials m v i) in Hbad.
        destruct Hbad as (m' & Hm'). congruence. }
      split.
      * intros (ms' & H). apply Exists_cons_tl. apply (IH v1 i1).
        destruct (Model.sizeLoop materials ms v1 i1) as [[[a b] c]|[] ms1];
          [discriminate|eexists; reflexivity].
      * intros H. inversion H as [? ? Hh|? ? Ht]; subst; [contradiction|].
        apply (IH v1 i1) in Ht. destruct Ht as (ms1 & ->).
        eexists. reflexivity.
    + split; [|intros _; eexists; reflexivity].
      intros _. apply Exists_cons_hd.
      apply (sizeBody_throws_iff materials m v i). eexists. exact Hb.
Qed.

Lemma initBuffers_throws_when {F32 : Type} (this : Model.t F32) :
  ((exists this', Model._initBuffers this = Throw TypeError this')
   <-> Exists (unsizable (materials (Model.json this)))
              (meshes (Model.json this))) /\
  (forall e this', Model._initBuffers this = Throw e this' ->
     Model.vbo this' = Model.vbo this /\ Model.ibo this' = Model.ibo this /\
     materials (Model.json this') = materials (Model.json this) /\
     nodes (Model.json this') = nodes (Model.json this)).
Proof.
  assert (Hsplit :
    forall e this', Model._initBuffers this = Throw e this' ->
      exists ms', Model.sizeLoop (materials (Model.json this))
                    (meshes (Model.json this)) 0 0 = Throw e ms' /\
                  this' = Model.with_buffers this ms' (Model.vbo this)
                            (Model.ibo this)).
  { intros e this' H. unfold Model._initBuffers in H.
    destruct (Model.sizeLoop _ _ 0 0) as [[[ms1 v] i]|e1 ms1] eqn:Hs.
    - exfalso.
      destruct (writeLoop_returns ms1 (sizeLoop_writable _ _ _ _ _ _ _ Hs)
                  (Buffer.allocate (Buffer.bind (Model.vbo this)) v)
                  (Buffer.allocate (Buffer.bind (Model.ibo this)) i) 0)
        as ([[[ms2 vbo2] ibo2] w2] & Hw).
      rewrite Hw in H. discriminate.
    - inversion H; subst. eexists. split; reflexivity. }
  split.
  - split.
    + intros (this' & H). destruct (Hsplit _ _ H) as (ms' & Hs & _).
      apply (sizeLoop_throws_iff _ _ 0 0). eexists. exact Hs.
    + intros Hbad. apply (sizeLoop_throws_iff _ _ 0 0) in Hbad.
      destruct Hbad as (ms' & Hs). unfold Model._initBuffers. rewrite Hs.
      eexists. reflexivity.
  - intros e this' H. destruct (Hsplit _ _ H) as (ms' & _ & ->).
    repeat split; reflexivity.
Qed.

(** X5.  On a scene description that has its [meshes] and [materials]
    arrays, [_initBuffers] throws exactly when some mesh lacks
    [vertexPositions] or [vertexNormals], or has a non-empty texcoord
    channel 0 and a [materialIndex] that names no material or a material
    without a [diffuseTexture] property; and whenever it throws, it does so
    before allocating: both buffers are as they were before the call. *)
Theorem initBuffers_throws_iff {F32 : Type} (this : Model.t F32) :
  ((exists this', Model._initBuffers this = Throw TypeError this')
   <-> Exists (unsizable (materials (Model.json this)))
              (meshes (Model.json this))) /\
  (forall e this', Model._initBuffers this = Throw e this' ->
     Model.vbo this' = Model.vbo this /\ Model.ibo this' = Model.ibo this /\
     materials (Model.json this') = materials (Model.json this) /\
     nodes (Model.json this') = nodes (Model.json this)).
Proof.
  exact (initBuffers_throws_when this).
Qed.

Lemma danglingScene_unsizable :
  Exists (unsizable (materials danglingScene)) (meshes danglingScene).
Proof.
  apply Exists_cons_tl. apply Exists_cons_hd. right. right.
  split; [|exact I].
  exists [10; 11; 12; 13]%R. split; [reflexivity|discriminate].
Qed.

Lemma texturedBareScene_unsizable :
  Exists (unsizable (materials texturedBareScene))
    (meshes texturedBareScene).
Proof.
  apply Exists_cons_hd. right. right.
  split; [|reflexivity].
  exists [10; 11; 12; 13]%R. split; [reflexivity|discriminate].
Qed.

(** X5 at a scene whose second mesh has texture coordinates and names a
    material the scene does not have, and at a scene whose mesh has texture
    coordinates and names a material without [diffuseTexture]. *)
Lemma initBuffers_throws_iff_witness :
  (Exists (unsizable (materials danglingScene)) (meshes danglingScene) /\
   exists this',
     Model._initBuffers (Model.new exactArray danglingScene)
       = Throw TypeError this' /\
     Model.vbo this' = Model.vbo (Model.new exactArray danglingScene) /\
     Model.ibo this' = Model.ibo (Model.new exactArray danglingScene)) /\
  (Exists (unsizable (materials texturedBareScene))
     (meshes texturedBareScene) /\
   exists this',
     Model._initBuffers (Model.new exactArray texturedBareScene)
       = Throw TypeError this' /\
     Model.vbo this' = Model.vbo (Model.new exactArray texturedBareScene) /\
     Model.ibo this' = Model.ibo (Model.new exactArray texturedBareScene)).
Proof.
  assert (Hat : forall s,
            Exists (unsizable (materials s)) (meshes s) ->
            exists this',
              Model._initBuffers (Model.new exactArray s)
                = Throw TypeError this' /\
              Model.vbo this' = Model.vbo (Model.new exactArray s) /\
              Model.ibo this' = Model.ibo (Model.new exactArray s)).
  { intros s Hbad.
    destruct (initBuffers_throws_iff (Model.new exactArray s))
      as ((_ & Hthrows) & Hkeeps).
    destruct (Hthrows Hbad) as (this' & Hrun).
    exists this'. split; [exact Hrun|].
    destruct (Hkeeps _ _ Hrun) as (Hv & Hi & _). split; assumption. }
  split.
  - split; [exact danglingScene_unsizable
           |exact (Hat _ danglingScene_unsizable)].
  - split; [exact texturedBareScene_unsizable
           |exact (Hat _ texturedBareScene_unsizable)].
Defined.

(** ** The index buffer *)

Lemma writeBody_ibo {F32 : Type} (m m' : Mesh) (vbo vbo' : Buffer.t R F32)
  (ibo ibo' : Buffer.t Z Z) (w w' : nat) :
  Model.writeBody m vbo ibo w = Normal (m', vbo', ibo', w') ->
  ibo' = if truthy (hasIndices m)
         then Buffer.write ibo
                (match indices m with Some idx => idx | None => [] end)
                (indicesOffset m)
         else ibo.
Proof.
  unfold Model.writeBody.
  set (m1 := if truthy (hasTexture (set_normalsOffset
                                      (set_positionsOffset m w) (3 + w)))
             then set_texCoordsOffset
                    (set_normalsOffset (set_positionsOffset m w) (3 + w))
                    (6 + w)
             else set_normalsOffset (set_positionsOffset m w) (3 + w)).
  assert (H1 : hasIndices m1 = hasIndices m /\ indices m1 = indices m /\
               indicesOffset m1 = indicesOffset m).
  { unfold m1. simpl.
    destruct (truthy (hasTexture m)); simpl; repeat split; reflexivity. }
  destruct H1 as (e1 & e2 & e3).
  destruct (vertexPositions m1) as [positions|]; [|discriminate].
  destruct (Model.vertexLoop _ m1 positions 0 0 vbo w) as [[vbo1 w1]|];
    [|discriminate].
  intros H. inversion H; subst. rewrite e1, e2, e3. reflexivity.
Qed.

Lemma writeLoop_ibo {F32 : Type} (ms : list Mesh) :
  forall (base : nat) (ms' : list Mesh) (vbo vbo' : Buffer.t R F32)
         (ibo ibo' : Buffer.t Z Z) (w w' : nat) (pre rest : list Z),
  indexLaidOut base ms ->
  Model.writeLoop ms vbo ibo w = Normal (ms', vbo', ibo', w') ->
  store (Buffer.rawBuffer ibo) = pre ++ rest ->
  List.length pre = base ->
  list_sum (map indexCount ms) <= List.length rest ->
  Buffer.ArrayType ibo' = Buffer.ArrayType ibo /\
  store (Buffer.rawBuffer ibo')
    = pre ++ map (element (Buffer.ArrayType ibo)) (allIndices ms)
          ++ skipn (list_sum (map indexCount ms)) rest.
Proof.
  induction ms as [|m ms IH];
    intros base ms' vbo vbo' ibo ibo' w w' pre rest Hlay Hrun Hst Hpre Hfit.
  - simpl in Hrun. inversion Hrun; subst. split; [reflexivity|].
    simpl. assumption.
  - cbn [Model.writeLoop] in Hrun.
    destruct (Model.writeBody m vbo ibo w)
      as [[[[m1 vbo1] ibo1] w1]|e [[m1 vbo1] ibo1]] eqn:Hb; [|discriminate].
    destruct (Model.writeLoop ms vbo1 ibo1 w1)
      as [[[[ms2 vbo2] ibo2] w2]|e [[ms2 vbo2] ibo2]] eqn:Hl; [|discriminate].
    injection Hrun as <- <- <- <-.
    apply writeBody_ibo in Hb.
    destruct Hlay as (Hon & Hoff & Hrest).
    cbn [map list_sum fold_right] in Hfit |- *.
    change (fold_right Nat.add 0) with list_sum in Hfit |- *.
    unfold allIndices. cbn [flat_map]. fold (allIndices ms).
    assert (Hcnt : List.length (match indices m with
                                | Some idx => idx
                                | None => []
                                end) = indexCount m).
    { unfold indexCount. destruct (indices m); reflexivity. }
    assert (H1 : Buffer.ArrayType ibo1 = Buffer.ArrayType ibo /\
                 store (Buffer.rawBuffer ibo1)
                 = (pre ++ map (element (Buffer.ArrayType ibo))
                             (match indices m with
                              | Some idx => idx
                              | None => []
                              end))
                     ++ skipn (indexCount m) rest).
    { destruct (truthy (hasIndices m)) eqn:Hh.
      - rewrite Hb, (Hon eq_refl). split; [reflexivity|].
        rewrite <- Hcnt.
        apply write_store_skip; [assumption|assumption|rewrite Hcnt; lia].
      - specialize (Hoff eq_refl). rewrite Hb. split; [reflexivity|].
        rewrite Hoff. unfold indexCount in Hoff.
        destruct (indices m) as [[|i0 idx]|]; try discriminate;
          simpl; rewrite app_nil_r; assumption. }
    destruct H1 as (Ha1 & Hs1).
    destruct (IH (base + indexCount m) ms2 vbo1 vbo2 ibo1 ibo2 w1 w2 _ _
                Hrest Hl Hs1) as (Ha2 & Hs2).
    + rewrite length_app, length_map, Hcnt. lia.
    + rewrite length_skipn. lia.
    + split; [congruence|].
      rewrite Hs2, Ha1, map_app, <- !app_assoc, skipn_skipn.
      do 3 f_equal. f_equal. lia.
Qed.

Lemma sizeLoop_indexLaidOut (materials : list Material) (ms : list Mesh) :
  forall v i ms' v' i',
  Model.sizeLoop materials ms v i = Normal (ms', v', i') ->
  indexLaidOut i ms' /\
  i' = i + list_sum (map indexCount ms') /\
  allIndices ms' = allIndices ms.
Proof.
  induction ms as [|m ms IH]; intros v i ms' v' i' H.
  - simpl in H. inversion H; subst. simpl. auto.
  - simpl in H.
    destruct (Model.sizeBody materials m v i)
      as [[[m1 v1] i1]|] eqn:Hb; [|discriminate].
    destruct (Model.sizeLoop materials ms v1 i1)
      as [[[ms1 v2] i2]|] eqn:Hl; [|discriminate].
    inversion H; subst; clear H.
    apply sizeBody_sized in Hb.
    destruct Hb as (((_ & _ & _ & d4 & _) & _ & (c & Hc & Hiff & Hoff))
                    & _ & Hi1 & _).
    assert (Hcnt : indexCount m1 = indexCount m)
      by (unfold indexCount; rewrite d4; reflexivity).
    destruct (IH _ _ _ _ _ Hl) as (Hlay & Hsum & Hall).
    cbn [indexLaidOut map list_sum fold_right].
    change (fold_right Nat.add 0) with list_sum.
    rewrite Hcnt, <- Hi1. split; [split; [|split; [|exact Hlay]]|split].
    + rewrite Hc. intros Ht.
      assert (c = true) by (destruct c; [reflexivity|discriminate]).
      apply Hoff. assumption.
    + rewrite Hc. intros Ht. apply indexed_indexCount. intros Hx.
      apply Hiff in Hx. subst c. discriminate.
    + lia.
    + unfold allIndices in *. cbn [flat_map]. rewrite d4, Hall. reflexivity.
Qed.

Lemma allIndices_length (ms : list Mesh) :
  List.length (allIndices ms) = list_sum (map indexCount ms).
Proof.
  induction ms as [|m ms IH]; [reflexivity|].
  unfold allIndices in *. cbn [flat_map map list_sum fold_right].
  change (fold_right Nat.add 0) with list_sum.
  rewrite length_app, IH. unfold indexCount.
  destruct (indices m); reflexivity.
Qed.

Lemma allIndices_split (ms : list Mesh) :
  forall (k : nat) (m : Mesh) (idx : list Z),
  nth_error ms k = Some m -> indices m = Some idx ->
  allIndices ms
    = allIndices (firstn k ms) ++ idx ++ allIndices (skipn (S k) ms).
Proof.
  induction ms as [|m0 ms IH]; intros [|k] m idx Hk Hi;
    try discriminate; simpl in Hk.
  - inversion Hk; subst. unfold allIndices. cbn [flat_map firstn skipn].
    rewrite Hi. reflexivity.
  - unfold allIndices in *. cbn [flat_map firstn skipn].
    rewrite (IH k m idx Hk Hi), <- app_assoc. reflexivity.
Qed.

(** X6.  When [_initBuffers] returns, the index buffer holds the index
    arrays of all meshes, one after the other in mesh order, each index as
    an element of the buffer's typed array (for the [Uint16Array] of the
    constructor: modulo 65536); and for every mesh the size pass marked
    with [hasIndices], reading the buffer back at the mesh's
    [indicesOffset] gives the mesh's own indices. *)
Theorem initBuffers_index_round_trip {F32 : Type} (this this' : Model.t F32)
  (locals : Model.Locals) :
  Model._initBuffers this = Normal (this', locals) ->
  store (Buffer.rawBuffer (Model.ibo this'))
    = map (element (Buffer.ArrayType (Model.ibo this)))
        (allIndices (meshes (Model.json this))) /\
  forall k m', nth_error (meshes (Model.json this')) k = Some m' ->
    truthy (hasIndices m') = true ->
    exists offset idx,
      indicesOffset m' = Some offset /\
      indices m' = Some idx /\
      readBack (Model.ibo this') offset (List.length idx)
        = map (element (Buffer.ArrayType (Model.ibo this))) idx.
Proof.
  intros Hrun.
  assert (Hstore :
    store (Buffer.rawBuffer (Model.ibo this'))
      = map (element (Buffer.ArrayType (Model.ibo this)))
          (allIndices (meshes (Model.json this)))).
  { destruct (initBuffers_passes _ _ _ Hrun)
      as (ms1 & vbo2 & ibo2 & Hsize & Hwrite & _ & Hibo & _).
    destruct (sizeLoop_indexLaidOut _ _ _ _ _ _ _ Hsize)
      as (Hlay & Hsum & Hall).
    simpl in Hsum.
    destruct (writeLoop_ibo ms1 0 _ _ _ _ _ _ _ []
                (repeat (zero (Buffer.ArrayType (Model.ibo this)))
                   (Model.iboSize locals)) Hlay Hwrite)
      as (_ & Hs).
    - reflexivity.
    - reflexivity.
    - rewrite repeat_length. lia.
    - rewrite Hibo, Hs. simpl.
      rewrite Hall, <- Hsum, skipn_all2 by (rewrite repeat_length; lia).
      apply app_nil_r. }
  split; [exact Hstore|].
  intros k m' Hk Ht.
  destruct (initBuffers_meshes _ _ _ Hrun) as (_ & _ & Hnth).
  destruct (Hnth k m' Hk)
    as (m & Hm & (_ & _ & _ & d4 & _) & _ & (c & Hc & Hiff & Hoff)).
  rewrite Hc in Ht. simpl in Ht.
  assert (c = true) by (destruct c; [reflexivity|discriminate]). subst c.
  destruct (proj1 Hiff eq_refl) as (idx & Hi & _).
  destruct (Hoff eq_refl) as (Ho & _).
  exists (list_sum (map indexCount (firstn k (meshes (Model.json this))))),
         idx.
  split; [exact Ho|]. split; [congruence|].
  unfold readBack. rewrite Hstore.
  apply slice_map_middle
    with (pre := allIndices (firstn k (meshes (Model.json this))))
         (post := allIndices (skipn (S k) (meshes (Model.json this)))).
  - apply allIndices_split with (m := m); assumption.
  - symmetry. apply allIndices_length.
  - reflexivity.
Qed.

(** X6 at a scene with indices above 65535 and a mesh without indices
    between two with. *)
Lemma initBuffers_index_round_trip_witness :
  exists this' locals,
    Model._initBuffers (Model.new exactArray indexedScene)
      = Normal (this', locals) /\
    store (Buffer.rawBuffer (Model.ibo this'))
      = map (element Uint16Array) (allIndices (meshes indexedScene)) /\
    forall k m', nth_error (meshes (Model.json this')) k = Some m' ->
      truthy (hasIndices m') = true ->
      exists offset idx,
        indicesOffset m' = Some offset /\
        indices m' = Some idx /\
        readBack (Model.ibo this') offset (List.length idx)
          = map (element Uint16Array) idx.
Proof.
  eexists. eexists. split; [run_initBuffers|].
  eapply (initBuffers_index_round_trip (Model.new exactArray indexedScene)).
  run_initBuffers.
Defined.

(** ** ShipGL.Math *)

Lemma ToInt32_small (z : Z) :
  (- 2 ^ 31 <= z < 2 ^ 31)%Z -> ToInt32 z = z.
Proof.
  intros H. unfold ToInt32. rewrite Z.mod_small; lia.
Qed.

Lemma land_pred_pow2 (x : Z) :
  (0 < x)%Z ->
  (Z.land x (x - 1) = 0 <-> exists k, 0 <= k /\ x = 2 ^ k)%Z.
Proof.
  intros Hx. split.
  - intros Hl.
    exists (Z.log2 x). split; [apply Z.log2_nonneg|].
    destruct (Z.log2_spec x Hx) as (Hlo & Hhi).
    destruct (Z.eq_dec x (2 ^ Z.log2 x)) as [e|ne]; [exact e|exfalso].
    assert (Hlog : Z.log2 (x - 1) = Z.log2 x).
    { apply Z.log2_unique; [apply Z.log2_nonneg|lia]. }
    assert (Hb : Z.testbit (Z.land x (x - 1)) (Z.log2 x) = true).
    { rewrite Z.land_spec, Z.bit_log2 by lia.
      rewrite <- Hlog. rewrite Z.bit_log2; [reflexivity|].
      pose proof (Z.pow_pos_nonneg 2 (Z.log2 x) ltac:(lia)
                    (Z.log2_nonneg x)). lia. }
    rewrite Hl, Z.bits_0 in Hb. discriminate.
  - intros (k & Hk & ->).
    replace (2 ^ k - 1)%Z with (Z.ones k)
      by (rewrite Z.ones_equiv; lia).
    rewrite Z.land_ones by lia. apply Z.mod_same.
    pose proof (Z.pow_pos_nonneg 2 k ltac:(lia) Hk). lia.
Qed.

Lemma isPowerOf2_iff (x : Z) :
  (0 <= x < 2 ^ 31)%Z ->
  Math.isPowerOf2 x = true <->
  (x = 0 \/ exists k, 0 <= k /\ x = 2 ^ k)%Z.
Proof.
  intros Hx. unfold Math.isPowerOf2.
  rewrite (ToInt32_small x), (ToInt32_small (x - 1)) by lia.
  rewrite Z.eqb_eq.
  destruct (Z.eq_dec x 0) as [->|Hne].
  - split; [left; reflexivity|reflexivity].
  - rewrite (land_pred_pow2 x) by lia. split; [right; assumption|].
    intros [H0|H]; [contradiction|exact H].
Qed.

(** X7.  On an integer from 0 up to 2^31 - 1, [isPowerOf2] answers true
    exactly for the powers of two and for 0. *)
Theorem isPowerOf2_spec (x : Z) :
  (0 <= x < 2 ^ 31)%Z ->
  Math.isPowerOf2 x = true <->
  (x = 0 \/ exists k, 0 <= k /\ x = 2 ^ k)%Z.
Proof.
  exact (isPowerOf2_iff x).
Qed.

(** X7 at the documented example, [isPowerOf2(1024)]. *)
Lemma isPowerOf2_spec_witness :
  (0 <= 1024 < 2 ^ 31)%Z /\
  (Math.isPowerOf2 1024 = true <->
   (1024 = 0 \/ exists k, 0 <= k /\ 1024 = 2 ^ k)%Z).
Proof.
  split; [lia|]. apply (isPowerOf2_spec 1024). lia.
Defined.

Lemma testbit_above (y m j : Z) :
  (0 <= y < 2 ^ m)%Z -> (0 <= m <= j)%Z -> Z.testbit y j = false.
Proof.
  intros Hy Hj. destruct (Z.eq_dec y 0) as [->|Hne]; [apply Z.bits_0|].
  apply Z.bits_above_log2; [lia|].
  assert (Z.log2 y < m)%Z by (apply Z.log2_lt_pow2; lia). lia.
Qed.

Lemma below_pow2_of_bits (r m : Z) :
  (0 <= r)%Z -> (0 <= m)%Z ->
  (forall j, (m <= j)%Z -> Z.testbit r j = false) ->
  (r < 2 ^ m)%Z.
Proof.
  intros Hr Hm Hbits.
  destruct (Z.eq_dec r 0) as [->|Hne].
  - apply Z.pow_pos_nonneg; lia.
  - apply Z.log2_lt_pow2; [lia|].
    destruct (Z_lt_le_dec (Z.log2 r) m) as [Hlt|Hge]; [exact Hlt|exfalso].
    specialize (Hbits (Z.log2 r) Hge).
    rewrite Z.bit_log2 in Hbits by lia. discriminate.
Qed.

(** The bits [r] has after smearing [y] over [n] places: bit [j] is set
    when one of the [n] bits of [y] from [j] upwards is. *)
Lemma smear_double (y r n : Z) :
  (0 < n)%Z -> (0 <= r)%Z ->
  (forall j, (0 <= j)%Z ->
     Z.testbit r j = true <->
     exists d, (0 <= d < n)%Z /\ Z.testbit y (j + d) = true) ->
  (0 <= Z.lor r (Z.shiftr r n))%Z /\
  (forall j, (0 <= j)%Z ->
     Z.testbit (Z.lor r (Z.shiftr r n)) j = true <->
     exists d, (0 <= d < 2 * n)%Z /\ Z.testbit y (j + d) = true).
Proof.
  intros Hn Hr Hbits. split.
  - apply Z.lor_nonneg. split; [exact Hr|]. apply Z.shiftr_nonneg. exact Hr.
  - intros j Hj.
    rewrite Z.lor_spec, Z.shiftr_spec, orb_true_iff by lia.
    rewrite (Hbits j Hj), (Hbits (j + n)%Z) by lia. split.
    + intros [(d & Hd & Hb)|(d & Hd & Hb)].
      * exists d. split; [lia|exact Hb].
      * exists (n + d)%Z. split; [lia|].
        replace (j + (n + d))%Z with (j + n + d)%Z by lia. exact Hb.
    + intros (d & Hd & Hb).
      destruct (Z_lt_le_dec d n) as [Hlt|Hge].
      * left. exists d. split; [lia|exact Hb].
      * right. exists (d - n)%Z. split; [lia|].
        replace (j + n + (d - n))%Z with (j + d)%Z by lia. exact Hb.
Qed.

Lemma smearLoop_step (fuel : nat) (i x : Z) :
  (i < 32)%Z ->
  Math.smearLoop (S fuel) i x
  = Math.smearLoop fuel (Z.shiftl i 1)
      (Z.lor (ToInt32 x) (Z.shiftr (ToInt32 x) i)).
Proof.
  intros Hi. cbn [Math.smearLoop].
  destruct (Z.ltb_spec i 32); [reflexivity|lia].
Qed.

Lemma smearLoop_stop (fuel : nat) (i x : Z) :
  (32 <= i)%Z -> Math.smearLoop fuel i x = x.
Proof.
  intros Hi. destruct fuel; [reflexivity|]. cbn [Math.smearLoop].
  destruct (Z.ltb_spec i 32); [lia|reflexivity].
Qed.

(** The loop of [nextHighestPowerOf2] on a non-negative 31-bit integer sets
    every bit below the highest set bit. *)
Lemma smearLoop_bits (y : Z) :
  (0 <= y < 2 ^ 31)%Z ->
  (0 <= Math.smearLoop 32 1 y)%Z /\
  (forall j, (0 <= j)%Z ->
     Z.testbit (Math.smearLoop 32 1 y) j = true <->
     exists d, (0 <= d < 32)%Z /\ Z.testbit y (j + d) = true).
Proof.
  intros Hy.
  assert (Hsmall : forall r n,
    (0 <= r)%Z ->
    (forall j, (0 <= j)%Z ->
       Z.testbit r j = true <->
       exists d, (0 <= d < n)%Z /\ Z.testbit y (j + d) = true) ->
    ToInt32 r = r).
  { intros r n Hr Hbits. apply ToInt32_small.
    split; [lia|]. apply below_pow2_of_bits; [exact Hr|lia|].
    intros j Hj. destruct (Z.testbit r j) eqn:Hb; [|reflexivity].
    apply (Hbits j) in Hb; [|lia]. destruct Hb as (d & Hd & Hb).
    rewrite (testbit_above y 31 (j + d)) in Hb by lia. discriminate. }
  assert (H1 : (0 <= y)%Z /\
    (forall j, (0 <= j)%Z ->
       Z.testbit y j = true <->
       exists d, (0 <= d < 1)%Z /\ Z.testbit y (j + d) = true)).
  { split; [lia|]. intros j Hj. split.
    - intros Hb. exists 0%Z. rewrite Z.add_0_r. split; [lia|exact Hb].
    - intros (d & Hd & Hb). replace d with 0%Z in Hb by lia.
      rewrite Z.add_0_r in Hb. exact Hb. }
  destruct H1 as (Hr1 & Hb1).
  rewrite (smearLoop_step 31 1 y) by lia.
  rewrite (Hsmall y 1%Z Hr1 Hb1).
  destruct (smear_double y _ 1 ltac:(lia) Hr1 Hb1) as (Hr2 & Hb2).
  change (Z.shiftl 1 1) with 2%Z. change (2 * 1)%Z with 2%Z in Hb2.
  rewrite (smearLoop_step 30 2) by lia.
  rewrite (Hsmall _ 2%Z Hr2 Hb2).
  destruct (smear_double y _ 2 ltac:(lia) Hr2 Hb2) as (Hr3 & Hb3).
  change (Z.shiftl 2 1) with 4%Z. change (2 * 2)%Z with 4%Z in Hb3.
  rewrite (smearLoop_step 29 4) by lia.
  rewrite (Hsmall _ 4%Z Hr3 Hb3).
  destruct (smear_double y _ 4 ltac:(lia) Hr3 Hb3) as (Hr4 & Hb4).
  change (Z.shiftl 4 1) with 8%Z. change (2 * 4)%Z with 8%Z in Hb4.
  rewrite (smearLoop_step 28 8) by lia.
  rewrite (Hsmall _ 8%Z Hr4 Hb4).
  destruct (smear_double y _ 8 ltac:(lia) Hr4 Hb4) as (Hr5 & Hb5).
  change (Z.shiftl 8 1) with 16%Z. change (2 * 8)%Z with 16%Z in Hb5.
  rewrite (smearLoop_step 27 16) by lia.
  rewrite (Hsmall _ 16%Z Hr5 Hb5).
  destruct (smear_double y _ 16 ltac:(lia) Hr5 Hb5) as (Hr6 & Hb6).
  change (Z.shiftl 16 1) with 32%Z. change (2 * 16)%Z with 32%Z in Hb6.
  rewrite smearLoop_stop by lia.
  split; assumption.
Qed.

Lemma smearLoop_ones (y : Z) :
  (0 < y < 2 ^ 31)%Z ->
  Math.smearLoop 32 1 y = Z.ones (Z.log2 y + 1).
Proof.
  intros Hy.
  destruct (smearLoop_bits y ltac:(lia)) as (Hr & Hbits).
  pose proof (Z.log2_nonneg y) as Hk.
  assert (Hlt : (Z.log2 y < 31)%Z) by (apply Z.log2_lt_pow2; lia).
  apply Z.bits_inj'. intros j Hj.
  rewrite Z.testbit_ones_nonneg by lia.
  destruct (Z.ltb_spec j (Z.log2 y + 1)) as [Hlo|Hhi].
  - apply (Hbits j Hj). exists (Z.log2 y - j)%Z. split; [lia|].
    replace (j + (Z.log2 y - j))%Z with (Z.log2 y) by lia.
    apply Z.bit_log2. lia.
  - destruct (Z.testbit (Math.smearLoop 32 1 y) j) eqn:Hb; [|reflexivity].
    apply (Hbits j Hj) in Hb. destruct Hb as (d & Hd & Hb).
    rewrite Z.bits_above_log2 in Hb by lia. discriminate.
Qed.

Lemma nextHighestPowerOf2_log2 (x : Z) :
  (2 <= x <= 2 ^ 31)%Z ->
  Math.nextHighestPowerOf2 x = (2 ^ (Z.log2 (x - 1) + 1))%Z.
Proof.
  intros Hx. unfold Math.nextHighestPowerOf2.
  rewrite smearLoop_ones by lia. rewrite Z.ones_equiv. lia.
Qed.

Lemma nextHighestPowerOf2_least (x : Z) :
  (1 <= x <= 2 ^ 31)%Z ->
  (exists k, 0 <= k /\ Math.nextHighestPowerOf2 x = 2 ^ k)%Z /\
  (x <= Math.nextHighestPowerOf2 x)%Z /\
  (forall k, 0 <= k -> x <= 2 ^ k ->
     Math.nextHighestPowerOf2 x <= 2 ^ k)%Z.
Proof.
  intros Hx. destruct (Z.eq_dec x 1) as [->|Hne].
  - change (Math.nextHighestPowerOf2 1) with 1%Z.
    split; [exists 0%Z; split; [lia|reflexivity]|]. split; [lia|].
    intros k Hk _. pose proof (Z.pow_pos_nonneg 2 k ltac:(lia) Hk). lia.
  - rewrite nextHighestPowerOf2_log2 by lia.
    pose proof (Z.log2_nonneg (x - 1)) as Hl.
    destruct (Z.log2_spec (x - 1) ltac:(lia)) as (Hlo & Hhi).
    rewrite <- Z.add_1_r in Hhi.
    split; [eexists; split; [|reflexivity]; lia|]. split; [lia|].
    intros k Hk Hle.
    apply Z.pow_le_mono_r; [lia|].
    destruct (Z_lt_le_dec (Z.log2 (x - 1)) k) as [Hlt|Hge]; [lia|exfalso].
    assert (2 ^ k <= 2 ^ Z.log2 (x - 1))%Z
      by (apply Z.pow_le_mono_r; lia).
    lia.
Qed.

(** X8.  On an integer from 1 to 2^31, [nextHighestPowerOf2] returns the
    least power of two that is not below its argument. *)
Theorem nextHighestPowerOf2_spec (x : Z) :
  (1 <= x <= 2 ^ 31)%Z ->
  (exists k, 0 <= k /\ Math.nextHighestPowerOf2 x = 2 ^ k)%Z /\
  (x <= Math.nextHighestPowerOf2 x)%Z /\
  (forall k, 0 <= k -> x <= 2 ^ k ->
     Math.nextHighestPowerOf2 x <= 2 ^ k)%Z.
Proof.
  exact (nextHighestPowerOf2_least x).
Qed.

(** X8 at the documented example, [nextHighestPowerOf2(1000)], which is
    1024. *)
Lemma nextHighestPowerOf2_spec_witness :
  (1 <= 1000 <= 2 ^ 31)%Z /\
  (exists k, 0 <= k /\ Math.nextHighestPowerOf2 1000 = 2 ^ k)%Z /\
  (1000 <= Math.nextHighestPowerOf2 1000)%Z /\
  (forall k, 0 <= k -> 1000 <= 2 ^ k ->
     Math.nextHighestPowerOf2 1000 <= 2 ^ k)%Z.
Proof.
  split; [lia|]. apply (nextHighestPowerOf2_spec 1000). lia.
Defined.

(** X9.  The two power-of-two functions agree: on an integer from 1 to
    2^31 - 1, [isPowerOf2] accepts what [nextHighestPowerOf2] returns, and
    [nextHighestPowerOf2] returns its argument exactly when [isPowerOf2]
    accepts it. *)
Theorem nextHighestPowerOf2_isPowerOf2 (x : Z) :
  (1 <= x < 2 ^ 31)%Z ->
  Math.isPowerOf2 (Math.nextHighestPowerOf2 x) = true /\
  (Math.nextHighestPowerOf2 x = x <-> Math.isPowerOf2 x = true).
Proof.
  intros Hx.
  destruct (nextHighestPowerOf2_least x ltac:(lia))
    as ((k & Hk & Hp) & Hge & Hleast).
  assert (Hup : (Math.nextHighestPowerOf2 x <= 2 ^ 31)%Z)
    by (apply Hleast; lia).
  split.
  - destruct (Z.eq_dec (Math.nextHighestPowerOf2 x) (2 ^ 31)) as [e|ne].
    + rewrite e. reflexivity.
    + apply isPowerOf2_iff; [lia|]. right. exists k. split; assumption.
  - rewrite (isPowerOf2_iff x) by lia. split.
    + intros e. right. exists k. split; [exact Hk|]. congruence.
    + intros [e|(j & Hj & e)]; [lia|].
      specialize (Hleast j Hj ltac:(lia)). lia.
Qed.

(** X9 at 1024. *)
Lemma nextHighestPowerOf2_isPowerOf2_witness :
  (1 <= 1024 < 2 ^ 31)%Z /\
  Math.isPowerOf2 (Math.nextHighestPowerOf2 1024) = true /\
  (Math.nextHighestPowerOf2 1024 = 1024%Z <-> Math.isPowerOf2 1024 = true).
Proof.
  split; [lia|]. apply (nextHighestPowerOf2_isPowerOf2 1024). lia.
Defined.

(** X10.  The function [makeClamp(min, max)] returns, for bounds in order:
    its result lies between the bounds, is the value itself when the value
    does, and is the nearer bound otherwise; clamping twice is clamping
    once.  With the bounds the wrong way round ([max < min]) the result is
    [max], whatever the value. *)
Theorem makeClamp_spec (min max value : R) :
  let clamp := Math.makeClamp (Num min) (Num max) in
  ((min <= max)%R ->
   exists r, clamp (Num value) = Num r /\
     (min <= r <= max)%R /\
     ((min <= value <= max)%R -> r = value) /\
     ((value < min)%R -> r = min) /\
     ((max < value)%R -> r = max) /\
     clamp (Num r) = Num r) /\
  ((max < min)%R -> clamp (Num value) = Num max).
Proof.
  intros clamp. unfold clamp, Math.makeClamp, Math_min, Math_max. split.
  - intros Hle. eexists. split; [reflexivity|].
    unfold Rmax, Rmin.
    repeat (match goal with
            | |- context [Rle_dec ?a ?b] =>
              lazymatch a with
              | context [Rle_dec _ _] => fail
              | _ => lazymatch b with
                     | context [Rle_dec _ _] => fail
                     | _ => destruct (Rle_dec a b); cbv iota
                     end
              end
            end);
      repeat split; intros; try reflexivity; try lra; f_equal; lra.
  - intros Hgt. f_equal. unfold Rmax, Rmin.
    destruct (Rle_dec value min); destruct (Rle_dec _ max);
      try reflexivity; lra.
Qed.

(** X10 at the documented clamp, [makeClamp(0, 255)], on 300. *)
Lemma makeClamp_spec_witness :
  (0 <= 255)%R /\
  exists r, Math.makeClamp (Num 0) (Num 255) (Num 300) = Num r /\
    (0 <= r <= 255)%R /\ r = 255%R.
Proof.
  assert (Hle : (0 <= 255)%R) by lra.
  split; [exact Hle|].
  destruct (proj1 (makeClamp_spec 0 255 300) Hle)
    as (r & Hr & Hin & _ & _ & Hhi & _).
  exists r. split; [exact Hr|]. split; [exact Hin|]. apply Hhi. lra.
Defined.

(** ** ShipGL.Texture *)

(** X11.  [onImageLoad] on an image whose sides are below 2^31 pixels
    leaves a texture WebGL can sample: when both sides are powers of two
    (or 0) the texture repeats, is minified through mipmaps, and its
    mipmaps are generated; otherwise it is clamped to its edge, minified
    linearly, and [generateMipmap] is not called.  The callback records the
    image's size, uploads the image, sets [isLoaded] and deletes [_image],
    so that a second call throws a TypeError. *)
Theorem onImageLoad_complete (this : Texture.t) (image : Image) :
  Texture._image this = Some image ->
  (0 <= imageWidth image < 2 ^ 31)%Z ->
  (0 <= imageHeight image < 2 ^ 31)%Z ->
  let pot :=
    (imageWidth image = 0%Z \/ powerOf2 (imageWidth image)) /\
    (imageHeight image = 0%Z \/ powerOf2 (imageHeight image)) in
  exists this',
    Texture.onImageLoad this = Normal this' /\
    Texture.isLoaded this' = true /\
    Texture.width this' = imageWidth image /\
    Texture.height this' = imageHeight image /\
    texImage (Texture.rawTexture this') = Some image /\
    TEXTURE_MAG_FILTER (Texture.rawTexture this') = Some LINEAR /\
    (pot ->
     Texture.NPOT this' = false /\
     TEXTURE_WRAP_S (Texture.rawTexture this') = Some REPEAT /\
     TEXTURE_WRAP_T (Texture.rawTexture this') = Some REPEAT /\
     TEXTURE_MIN_FILTER (Texture.rawTexture this')
       = Some LINEAR_MIPMAP_LINEAR /\
     mipmapped (Texture.rawTexture this') = true) /\
    (~ pot ->
     Texture.NPOT this' = true /\
     TEXTURE_WRAP_S (Texture.rawTexture this') = Some CLAMP_TO_EDGE /\
     TEXTURE_WRAP_T (Texture.rawTexture this') = Some CLAMP_TO_EDGE /\
     TEXTURE_MIN_FILTER (Texture.rawTexture this') = Some LINEAR /\
     mipmapped (Texture.rawTexture this')
       = mipmapped (Texture.rawTexture this)) /\
    Texture.onImageLoad this' = Throw TypeError this'.
Proof.
  intros Himg Hw Hh pot.
  assert (Hpot : Math.isPowerOf2 (imageWidth image) &&
                 Math.isPowerOf2 (imageHeight image) = true <-> pot).
  { rewrite andb_true_iff, (isPowerOf2_iff _ Hw), (isPowerOf2_iff _ Hh).
    reflexivity. }
  clearbody pot.
  unfold Texture.onImageLoad, Texture.bind, Texture.unbind. rewrite Himg.
  eexists. split; [reflexivity|].
  cbn [Texture.isLoaded Texture.width Texture.height Texture.NPOT
       Texture._image Texture.rawTexture Texture.texImage2D
       Texture.setRepeatS Texture.setRepeatT Texture.setSmooth
       Texture.with_rawTexture].
  destruct (Math.isPowerOf2 (imageWidth image) &&
            Math.isPowerOf2 (imageHeight image)) eqn:Hb; cbn.
  - repeat split; try reflexivity.
    all: exfalso; match goal with Hn : ~ _ |- _ => apply Hn, Hpot end;
      reflexivity.
  - repeat split; try reflexivity.
    all: match goal with Hp : ?p, Hi : _ <-> ?p |- _ => apply Hi in Hp end;
      discriminate.
Qed.

(** X11 at an image of 640 x 480 pixels. *)
Lemma onImageLoad_complete_witness :
  exists this',
    Texture.onImageLoad (textureOf photo) = Normal this' /\
    Texture.NPOT this' = true /\
    TEXTURE_WRAP_S (Texture.rawTexture this') = Some CLAMP_TO_EDGE /\
    TEXTURE_MIN_FILTER (Texture.rawTexture this') = Some LINEAR /\
    mipmapped (Texture.rawTexture this') = false.
Proof.
  destruct (onImageLoad_complete (textureOf photo) photo eq_refl)
    as (this' & Hrun & _ & _ & _ & _ & _ & _ & Hnpot & _);
    [simpl; lia|simpl; lia|].
  exists this'. split; [exact Hrun|].
  destruct Hnpot as (Hn & Hs & _ & Hm & Hmip).
  - intros ([H0|(k & Hk & Hp)] & _); [discriminate|].
    simpl in Hp.
    assert (Hlt : (k < 10)%Z).
    { apply (Z.pow_lt_mono_r_iff 2); [lia|lia|]. rewrite <- Hp. lia. }
    assert (Hgt : (9 < k)%Z).
    { apply (Z.pow_lt_mono_r_iff 2); [lia|lia|]. rewrite <- Hp. lia. }
    lia.
  - repeat split; assumption.
Defined.

(** ** ShipGL.Model: textures of the materials *)

Lemma initMaterialTextures_run (dir : string) (materials : list Material) :
  match ModelInit._initMaterialTextures dir materials with
  | Normal textures =>
    textures = map (requestedTexture dir) materials /\
    Forall (fun curMaterial => diffuseTexture curMaterial <> None) materials
  | Throw e _ =>
    Exists (fun curMaterial => diffuseTexture curMaterial = None) materials
  end.
Proof.
  induction materials as [|curMaterial rest IH].
  - split; [reflexivity|constructor].
  - cbn [ModelInit._initMaterialTextures map]. unfold requestedTexture at 1.
    destruct (diffuseTexture curMaterial) as [[|path l]|] eqn:Hd;
      [| |apply Exists_cons_hd; exact Hd];
      cbn [Texture.load Texture.new Texture._image];
      (destruct (ModelInit._initMaterialTextures dir rest) as [ts|e ts];
       [destruct IH as (-> & Hall); split;
        [reflexivity|constructor; [congruence|exact Hall]]
       |apply Exists_cons_tl; exact IH]).
Qed.

Lemma initMaterialTextures_requested {F32 : Type}
  (this this' : Model.t F32) (locals : Model.Locals) (dir : string) :
  Model._initBuffers this = Normal (this', locals) ->
  ((exists e textures,
      ModelInit._initMaterialTextures dir (materials (Model.json this'))
        = Throw e textures)
   <-> Exists (fun curMaterial => diffuseTexture curMaterial = None)
         (materials (Model.json this))) /\
  forall textures,
    ModelInit._initMaterialTextures dir (materials (Model.json this'))
      = Normal textures ->
    List.length textures = List.length (materials (Model.json this')) /\
    (forall i curMaterial,
       nth_error (materials (Model.json this')) i = Some curMaterial ->
       diffuseTexture curMaterial = Some [] ->
       nth_error textures i = Some None) /\
    forall k m', nth_error (meshes (Model.json this')) k = Some m' ->
      truthy (hasTexture m') = true ->
      exists curMaterial path rest texture,
        nth_error (materials (Model.json this')) (materialIndex m')
          = Some curMaterial /\
        diffuseTexture curMaterial = Some (path :: rest) /\
        nth_error textures (materialIndex m') = Some (Some texture) /\
        Texture._image texture
          = Some {| src := Some (String.append dir path);
                    imageWidth := 0; imageHeight := 0 |} /\
        Texture.isLoaded texture = false.
Proof.
  intros Hrun.
  destruct (initBuffers_passes _ _ _ Hrun)
    as (_ & _ & _ & _ & _ & _ & _ & Hmat & _).
  pose proof (initMaterialTextures_run dir (materials (Model.json this')))
    as Hdone.
  split.
  - rewrite <- Hmat. split.
    + intros (e & ts & Ht). rewrite Ht in Hdone. exact Hdone.
    + intros Hbad.
      destruct (ModelInit._initMaterialTextures dir _) as [ts|e ts];
        [|eexists; eexists; reflexivity].
      exfalso. destruct Hdone as (_ & Hall).
      rewrite Forall_forall in Hall. rewrite Exists_exists in Hbad.
      destruct Hbad as (cm & Hin & Hnone). exact (Hall cm Hin Hnone).
  - intros textures Ht. rewrite Ht in Hdone. destruct Hdone as (-> & _).
    split; [apply length_map|]. split.
    + intros i curMaterial Hi Hd. rewrite nth_error_map, Hi. simpl.
      unfold requestedTexture. rewrite Hd. reflexivity.
    + intros k m' Hk Htex.
      destruct (initBuffers_meshes _ _ _ Hrun) as (_ & _ & Hnth).
      destruct (Hnth k m' Hk)
        as (m & Hm & ((_ & _ & _ & _ & d5) & (b & Hb & _ & Hiff) & _)).
      rewrite Hb in Htex. simpl in Htex.
      assert (b = true) by (destruct b; [reflexivity|discriminate]). subst b.
      destruct (proj1 Hiff eq_refl)
        as (_ & curMaterial & Hcur & paths & Hd & Hne).
      destruct paths as [|path rest]; [contradiction|].
      rewrite Hmat, d5.
      exists curMaterial, path, rest. eexists.
      split; [exact Hcur|]. split; [exact Hd|].
      rewrite nth_error_map, Hcur. simpl. unfold requestedTexture.
      rewrite Hd. repeat split; reflexivity.
Qed.

(** X12.  On a scene description that has its [materials] array,
    [_initMaterialTextures] throws exactly when some material has no
    [diffuseTexture] property.  When it returns, it serves every mesh
    [_initBuffers] marked with [hasTexture]: the material such a mesh names
    exists, has a [diffuseTexture] entry, and gets a texture whose image is
    asked to load the first entry from the model's directory; a material
    whose [diffuseTexture] is empty gets no texture. *)
Theorem initMaterialTextures_serves_textured_meshes {F32 : Type}
  (this this' : Model.t F32) (locals : Model.Locals) (dir : string) :
  Model._initBuffers this = Normal (this', locals) ->
  ((exists e textures,
      ModelInit._initMaterialTextures dir (materials (Model.json this'))
        = Throw e textures)
   <-> Exists (fun curMaterial => diffuseTexture curMaterial = None)
         (materials (Model.json this))) /\
  forall textures,
    ModelInit._initMaterialTextures dir (materials (Model.json this'))
      = Normal textures ->
    List.length textures = List.length (materials (Model.json this')) /\
    (forall i curMaterial,
       nth_error (materials (Model.json this')) i = Some curMaterial ->
       diffuseTexture curMaterial = Some [] ->
       nth_error textures i = Some None) /\
    forall k m', nth_error (meshes (Model.json this')) k = Some m' ->
      truthy (hasTexture m') = true ->
      exists curMaterial path rest texture,
        nth_error (materials (Model.json this')) (materialIndex m')
          = Some curMaterial /\
        diffuseTexture curMaterial = Some (path :: rest) /\
        nth_error textures (materialIndex m') = Some (Some texture) /\
        Texture._image texture
          = Some {| src := Some (String.append dir path);
                    imageWidth := 0; imageHeight := 0 |} /\
        Texture.isLoaded texture = false.
Proof.
  exact (initMaterialTextures_requested this this' locals dir).
Qed.

(** X12 at the two-mesh scene, whose first mesh is textured and whose
    materials both have a [diffuseTexture] property: the brick texture is
    requested for the first material and none for the second. *)
Lemma initMaterialTextures_serves_textured_meshes_witness :
  exists this' locals texture,
    Model._initBuffers (Model.new exactArray twoMeshScene)
      = Normal (this', locals) /\
    ~ Exists (fun curMaterial => diffuseTexture curMaterial = None)
        (materials twoMeshScene) /\
    ModelInit._initMaterialTextures "models/"%string
      (materials (Model.json this')) = Normal [Some texture; None] /\
    Texture._image texture
      = Some {| src := Some "models/brick.png"%string;
                imageWidth := 0; imageHeight := 0 |} /\
    Texture.isLoaded texture = false.
Proof.
  assert (Hrun : exists this' locals,
             Model._initBuffers (Model.new exactArray twoMeshScene)
             = Normal (this', locals))
    by (eexists; eexists; run_initBuffers).
  destruct Hrun as (this' & locals & Hrun).
  destruct (initMaterialTextures_serves_textured_meshes
              (Model.new exactArray twoMeshScene) this' locals
              "models/"%string Hrun) as (Hthrows & Hserves).
  assert (Hgood : ~ Exists (fun curMaterial => diffuseTexture curMaterial = None)
                      (materials twoMeshScene)).
  { intros H. inversion H as [? ? H0|? ? H0]; subst; [discriminate|].
    inversion H0 as [? ? H1|? ? H1]; subst; [discriminate|inversion H1]. }
  destruct (ModelInit._initMaterialTextures "models/"%string
              (materials (Model.json this'))) as [textures|e textures] eqn:Ht.
  - destruct (Hserves textures eq_refl) as (Hlen & Hnone & Hmesh).
    assert (Hmats : materials (Model.json this') = materials twoMeshScene).
    { destruct (initBuffers_passes _ _ _ Hrun)
        as (_ & _ & _ & _ & _ & _ & _ & Hmat & _). exact Hmat. }
    assert (Hfirst : exists m', nth_error (meshes (Model.json this')) 0
                                 = Some m' /\
                                truthy (hasTexture m') = true /\
                                materialIndex m' = 0).
    { revert Hrun. unfold Model._initBuffers.
      cbv - [IZR Z.modulo]. intros H. injection H as <- _.
      eexists. split; [reflexivity|]. split; reflexivity. }
    destruct Hfirst as (m' & Hk & Htex & Hidx).
    destruct (Hmesh 0 m' Hk Htex)
      as (curMaterial & path & rest & texture & Hcur & Hd & Hth & Him & Hl).
    rewrite Hidx, Hmats in Hcur. injection Hcur as <-.
    injection Hd as <- <-. rewrite Hidx in Hth.
    rewrite Hmats in Hlen, Hnone.
    pose proof (Hnone 1 plainMaterial eq_refl eq_refl) as Hsecond.
    destruct textures as [|t0 [|t1 [|t2 ts]]]; try discriminate.
    injection Hth as ->. injection Hsecond as ->.
    exists this', locals, texture.
    split; [exact Hrun|]. split; [exact Hgood|].
    split; [exact Ht|]. split; [exact Him|exact Hl].
  - exfalso. apply Hgood. apply Hthrows. eexists. eexists. reflexivity.
Defined.

(** ** The extents *)

Lemma fold_Rmin_bound (l : list R) :
  forall a : R,
  (fold_left Rmin l a <= a)%R /\
  (forall x, In x l -> (fold_left Rmin l a <= x)%R) /\
  (fold_left Rmin l a = a \/ In (fold_left Rmin l a) l).
Proof.
  induction l as [|y l IH]; intros a.
  - simpl. split; [lra|]. split; [intros x []|left; reflexivity].
  - cbn [fold_left]. destruct (IH (Rmin a y)) as (H1 & H2 & H3).
    pose proof (Rmin_l a y). pose proof (Rmin_r a y).
    split; [lra|]. split.
    + intros x [<-|Hx]; [lra|apply H2; exact Hx].
    + destruct H3 as [H3|H3]; [|right; right; exact H3].
      rewrite H3. unfold Rmin. destruct (Rle_dec a y);
        [left; reflexivity|right; left; reflexivity].
Qed.

Lemma fold_Rmax_bound (l : list R) :
  forall a : R,
  (a <= fold_left Rmax l a)%R /\
  (forall x, In x l -> (x <= fold_left Rmax l a)%R) /\
  (fold_left Rmax l a = a \/ In (fold_left Rmax l a) l).
Proof.
  induction l as [|y l IH]; intros a.
  - simpl. split; [lra|]. split; [intros x []|left; reflexivity].
  - cbn [fold_left]. destruct (IH (Rmax a y)) as (H1 & H2 & H3).
    pose proof (Rmax_l a y). pose proof (Rmax_r a y).
    split; [lra|]. split.
    + intros x [<-|Hx]; [lra|apply H2; exact Hx].
    + destruct H3 as [H3|H3]; [|right; right; exact H3].
      rewrite H3. unfold Rmax. destruct (Rle_dec a y);
        [right; left; reflexivity|left; reflexivity].
Qed.

(** X13.  When the points the scan visits are all real, the box from [min]
    to [max] that [_computeExtents] leaves contains every one of them, and
    each of its six bounds is the coordinate of a visited point or the
    value the scan started from: [Number.MAX_VALUE] for [min],
    [-Number.MIN_VALUE] for [max]. *)
Theorem computeExtents_encloses {F32 : Type} (this this' : Model.t F32)
  (pts : list (R * R * R)) :
  Model._computeExtents this = Normal this' ->
  visitedPoints (Model.json this)
    = map (fun p => vec (fst (fst p)) (snd (fst p)) (snd p)) pts ->
  exists a b c a' b' c' : R,
    Model.min this' = vec a b c /\
    Model.max this' = vec a' b' c' /\
    (forall x y z, In (x, y, z) pts ->
       (a <= x <= a')%R /\ (b <= y <= b')%R /\ (c <= z <= c')%R) /\
    (a = Number_MAX_VALUE \/ In a (map (fun p => fst (fst p)) pts)) /\
    (b = Number_MAX_VALUE \/ In b (map (fun p => snd (fst p)) pts)) /\
    (c = Number_MAX_VALUE \/ In c (map (fun p => snd p) pts)) /\
    (a' = (- Number_MIN_VALUE)%R \/ In a' (map (fun p => fst (fst p)) pts)) /\
    (b' = (- Number_MIN_VALUE)%R \/ In b' (map (fun p => snd (fst p)) pts)) /\
    (c' = (- Number_MIN_VALUE)%R \/ In c' (map (fun p => snd p) pts)).
Proof.
  intros Hrun Hpts.
  destruct (computeExtents_scan this this' Hrun) as (Hscan & _).
  rewrite Hpts, scan_real in Hscan. inversion Hscan as [[Hmin Hmax]].
  do 6 eexists. split; [exact Hmin|]. split; [exact Hmax|].
  destruct (fold_Rmin_bound (map (fun p => fst (fst p)) pts)
              Number_MAX_VALUE) as (_ & Hx1 & Hx2).
  destruct (fold_Rmin_bound (map (fun p => snd (fst p)) pts)
              Number_MAX_VALUE) as (_ & Hy1 & Hy2).
  destruct (fold_Rmin_bound (map (fun p => snd p) pts)
              Number_MAX_VALUE) as (_ & Hz1 & Hz2).
  destruct (fold_Rmax_bound (map (fun p => fst (fst p)) pts)
              (- Number_MIN_VALUE)%R) as (_ & Hx3 & Hx4).
  destruct (fold_Rmax_bound (map (fun p => snd (fst p)) pts)
              (- Number_MIN_VALUE)%R) as (_ & Hy3 & Hy4).
  destruct (fold_Rmax_bound (map (fun p => snd p) pts)
              (- Number_MIN_VALUE)%R) as (_ & Hz3 & Hz4).
  split; [|repeat split; assumption].
  intros x y z Hin.
  assert (Ix : In x (map (fun p => fst (fst p)) pts))
    by (apply (in_map (fun p : R * R * R => fst (fst p)) pts (x, y, z) Hin)).
  assert (Iy : In y (map (fun p => snd (fst p)) pts))
    by (apply (in_map (fun p : R * R * R => snd (fst p)) pts (x, y, z) Hin)).
  assert (Iz : In z (map (fun p => snd p) pts))
    by (apply (in_map (fun p : R * R * R => snd p) pts (x, y, z) Hin)).
  repeat split; auto.
Qed.

Lemma triangle_translated_points :
  visitedPoints (triangleScene (mat4.translation 5 0 0))
  = map (fun p => vec (fst (fst p)) (snd (fst p)) (snd p))
      [(5, 0, 0); (7, 0, 0); (5, 2, 0)]%R.
Proof.
  eval_points. repeat f_equal; lra.
Qed.

(** X13 at the triangle of the extents examples, moved by 5 along x. *)
Lemma computeExtents_encloses_witness :
  exists this',
    Model._computeExtents
      (Model.new exactArray (triangleScene (mat4.translation 5 0 0)))
      = Normal this' /\
    exists a b c a' b' c' : R,
      Model.min this' = vec a b c /\
      Model.max this' = vec a' b' c' /\
      (forall x y z, In (x, y, z) [(5, 0, 0); (7, 0, 0); (5, 2, 0)]%R ->
         (a <= x <= a')%R /\ (b <= y <= b')%R /\ (c <= z <= c')%R).
Proof.
  eexists. split; [reflexivity|].
  destruct (computeExtents_encloses
              (Model.new exactArray (triangleScene (mat4.translation 5 0 0)))
              _ [(5, 0, 0); (7, 0, 0); (5, 2, 0)]%R eq_refl
              triangle_translated_points)
    as (a & b & c & a' & b' & c' & Hmin & Hmax & Hin & _).
  exists a, b, c, a', b', c'.
  split; [exact Hmin|]. split; [exact Hmax|exact Hin].
Defined.

Lemma extentsVertexLoop_run (node : Node) (curVerts : list R)
  (mn mx : vec3.t) :
  Model.extentsVertexLoop (List.length curVerts) node curVerts 0 mn mx
  = match modelMatrix node, curVerts with
    | Some mat, _ =>
      Normal (fold_left scanStep
                (map (transformPoint mat) (meshVertices curVerts)) (mn, mx))
    | None, [] => Normal (mn, mx)
    | None, _ :: _ => Throw TypeError tt
    end.
Proof.
  destruct (modelMatrix node) as [mat|] eqn:Hm.
  - rewrite (extentsVertexLoop_scan node mat curVerts Hm) by lia.
    reflexivity.
  - apply extentsVertexLoop_unplaced. exact Hm.
Qed.

Lemma extentsMeshLoop_throws_iff (ms : list Mesh) (node : Node)
  (idxs : list nat) :
  forall mn mx,
  (exists u, Model.extentsMeshLoop ms node idxs mn mx = Throw TypeError u)
  <-> (Exists (dangling ms) idxs \/
       (modelMatrix node = None /\ Exists (populated ms) idxs)).
Proof.
  induction idxs as [|idx idxs IH]; intros mn mx.
  - simpl. split; [intros (u & H); discriminate|].
    intros [H|(_ & H)]; inversion H.
  - cbn [Model.extentsMeshLoop]. rewrite !Exists_cons.
    unfold dangling at 1, populated at 1.
    destruct (nth_error ms idx) as [mesh|] eqn:Hn;
      [|split; [intros _; left; left; exact I|intros _; eexists; reflexivity]].
    destruct (vertexPositions mesh) as [curVerts|] eqn:Hv;
      [|split; [intros _; left; left; reflexivity
               |intros _; eexists; reflexivity]].
    rewrite extentsVertexLoop_run.
    destruct (modelMatrix node) as [mat|] eqn:Hm.
    + destruct (fold_left scanStep _ (mn, mx)) as [mn1 mx1].
      rewrite (IH mn1 mx1). split.
      * intros [H|(H & _)]; [left; right; exact H|discriminate].
      * intros [[H|H]|(H & _)];
          [discriminate|left; exact H|discriminate].
    + destruct curVerts as [|x rest].
      * rewrite (IH mn mx). split.
        -- intros [H|(_ & H)]; [left; right; exact H|].
           right. split; [reflexivity|right; exact H].
        -- intros [[H|H]|(_ & [H|H])].
           ++ discriminate.
           ++ left. exact H.
           ++ destruct H as (m0 & p0 & Hm0 & Hp0 & Hne).
              inversion Hm0; subst. rewrite Hv in Hp0.
              inversion Hp0; subst. contradiction.
           ++ right. split; [reflexivity|exact H].
      * split; [|intros _; eexists; reflexivity].
        intros _. right. split; [reflexivity|]. left.
        exists mesh, (x :: rest).
        split; [reflexivity|]. split; [exact Hv|discriminate].
Qed.

Lemma extentsNodeLoop_throws_iff (ms : list Mesh) (nds : list Node) :
  forall mn mx,
  (exists u, Model.extentsNodeLoop ms nds mn mx = Throw TypeError u)
  <-> Exists (unscannable ms) nds.
Proof.
  induction nds as [|node nds IH]; intros mn mx.
  - simpl. split; [intros (u & H); discriminate|intros H; inversion H].
  - cbn [Model.extentsNodeLoop]. rewrite Exists_cons.
    unfold unscannable at 1.
    destruct (meshIndices node) as [idxs|];
      [|split; [intros _; left; exact I|intros _; eexists; reflexivity]].
    pose proof (extentsMeshLoop_throws_iff ms node idxs mn mx) as Hm.
    destruct (Model.extentsMeshLoop ms node idxs mn mx)
      as [[mn1 mx1]|[] u] eqn:Hl.
    + rewrite (IH mn1 mx1). split.
      * intros H. right. exact H.
      * intros [H|H]; [|exact H].
        apply Hm in H. destruct H as (u & Hu). discriminate.
    + split; [|intros _; eexists; reflexivity].
      intros _. left. apply Hm. eexists. reflexivity.
Qed.

Lemma computeExtents_throws_when {F32 : Type} (this : Model.t F32) :
  ((exists s, Model._computeExtents this = Throw TypeError s)
   <-> danglingReference (Model.json this)) /\
  (forall e s, Model._computeExtents this = Throw e s -> s = this).
Proof.
  unfold danglingReference.
  rewrite <- (extentsNodeLoop_throws_iff (meshes (Model.json this))
                (nodes (Model.json this)) (fst sentinels) (snd sentinels)).
  unfold Model._computeExtents, vec3.createFrom, sentinels.
  cbn [fst snd].
  destruct (Model.extentsNodeLoop _ _ _ _) as [[mn mx]|[] u].
  - split; [|intros e s H; discriminate].
    split; intros (s & H); discriminate.
  - split; [|intros e s H; inversion H; reflexivity].
    split; intros _; eexists; reflexivity.
Qed.

(** X14.  On a scene description that has its [meshes] and [nodes]
    arrays, [_computeExtents] throws exactly when some node has no
    [meshIndices], or lists a mesh index that names no mesh of the scene
    or a mesh without [vertexPositions], or has no [modelMatrix] while it
    lists a mesh with at least one position number; it then leaves the
    model as it was, [min], [max], [center] and [diagonal] included. *)
Theorem computeExtents_throws_iff {F32 : Type} (this : Model.t F32) :
  ((exists s, Model._computeExtents this = Throw TypeError s)
   <-> danglingReference (Model.json this)) /\
  (forall e s, Model._computeExtents this = Throw e s -> s = this).
Proof.
  exact (computeExtents_throws_when this).
Qed.

Lemma strayScene_dangling : danglingReference strayScene.
Proof.
  apply Exists_cons_hd. left. apply Exists_cons_tl. apply Exists_cons_hd.
  exact I.
Qed.

Lemma looseScene_dangling : danglingReference looseScene.
Proof.
  apply Exists_cons_hd. exact I.
Qed.

Lemma unplacedScene_dangling : danglingReference unplacedScene.
Proof.
  apply Exists_cons_tl. apply Exists_cons_hd. right.
  split; [reflexivity|]. apply Exists_cons_hd.
  exists triangleMesh, [0; 0; 0; 2; 0; 0; 0; 2; 0]%R.
  split; [reflexivity|]. split; [reflexivity|discriminate].
Qed.

(** X14 at a node that lists a mesh the scene does not have, at a node
    without [meshIndices] and at a node without [modelMatrix]. *)
Lemma computeExtents_throws_iff_witness :
  (danglingReference strayScene /\
   Model._computeExtents (Model.new exactArray strayScene)
   = Throw TypeError (Model.new exactArray strayScene)) /\
  (danglingReference looseScene /\
   Model._computeExtents (Model.new exactArray looseScene)
   = Throw TypeError (Model.new exactArray looseScene)) /\
  (danglingReference unplacedScene /\
   Model._computeExtents (Model.new exactArray unplacedScene)
   = Throw TypeError (Model.new exactArray unplacedScene)).
Proof.
  assert (Hat : forall s, danglingReference s ->
            Model._computeExtents (Model.new exactArray s)
            = Throw TypeError (Model.new exactArray s)).
  { intros s Hbad.
    destruct (computeExtents_throws_iff (Model.new exactArray s))
      as (Hiff & Hsame).
    destruct (proj2 Hiff Hbad) as (s' & Hs).
    rewrite Hs. f_equal. apply (Hsame _ _ Hs). }
  split; [split; [exact strayScene_dangling
                 |exact (Hat _ strayScene_dangling)]|].
  split; [split; [exact looseScene_dangling
                 |exact (Hat _ looseScene_dangling)]|].
  split; [exact unplacedScene_dangling|exact (Hat _ unplacedScene_dangling)].
Defined.

Lemma extentsVertexLoop_node (n1 n2 : Node) (curVerts : list R) :
  modelMatrix n1 = modelMatrix n2 ->
  forall fuel k mn mx,
    Model.extentsVertexLoop fuel n1 curVerts k mn mx
    = Model.extentsVertexLoop fuel n2 curVerts k mn mx.
Proof.
  intros Hm. induction fuel as [|fuel IH]; intros k mn mx; [reflexivity|].
  cbn [Model.extentsVertexLoop]. rewrite Hm.
  destruct (k <? List.length curVerts); [|reflexivity].
  destruct (modelMatrix n2); [apply IH|reflexivity].
Qed.

Lemma extentsMeshLoop_node (ms : list Mesh) (n1 n2 : Node)
  (idxs : list nat) :
  modelMatrix n1 = modelMatrix n2 ->
  forall mn mx,
    Model.extentsMeshLoop ms n1 idxs mn mx
    = Model.extentsMeshLoop ms n2 idxs mn mx.
Proof.
  intros Hm. induction idxs as [|idx idxs IH]; intros mn mx; [reflexivity|].
  cbn [Model.extentsMeshLoop].
  destruct (nth_error ms idx) as [mesh|]; [|reflexivity].
  destruct (vertexPositions mesh) as [curVerts|]; [|reflexivity].
  rewrite (extentsVertexLoop_node n1 n2 curVerts Hm).
  destruct (Model.extentsVertexLoop _ n2 curVerts 0 mn mx)
    as [[mn1 mx1]|]; [apply IH|reflexivity].
Qed.

Lemma extentsNodeLoop_nodes (ms : list Mesh) (nds' nds : list Node) :
  Forall2 sameReferences nds' nds ->
  forall mn mx,
    Model.extentsNodeLoop ms nds' mn mx = Model.extentsNodeLoop ms nds mn mx.
Proof.
  induction 1 as [|node' node nds' nds (Hm & Hi) _ IH]; intros mn mx;
    [reflexivity|].
  cbn [Model.extentsNodeLoop]. rewrite Hi.
  destruct (meshIndices node) as [idxs|]; [|reflexivity].
  rewrite (extentsMeshLoop_node ms node' node idxs Hm).
  destruct (Model.extentsMeshLoop ms node idxs mn mx)
    as [[mn1 mx1]|]; [apply IH|reflexivity].
Qed.

(** Whether the loop body returns or throws, the node it leaves has the
    [modelMatrix] and [meshIndices] it had. *)
Lemma normalMatrixBody_keeps (degenerate : mat4.Degenerate) (node : Node) :
  match Model.normalMatrixBody degenerate node with
  | Normal node' | Throw _ node' => sameReferences node' node
  end.
Proof.
  unfold Model.normalMatrixBody, sameReferences.
  destruct node as [[mat|] idxs nm]; cbn; [|split; reflexivity].
  destruct (mat4.inverse degenerate mat (mat4.Numbers mat4.create)); split; reflexivity.
Qed.

Lemma normalMatrixLoop_keeps (degenerate : mat4.Degenerate)
  (nds : list Node) :
  match Model.normalMatrixLoop degenerate nds with
  | Normal nds' | Throw _ nds' => Forall2 sameReferences nds' nds
  end.
Proof.
  assert (Hrefl : forall l : list Node, Forall2 sameReferences l l).
  { induction l; constructor; [split; reflexivity|assumption]. }
  induction nds as [|node nds IH]; [constructor|].
  cbn [Model.normalMatrixLoop].
  pose proof (normalMatrixBody_keeps degenerate node) as Hb.
  destruct (Model.normalMatrixBody degenerate node) as [node'|e node'].
  - destruct (Model.normalMatrixLoop degenerate nds) as [nds'|e nds'];
      constructor; assumption.
  - constructor; [exact Hb|apply Hrefl].
Qed.

Lemma initNormalMatrices_keeps {F32 : Type} (degenerate : mat4.Degenerate)
  (this : Model.t F32) :
  match Model._initNormalMatrices degenerate this with
  | Normal this' | Throw _ this' => sameButNormalMatrices this' this
  end.
Proof.
  unfold Model._initNormalMatrices, sameButNormalMatrices.
  pose proof (normalMatrixLoop_keeps degenerate (nodes (Model.json this)))
    as Hl.
  destruct (Model.normalMatrixLoop degenerate (nodes (Model.json this)));
    repeat split; try reflexivity; exact Hl.
Qed.

Lemma initBuffers_keeps_positions {F32 : Type} (this this' : Model.t F32)
  (locals : Model.Locals) :
  Model._initBuffers this = Normal (this', locals) ->
  forall idx,
    option_map vertexPositions (nth_error (meshes (Model.json this')) idx)
    = option_map vertexPositions (nth_error (meshes (Model.json this)) idx).
Proof.
  intros Hrun idx.
  destruct (initBuffers_meshes _ _ _ Hrun) as (Hlen & _ & Hnth).
  destruct (nth_error (meshes (Model.json this')) idx) as [m'|] eqn:Hm'.
  - destruct (Hnth idx m' Hm') as (m & Hm & (d1 & _) & _).
    rewrite Hm. simpl. rewrite d1. reflexivity.
  - apply nth_error_None in Hm'. rewrite Hlen in Hm'.
    apply nth_error_None in Hm'. rewrite Hm'. reflexivity.
Qed.

Lemma computeExtents_same_scan {F32 : Type} (this that : Model.t F32) :
  Model.extentsNodeLoop (meshes (Model.json that)) (nodes (Model.json that))
    (fst sentinels) (snd sentinels)
  = Model.extentsNodeLoop (meshes (Model.json this)) (nodes (Model.json this))
      (fst sentinels) (snd sentinels) ->
  extentsOf (Model._computeExtents that)
  = extentsOf (Model._computeExtents this).
Proof.
  unfold Model._computeExtents, vec3.createFrom, sentinels. cbn [fst snd].
  intros ->.
  destruct (Model.extentsNodeLoop _ _ _ _) as [[mn mx]|]; reflexivity.
Qed.

Lemma computeExtents_after_init {F32 : Type} (degenerate : mat4.Degenerate)
  (this this1 this2 : Model.t F32) (locals : Model.Locals) :
  Model._initBuffers this = Normal (this1, locals) ->
  Model._initNormalMatrices degenerate this1 = Normal this2 ->
  extentsOf (Model._computeExtents this2)
  = extentsOf (Model._computeExtents this).
Proof.
  intros Hb Hn. apply computeExtents_same_scan.
  pose proof (initNormalMatrices_keeps degenerate this1) as Hk.
  rewrite Hn in Hk.
  destruct Hk as (Hms & _ & _ & _ & _ & _ & _ & _ & Hnds).
  rewrite Hms, (extentsNodeLoop_nodes _ _ _ Hnds).
  destruct (initBuffers_passes _ _ _ Hb)
    as (_ & _ & _ & _ & _ & _ & _ & _ & Hnodes).
  rewrite Hnodes.
  apply extentsNodeLoop_agree. intros node idxs idx _ _ _.
  apply (initBuffers_keeps_positions _ _ _ Hb).
Qed.

(** X15.  The extents do not depend on the steps [initialize] runs before
    [_computeExtents]: after [_initBuffers] and [_initNormalMatrices] the
    scan gives the [min], [max], [center] and [diagonal] it gives on the
    model as constructed, and throws when it throws there, whatever the
    matrix library does with singular matrices. *)
Theorem computeExtents_independent_of_init {F32 : Type}
  (degenerate : mat4.Degenerate)
  (this this1 this2 : Model.t F32) (locals : Model.Locals) :
  Model._initBuffers this = Normal (this1, locals) ->
  Model._initNormalMatrices degenerate this1 = Normal this2 ->
  extentsOf (Model._computeExtents this2)
  = extentsOf (Model._computeExtents this).
Proof.
  exact (computeExtents_after_init degenerate this this1 this2 locals).
Qed.

(** X15 at the triangle moved by 5 along x. *)
Lemma computeExtents_independent_of_init_witness :
  exists this1 locals this2,
    Model._initBuffers
      (Model.new exactArray (triangleScene (mat4.translation 5 0 0)))
      = Normal (this1, locals) /\
    Model._initNormalMatrices throwsOnSingular this1 = Normal this2 /\
    extentsOf (Model._computeExtents this2)
    = extentsOf (Model._computeExtents
                   (Model.new exactArray
                      (triangleScene (mat4.translation 5 0 0)))).
Proof.
  assert (Hb : exists this1 locals,
             Model._initBuffers
               (Model.new exactArray (triangleScene (mat4.translation 5 0 0)))
             = Normal (this1, locals))
    by (eexists; eexists; run_initBuffers).
  destruct Hb as (this1 & locals & Hb).
  assert (Hn : exists this2,
             Model._initNormalMatrices throwsOnSingular this1 = Normal this2).
  { destruct (initNormalMatrices_returns_or_throws throwsOnSingular this1)
      as [Hret|Hthrow]; [exact Hret|exfalso].
    apply initNormalMatrices_throws_when in Hthrow.
    destruct (initBuffers_passes _ _ _ Hb)
      as (_ & _ & _ & _ & _ & _ & _ & _ & Hnodes).
    rewrite Hnodes in Hthrow.
    inversion Hthrow as [? ? Hh|? ? Ht]; subst; [|inversion Ht].
    destruct Hh as (Hdet & _). revert Hdet. mat_unfold. lra. }
  destruct Hn as (this2 & Hn).
  exists this1, locals, this2.
  split; [exact Hb|]. split; [exact Hn|].
  exact (computeExtents_independent_of_init throwsOnSingular _ this1 this2
           locals Hb Hn).
Defined.

(** ** initialize *)

Lemma extentsOf_throws {F32 : Type}
  (c : Completion (Model.t F32) (Model.t F32)) :
  extentsOf c = None <-> exists s, c = Throw TypeError s.
Proof.
  destruct c as [this|[] s]; simpl.
  - split; [discriminate|intros (s & H); discriminate].
  - split; [intros _; eexists; reflexivity|reflexivity].
Qed.


Lemma materials_all_or_some (materials : list Material) :
  Forall (fun curMaterial => diffuseTexture curMaterial <> None) materials ->
  ~ Exists (fun curMaterial => diffuseTexture curMaterial = None) materials.
Proof.
  intros Hall Hbad. rewrite Forall_forall in Hall.
  rewrite Exists_exists in Hbad. destruct Hbad as (cm & Hin & Hnone).
  exact (Hall cm Hin Hnone).
Qed.

(** The four steps of [initialize], each with what decides it. *)
Lemma initialize_steps {F32 : Type} (degenerate : mat4.Degenerate)
  (dir : string) (this : Model.t F32) :
  match Model._initBuffers this with
  | Throw _ s =>
    Exists (unsizable (materials (Model.json this)))
      (meshes (Model.json this)) /\
    ModelInit.initialize degenerate dir this = Throw TypeError s /\
    Model.vbo s = Model.vbo this /\ Model.ibo s = Model.ibo this /\
    nodes (Model.json s) = nodes (Model.json this)
  | Normal (this1, _) =>
    ~ Exists (unsizable (materials (Model.json this)))
        (meshes (Model.json this)) /\
    match ModelInit._initMaterialTextures dir (materials (Model.json this))
    with
    | Throw _ _ =>
      Exists (fun curMaterial => diffuseTexture curMaterial = None)
        (materials (Model.json this)) /\
      ModelInit.initialize degenerate dir this = Throw TypeError this1
    | Normal textures =>
      Forall (fun curMaterial => diffuseTexture curMaterial <> None)
        (materials (Model.json this)) /\
      textures = map (requestedTexture dir) (materials (Model.json this)) /\
      match Model.normalMatrixLoop degenerate (nodes (Model.json this)) with
      | Throw _ nds' =>
        Exists (uninvertible degenerate) (nodes (Model.json this)) /\
        ModelInit.initialize degenerate dir this
        = Throw TypeError (Model.with_nodes this1 nds')
      | Normal nds' =>
        ~ Exists (uninvertible degenerate) (nodes (Model.json this)) /\
        match Model._computeExtents this with
        | Throw _ _ =>
          danglingReference (Model.json this) /\
          ModelInit.initialize degenerate dir this
          = Throw TypeError (Model.with_nodes this1 nds')
        | Normal that =>
          ~ danglingReference (Model.json this) /\
          exists this',
            ModelInit.initialize degenerate dir this
            = Normal (this', textures) /\
            Model.json this' = Model.json (Model.with_nodes this1 nds') /\
            Model.vbo this' = Model.vbo this1 /\
            Model.ibo this' = Model.ibo this1 /\
            extentsOf (Normal this') = extentsOf (Normal that)
        end
      end
    end
  end.
Proof.
  unfold ModelInit.initialize.
  destruct (initBuffers_throws_when this) as (Hbt & Hkeep).
  destruct (computeExtents_throws_when this) as (Hct & _).
  destruct (Model._initBuffers this) as [[this1 locals]|[] s] eqn:Hb.
  - assert (Hsz : ~ Exists (unsizable (materials (Model.json this)))
                      (meshes (Model.json this))).
    { intros Hbad. apply Hbt in Hbad. destruct Hbad as (s & Hs).
      congruence. }
    split; [exact Hsz|].
    destruct (initBuffers_passes _ _ _ Hb)
      as (_ & _ & _ & _ & _ & _ & _ & Hmat & Hnodes).
    rewrite Hmat.
    pose proof (initMaterialTextures_run dir (materials (Model.json this)))
      as Htx.
    destruct (ModelInit._initMaterialTextures dir
                (materials (Model.json this))) as [textures|[] ts];
      [|split; [exact Htx|reflexivity]].
    destruct Htx as (Htex & Hall).
    split; [exact Hall|]. split; [exact Htex|].
    pose proof (normalMatrixLoop_throws_iff degenerate
                  (nodes (Model.json this))) as Hnt.
    pose proof (computeExtents_after_init degenerate this this1) as Hext.
    unfold Model._initNormalMatrices in *. rewrite Hnodes in *.
    destruct (Model.normalMatrixLoop degenerate (nodes (Model.json this)))
      as [nds'|[] nds'].
    + assert (Hinv : ~ Exists (uninvertible degenerate)
                         (nodes (Model.json this))).
      { intros Hbad. apply Hnt in Hbad. destruct Hbad as (e & s & Hs).
        discriminate. }
      split; [exact Hinv|].
      specialize (Hext _ locals Hb eq_refl).
      destruct (computeExtents_throws_when (Model.with_nodes this1 nds'))
        as (_ & Hsame).
      destruct (Model._computeExtents this) as [that|[] s0] eqn:Hc0.
      * assert (Hnd : ~ danglingReference (Model.json this)).
        { intros Hbad. apply Hct in Hbad. destruct Hbad as (s & Hs).
          congruence. }
        split; [exact Hnd|].
        destruct (Model._computeExtents (Model.with_nodes this1 nds'))
          as [this'|[] s] eqn:Hc; [|discriminate].
        exists this'. split; [reflexivity|].
        split; [|split; [|split; [|exact Hext]]].
        all: unfold Model._computeExtents in Hc;
          destruct (Model.extentsNodeLoop _ _ _ _) as [[mn mx]|];
          [|discriminate]; inversion Hc; reflexivity.
      * split; [apply Hct; eexists; reflexivity|].
        destruct (Model._computeExtents (Model.with_nodes this1 nds'))
          as [this'|[] s] eqn:Hc; [discriminate|].
        rewrite (Hsame _ _ eq_refl). reflexivity.
    + split; [|reflexivity].
      apply Hnt. eexists. eexists. reflexivity.
  - split; [apply Hbt; eexists; reflexivity|].
    split; [reflexivity|].
    destruct (Hkeep _ _ eq_refl) as (Hv & Hi & _ & Hn). auto.
Qed.

Lemma initialize_returns_when {F32 : Type} (degenerate : mat4.Degenerate)
  (dir : string) (this : Model.t F32) :
  ((exists r, ModelInit.initialize degenerate dir this = Normal r)
   <-> initializable degenerate (Model.json this)) /\
  (forall this' textures,
     ModelInit.initialize degenerate dir this = Normal (this', textures) ->
     exists this1 locals,
       Model._initBuffers this = Normal (this1, locals) /\
       Model.vbo this' = Model.vbo this1 /\
       Model.ibo this' = Model.ibo this1 /\
       meshes (Model.json this') = meshes (Model.json this1) /\
       materials (Model.json this') = materials (Model.json this) /\
       Model.normalMatrixLoop degenerate (nodes (Model.json this))
         = Normal (nodes (Model.json this')) /\
       textures = map (requestedTexture dir) (materials (Model.json this)) /\
       extentsOf (Model._computeExtents this)
         = Some (Model.min this', Model.max this', Model.center this',
                 Model.diagonal this')).
Proof.
  pose proof (initialize_steps degenerate dir this) as Hsteps.
  unfold initializable.
  destruct (Model._initBuffers this) as [[this1 locals]|e s] eqn:Hb.
  - destruct Hsteps as (Hsz & Hsteps).
    destruct (initBuffers_passes _ _ _ Hb)
      as (_ & _ & _ & _ & _ & _ & _ & Hmat & _).
    destruct (ModelInit._initMaterialTextures dir
                (materials (Model.json this))) as [textures|e ts].
    + destruct Hsteps as (Hall & Htex & Hsteps).
      destruct (Model.normalMatrixLoop degenerate (nodes (Model.json this)))
        as [nds'|e nds'].
      * destruct Hsteps as (Hinv & Hsteps).
        destruct (Model._computeExtents this) as [that|e s0].
        -- destruct Hsteps as (Hnd & this' & Hrun & Hj & Hv & Hi & Hext).
           rewrite Hrun. split.
           ++ split; [intros _; repeat split; assumption|].
              intros _. eexists. reflexivity.
           ++ intros this'' textures' H. inversion H; subst; clear H.
              exists this1, locals. split; [reflexivity|].
              rewrite Hj. cbn [Model.json Model.with_nodes meshes materials
                               nodes].
              repeat split; try assumption; try reflexivity.
              symmetry. exact Hext.
        -- destruct Hsteps as (Hbad & Hrun). rewrite Hrun.
           split; [|intros ? ? H; discriminate].
           split; [intros (r & H); discriminate|].
           intros (_ & _ & _ & Hok). contradiction.
      * destruct Hsteps as (Hbad & Hrun). rewrite Hrun.
        split; [|intros ? ? H; discriminate].
        split; [intros (r & H); discriminate|].
        intros (_ & _ & Hok & _). contradiction.
    + destruct Hsteps as (Hbad & Hrun). rewrite Hrun.
      split; [|intros ? ? H; discriminate].
      split; [intros (r & H); discriminate|].
      intros (_ & Hok & _). exfalso.
      exact (materials_all_or_some _ Hok Hbad).
  - destruct Hsteps as (Hbad & Hrun & _). rewrite Hrun.
    split; [|intros ? ? H; discriminate].
    split; [intros (r & H); discriminate|].
    intros (Hok & _). contradiction.
Qed.

(** X16.  On a scene description that has its [meshes], [materials] and
    [nodes] arrays, [initialize] runs to its end exactly when every mesh
    has [vertexPositions] and [vertexNormals]; every mesh with texture
    coordinates names a material of the scene; every material has a
    [diffuseTexture] property; every node has a [modelMatrix] on which
    [mat4.inverse] does not throw; and every node has [meshIndices] that
    list only meshes of the scene.  It then leaves the buffers and meshes
    of [_initBuffers], the nodes the normal-matrix loop returns, the
    textures of [_initMaterialTextures], and the extents [_computeExtents]
    gives on the model as constructed. *)
Theorem initialize_returns_iff {F32 : Type} (degenerate : mat4.Degenerate)
  (dir : string) (this : Model.t F32) :
  ((exists r, ModelInit.initialize degenerate dir this = Normal r)
   <-> initializable degenerate (Model.json this)) /\
  (forall this' textures,
     ModelInit.initialize degenerate dir this = Normal (this', textures) ->
     exists this1 locals,
       Model._initBuffers this = Normal (this1, locals) /\
       Model.vbo this' = Model.vbo this1 /\
       Model.ibo this' = Model.ibo this1 /\
       meshes (Model.json this') = meshes (Model.json this1) /\
       materials (Model.json this') = materials (Model.json this) /\
       Model.normalMatrixLoop degenerate (nodes (Model.json this))
         = Normal (nodes (Model.json this')) /\
       textures = map (requestedTexture dir) (materials (Model.json this)) /\
       extentsOf (Model._computeExtents this)
         = Some (Model.min this', Model.max this', Model.center this',
                 Model.diagonal this')).
Proof.
  exact (initialize_returns_when degenerate dir this).
Qed.

Lemma plain_sizable (m : Mesh) (materials : list Material) :
  vertexPositions m <> None -> vertexNormals m <> None ->
  texChannel0 m = None -> ~ unsizable materials m.
Proof.
  intros Hp Hn Ht [H|[H|((tc & Htc & _) & _)]]; congruence.
Qed.

Lemma triangleScene_initializable (degenerate : mat4.Degenerate) :
  initializable degenerate (triangleScene mat4.identity).
Proof.
  split; [|split; [|split]].
  - intros H. inversion H as [? ? Hh|? ? Ht]; subst; [|inversion Ht].
    revert Hh. apply plain_sizable; [discriminate|discriminate|reflexivity].
  - repeat constructor. discriminate.
  - intros H. inversion H as [? ? Hh|? ? Ht]; subst; [|inversion Ht].
    destruct Hh as (Hdet & _). revert Hdet. mat_unfold. lra.
  - intros H. inversion H as [? ? Hh|? ? Ht]; subst; [|inversion Ht].
    destruct Hh as [Hh|(Hh & _)]; [|discriminate].
    inversion Hh as [? ? Hd|? ? Hd]; subst; [discriminate|inversion Hd].
Qed.

Lemma bareMaterialScene_uninitializable (degenerate : mat4.Degenerate) :
  ~ initializable degenerate bareMaterialScene.
Proof.
  intros (_ & Hall & _).
  inversion Hall as [|? ? _ Hrest]; subst.
  inversion Hrest as [|? ? Hbare _]; subst. apply Hbare. reflexivity.
Qed.

(** X16 at the triangle under an identity node, where [initialize] returns,
    and at a scene with a material without [diffuseTexture], where it does
    not. *)
Lemma initialize_returns_iff_witness :
  (initializable throwsOnSingular (triangleScene mat4.identity) /\
   exists r,
     ModelInit.initialize throwsOnSingular "models/"%string
       (Model.new exactArray (triangleScene mat4.identity)) = Normal r) /\
  (~ initializable throwsOnSingular bareMaterialScene /\
   ~ exists r,
       ModelInit.initialize throwsOnSingular "models/"%string
         (Model.new exactArray bareMaterialScene) = Normal r).
Proof.
  split.
  - split; [exact (triangleScene_initializable throwsOnSingular)|].
    apply (proj2 (proj1 (initialize_returns_iff throwsOnSingular
                           "models/"%string
                           (Model.new exactArray
                              (triangleScene mat4.identity))))).
    exact (triangleScene_initializable throwsOnSingular).
  - split; [exact (bareMaterialScene_uninitializable throwsOnSingular)|].
    intros Hret.
    apply (bareMaterialScene_uninitializable throwsOnSingular).
    apply (proj1 (proj1 (initialize_returns_iff throwsOnSingular
                           "models/"%string
                           (Model.new exactArray bareMaterialScene)))).
    exact Hret.
Defined.






(** ** Indices and [Uint16Array] *)

Lemma Uint16Array_exact (array : list Z) :
  map (element Uint16Array) array = array
  <-> Forall (fun i => (0 <= i < 65536)%Z) array.
Proof.
  induction array as [|i array IH].
  - split; [constructor|reflexivity].
  - cbn [map]. split.
    + intros H. injection H as Hi Hrest. constructor.
      * simpl in Hi. apply Z.mod_small_iff in Hi; lia.
      * apply IH. exact Hrest.
    + intros H. inversion H as [|? ? Hi Hrest]; subst. f_equal.
      * simpl. apply Z.mod_small. exact Hi.
      * apply IH. exact Hrest.
Qed.

(** X18.  An index buffer made by [createIndexBuffer] returns the indices
    it was given exactly when every index is between 0 and 65535; an index
    outside that range is stored as its remainder modulo 65536. *)
Theorem createIndexBuffer_round_trip (array : list Z) :
  readBack (BufferUtilities.createIndexBuffer array None) 0
    (List.length array)
  = map (fun i => (i mod 65536)%Z) array /\
  (readBack (BufferUtilities.createIndexBuffer array None) 0
     (List.length array) = array
   <-> Forall (fun i => (0 <= i < 65536)%Z) array).
Proof.
  destruct (makeBufferCreator_fits ELEMENT_ARRAY_BUFFER Uint16Array array
              None (le_n _)) as (_ & _ & _ & Hread).
  unfold BufferUtilities.createIndexBuffer. rewrite Hread.
  split; [reflexivity|]. apply Uint16Array_exact.
Qed.

(** X18 at three indices in range. *)
Lemma createIndexBuffer_round_trip_witness :
  readBack (BufferUtilities.createIndexBuffer [0; 1; 2]%Z None) 0 3
  = [0; 1; 2]%Z.
Proof.
  apply (proj2 (proj2 (createIndexBuffer_round_trip [0; 1; 2]%Z))).
  repeat constructor; lia.
Defined.

(** ** Undefined coordinates in the extents *)

Lemma scanStep_NaNPoint (ext : vec3.t * vec3.t) :
  scanStep ext NaNPoint = (NaNPoint, NaNPoint).
Proof.
  destruct ext as [[a b c] [a' b' c']].
  unfold scanStep, Model.updateMinExtents, Model.updateMaxExtents,
    Model.makeExtentsUpdater, NaNPoint, Ngt, Nlt.
  cbn [fst snd vec3.x vec3.y vec3.z].
  destruct a, b, c, a', b', c'; reflexivity.
Qed.

Lemma scanStep_after_NaN (x y z : R) :
  scanStep (NaNPoint, NaNPoint) (vec x y z) = (vec x y z, vec x y z).
Proof.
  reflexivity.
Qed.

Lemma computeExtents_NaN_resets {F32 : Type} (this this' : Model.t F32)
  (pre : list vec3.t) (post : list (R * R * R)) :
  Model._computeExtents this = Normal this' ->
  visitedPoints (Model.json this)
    = pre ++ NaNPoint
          :: map (fun p => vec (fst (fst p)) (snd (fst p)) (snd p)) post ->
  match post with
  | [] =>
    Model.min this' = NaNPoint /\ Model.max this' = NaNPoint /\
    Model.center this' = NaNPoint /\ Model.diagonal this' = NaN
  | (x, y, z) :: rest =>
    Model.min this'
      = vec (fold_left Rmin (map (fun p => fst (fst p)) rest) x)
            (fold_left Rmin (map (fun p => snd (fst p)) rest) y)
            (fold_left Rmin (map (fun p => snd p) rest) z) /\
    Model.max this'
      = vec (fold_left Rmax (map (fun p => fst (fst p)) rest) x)
            (fold_left Rmax (map (fun p => snd (fst p)) rest) y)
            (fold_left Rmax (map (fun p => snd p) rest) z)
  end.
Proof.
  intros Hrun Hpts.
  destruct (computeExtents_scan this this' Hrun) as (Hscan & Hc & Hd).
  rewrite Hpts in Hscan. unfold scan in Hscan.
  rewrite fold_left_app in Hscan. cbn [fold_left] in Hscan.
  rewrite scanStep_NaNPoint in Hscan.
  destruct post as [|[[x y] z] rest].
  - cbn [map fold_left] in Hscan.
    assert (Hmin : Model.min this' = NaNPoint) by congruence.
    assert (Hmax : Model.max this' = NaNPoint) by congruence.
    rewrite Hc, Hd, Hmin, Hmax. repeat split; reflexivity.
  - cbn [map fold_left fst snd] in Hscan.
    rewrite scanStep_after_NaN, scan_real_from in Hscan.
    split; congruence.
Qed.

(** X19.  A visited point whose coordinates are undefined makes the scan
    forget what came before it.  When it is the last point visited, [min],
    [max] and [center] are NaN on every axis and [diagonal] is NaN; when
    real points follow, [min] and [max] are the per-axis minimum and
    maximum of those points alone, the values the scan started from
    included in neither. *)
Theorem computeExtents_NaN_point {F32 : Type} (this this' : Model.t F32)
  (pre : list vec3.t) (post : list (R * R * R)) :
  Model._computeExtents this = Normal this' ->
  visitedPoints (Model.json this)
    = pre ++ NaNPoint
          :: map (fun p => vec (fst (fst p)) (snd (fst p)) (snd p)) post ->
  match post with
  | [] =>
    Model.min this' = NaNPoint /\ Model.max this' = NaNPoint /\
    Model.center this' = NaNPoint /\ Model.diagonal this' = NaN
  | (x, y, z) :: rest =>
    Model.min this'
      = vec (fold_left Rmin (map (fun p => fst (fst p)) rest) x)
            (fold_left Rmin (map (fun p => snd (fst p)) rest) y)
            (fold_left Rmin (map (fun p => snd p) rest) z) /\
    Model.max this'
      = vec (fold_left Rmax (map (fun p => fst (fst p)) rest) x)
            (fold_left Rmax (map (fun p => snd (fst p)) rest) y)
            (fold_left Rmax (map (fun p => snd p) rest) z)
  end.
Proof.
  exact (computeExtents_NaN_resets this this' pre post).
Qed.

Lemma raggedFirst_points :
  visitedPoints raggedFirstScene
  = [vec 1 2 3] ++ NaNPoint
      :: map (fun p => vec (fst (fst p)) (snd (fst p)) (snd p))
           [(-1, -1, -1)%R].
Proof.
  eval_points. unfold vec, NaNPoint. repeat f_equal; lra.
Qed.

(** X19 at a mesh of four position numbers visited before the vertex
    (-1, -1, -1): [max] is that vertex. *)
Lemma computeExtents_NaN_point_witness :
  exists this',
    Model._computeExtents (Model.new exactArray raggedFirstScene)
      = Normal this' /\
    Model.min this' = vec (-1) (-1) (-1) /\
    Model.max this' = vec (-1) (-1) (-1).
Proof.
  eexists. split; [reflexivity|].
  exact (computeExtents_NaN_point
           (Model.new exactArray raggedFirstScene) _
           [vec 1 2 3] [(-1, -1, -1)%R] eq_refl raggedFirst_points).
Defined.

(** ** The layout of the vertex buffer *)

Lemma meshSize_ext (m m' : Mesh) :
  sameData m m' -> stride m' = stride m -> meshSize m' = meshSize m.
Proof.
  intros (Hp & _) Hs. unfold meshSize, vertexCount. rewrite Hp, Hs.
  reflexivity.
Qed.

Lemma placed_same (ms1 ms' : list Mesh) :
  List.length ms' = List.length ms1 ->
  (forall k m', nth_error ms' k = Some m' ->
     exists m1, nth_error ms1 k = Some m1 /\
       sameData m1 m' /\ sameLayout m1 m') ->
  packed ms' = packed ms1 /\
  forall k, map meshSize (firstn k ms') = map meshSize (firstn k ms1).
Proof.
  revert ms'. induction ms1 as [|m1 ms1 IH]; intros [|m' ms'] Hlen Hnth;
    try discriminate.
  - split; [reflexivity|]. intros [|k]; reflexivity.
  - destruct (Hnth 0 m' eq_refl) as (m & Hm & Hd & Hl).
    simpl in Hm. inversion Hm; subst m; clear Hm.
    destruct (IH ms') as (Hp & Hs).
    + simpl in Hlen. lia.
    + intros k m2 Hk. apply (Hnth (S k) m2 Hk).
    + destruct Hl as (Hh & Hst & _). split.
      * unfold packed in *. cbn [flat_map].
        rewrite Hp, (packedMesh_ext m1 m' Hd Hh). reflexivity.
      * intros [|k]; [reflexivity|]. cbn [firstn map].
        rewrite (Hs k), (meshSize_ext m1 m' Hd Hst). reflexivity.
Qed.

Lemma initBuffers_contiguous {F32 : Type} (Float32Array : TypedArray R F32)
  (s : Scene) (this' : Model.t F32) (locals : Model.Locals) :
  wellFormed s -> wholeTriples s ->
  Model._initBuffers (Model.new Float32Array s) = Normal (this', locals) ->
  store (Buffer.rawBuffer (Model.vbo this'))
    = map (element Float32Array) (packed (meshes (Model.json this'))) /\
  forall k m', nth_error (meshes (Model.json this')) k = Some m' ->
    positionsOffset m'
      = Some (list_sum (map meshSize
                          (firstn k (meshes (Model.json this'))))) /\
    List.length (packedMesh m') = meshSize m'.
Proof.
  intros Hwf Htr H.
  destruct (initBuffers_packs Float32Array s this' locals Hwf Htr H)
    as (ms1 & Hsize & Hpk & _ & _ & _ & Hstore & _ & _ & Hnth).
  destruct (initBuffers_meshes _ _ _ H) as (Hlen & _).
  apply sizeLoop_spec in Hsize. destruct Hsize as (Hlen1 & _).
  simpl in Hlen.
  destruct (placed_same ms1 (meshes (Model.json this'))) as (Hp & Hs).
  - congruence.
  - intros k m' Hk. destruct (Hnth k m' Hk) as (m1 & Hm1 & Hd & Hl & _).
    exists m1. auto.
  - split; [rewrite Hp; exact Hstore|].
    intros k m' Hk.
    destruct (Hnth k m' Hk) as (m1 & Hm1 & Hd & (Hh & Hst & _) & Hpo & _).
    split; [rewrite Hs; exact Hpo|].
    rewrite Forall_forall in Hpk.
    destruct (Hpk m1 (nth_error_In _ _ Hm1)) as (n & Hn).
    rewrite (packedMesh_ext m1 m' Hd Hh), (meshSize_ext m1 m' Hd Hst).
    rewrite (packedMesh_length m1 n Hn).
    destruct (packable_meshSize m1 n Hn) as (_ & Hms). lia.
Qed.

(** X20.  On a well-formed scene of whole triples the vertex buffer is the
    interleaved records of the meshes, one mesh after the other, with
    nothing between and nothing after them: every mesh starts at the
    element count of the meshes before it ([positionsOffset]) and takes
    [stride] elements for each of its vertices. *)
Theorem initBuffers_vertex_layout {F32 : Type}
  (Float32Array : TypedArray R F32) (s : Scene) (this' : Model.t F32)
  (locals : Model.Locals) :
  wellFormed s -> wholeTriples s ->
  Model._initBuffers (Model.new Float32Array s) = Normal (this', locals) ->
  store (Buffer.rawBuffer (Model.vbo this'))
    = map (element Float32Array) (packed (meshes (Model.json this'))) /\
  forall k m', nth_error (meshes (Model.json this')) k = Some m' ->
    positionsOffset m'
      = Some (list_sum (map meshSize
                          (firstn k (meshes (Model.json this'))))) /\
    List.length (packedMesh m') = meshSize m'.
Proof.
  exact (initBuffers_contiguous Float32Array s this' locals).
Qed.

(** X20 at the two-mesh scene. *)
Lemma initBuffers_vertex_layout_witness :
  wellFormed twoMeshScene /\ wholeTriples twoMeshScene /\
  exists this' locals,
    Model._initBuffers (Model.new exactArray twoMeshScene)
      = Normal (this', locals) /\
    store (Buffer.rawBuffer (Model.vbo this'))
      = map (element exactArray) (packed (meshes (Model.json this'))) /\
    forall k m', nth_error (meshes (Model.json this')) k = Some m' ->
      positionsOffset m'
        = Some (list_sum (map meshSize
                            (firstn k (meshes (Model.json this'))))) /\
      List.length (packedMesh m') = meshSize m'.
Proof.
  split; [exact twoMeshScene_wellFormed|].
  split; [exact twoMeshScene_wholeTriples|].
  eexists. eexists. split; [run_initBuffers|].
  eapply (initBuffers_vertex_layout exactArray twoMeshScene);
    [exact twoMeshScene_wellFormed|exact twoMeshScene_wholeTriples|].
  run_initBuffers.
Defined.

(** ** The normal matrices *)

Lemma normalMatrixLoop_stops (degenerate : mat4.Degenerate)
  (nds : list Node) :
  forall e nds',
  Model.normalMatrixLoop degenerate nds = Throw e nds' ->
  exists before node after before' stopped,
    nds = before ++ node :: after /\
    Model.normalMatrixLoop degenerate before = Normal before' /\
    Model.normalMatrixBody degenerate node = Throw e stopped /\
    nds' = before' ++ stopped :: after.
Proof.
  induction nds as [|n nds IH]; intros e nds' H; [discriminate|].
  cbn [Model.normalMatrixLoop] in H.
  destruct (Model.normalMatrixBody degenerate n) as [n'|e0 n'] eqn:Hb.
  - destruct (Model.normalMatrixLoop degenerate nds) as [r|e1 r] eqn:Hl;
      [discriminate|].
    inversion H; subst; clear H.
    destruct (IH _ _ eq_refl)
      as (before & node & after & before' & stopped
          & -> & Hbefore & Hnode & ->).
    exists (n :: before), node, after, (n' :: before'), stopped.
    split; [reflexivity|].
    split; [cbn [Model.normalMatrixLoop]; rewrite Hb, Hbefore; reflexivity|].
    split; [exact Hnode|reflexivity].
  - inversion H; subst; clear H.
    exists [], n, nds, [], n'.
    split; [reflexivity|]. split; [reflexivity|].
    split; [exact Hb|reflexivity].
Qed.

Lemma normalMatrixBody_again (degenerate : mat4.Degenerate)
  (node node' : Node) :
  Model.normalMatrixBody degenerate node = Normal node' ->
  Model.normalMatrixBody degenerate node' = Normal node' /\
  normalMatrix node' <> None.
Proof.
  unfold Model.normalMatrixBody.
  destruct node as [[mat|] idxs nm]; cbn; [|discriminate].
  destruct (mat4.inverse degenerate mat (mat4.Numbers mat4.create)) as [left|] eqn:Hi;
    [|discriminate].
  intros H. inversion H; subst; clear H. cbn. rewrite Hi.
  split; [reflexivity|discriminate].
Qed.

Lemma normalMatrixLoop_again (degenerate : mat4.Degenerate)
  (nds : list Node) :
  forall nds',
  Model.normalMatrixLoop degenerate nds = Normal nds' ->
  Model.normalMatrixLoop degenerate nds' = Normal nds' /\
  Forall (fun node' => normalMatrix node' <> None) nds'.
Proof.
  induction nds as [|n nds IH]; intros nds' H.
  - inversion H. split; [reflexivity|constructor].
  - cbn [Model.normalMatrixLoop] in H.
    destruct (Model.normalMatrixBody degenerate n) as [n'|] eqn:Hb;
      [|discriminate].
    destruct (Model.normalMatrixLoop degenerate nds) as [r|] eqn:Hl;
      [|discriminate].
    inversion H; subst; clear H.
    destruct (normalMatrixBody_again _ _ _ Hb) as (Hb' & Hnm).
    destruct (IH _ eq_refl) as (Hl' & Hall).
    split; [|constructor; assumption].
    cbn [Model.normalMatrixLoop]. rewrite Hb', Hl'. reflexivity.
Qed.

Lemma initNormalMatrices_stops {F32 : Type} (degenerate : mat4.Degenerate)
  (this : Model.t F32) :
  (forall this',
     Model._initNormalMatrices degenerate this = Normal this' ->
     sameButNormalMatrices this' this /\
     Forall (fun node' => normalMatrix node' <> None)
       (nodes (Model.json this')) /\
     Model._initNormalMatrices degenerate this' = Normal this') /\
  (forall e s,
     Model._initNormalMatrices degenerate this = Throw e s ->
     sameButNormalMatrices s this /\
     exists before node after before' stopped,
       nodes (Model.json this) = before ++ node :: after /\
       Model.normalMatrixLoop degenerate before = Normal before' /\
       Model.normalMatrixBody degenerate node = Throw e stopped /\
       nodes (Model.json s) = before' ++ stopped :: after).
Proof.
  pose proof (initNormalMatrices_keeps degenerate this) as Hk.
  split.
  - intros this' H. rewrite H in Hk. split; [exact Hk|].
    unfold Model._initNormalMatrices in *.
    destruct (Model.normalMatrixLoop degenerate (nodes (Model.json this)))
      as [nds'|] eqn:Hl; [|discriminate].
    inversion H; subst; clear H.
    destruct (normalMatrixLoop_again _ _ _ Hl) as (Hl' & Hall).
    split; [exact Hall|].
    cbn [Model.json Model.with_nodes nodes]. rewrite Hl'. reflexivity.
  - intros e s H. rewrite H in Hk. split; [exact Hk|].
    unfold Model._initNormalMatrices in H.
    destruct (Model.normalMatrixLoop degenerate (nodes (Model.json this)))
      as [nds'|e' nds'] eqn:Hl; [discriminate|].
    inversion H; subst; clear H.
    exact (normalMatrixLoop_stops _ _ _ _ Hl).
Qed.

(** X21.  [_initNormalMatrices] touches only the [normalMatrix] properties
    of the nodes: whether it returns or throws, the number of nodes, each
    node's [modelMatrix] and [meshIndices], the meshes, the materials, the
    buffers and the extents are as before.  When it returns, every node
    has a normal matrix and running it again changes nothing.  When it
    throws, it stops at the first node whose loop body throws: the nodes
    before it are as the loop leaves them, that node is as the body left
    it, and the nodes after it are untouched. *)
Theorem initNormalMatrices_frame {F32 : Type} (degenerate : mat4.Degenerate)
  (this : Model.t F32) :
  (forall this',
     Model._initNormalMatrices degenerate this = Normal this' ->
     sameButNormalMatrices this' this /\
     Forall (fun node' => normalMatrix node' <> None)
       (nodes (Model.json this')) /\
     Model._initNormalMatrices degenerate this' = Normal this') /\
  (forall e s,
     Model._initNormalMatrices degenerate this = Throw e s ->
     sameButNormalMatrices s this /\
     exists before node after before' stopped,
       nodes (Model.json this) = before ++ node :: after /\
       Model.normalMatrixLoop degenerate before = Normal before' /\
       Model.normalMatrixBody degenerate node = Throw e stopped /\
       nodes (Model.json s) = before' ++ stopped :: after).
Proof.
  exact (initNormalMatrices_stops degenerate this).
Qed.

Lemma unplacedScene_first :
  exists first,
    Model.normalMatrixBody leavesDestination (parsedNode mat4.identity [0])
      = Normal first /\
    normalMatrix first = Some (mat4.Numbers mat4.identity).
Proof.
  destruct (normalMatrixBody_invertible leavesDestination
              (parsedNode mat4.identity [0]) mat4.identity mat4.identity
              eq_refl (mat4_mul_identity_l mat4.identity))
    as (first & Hb & Hnm).
  exists first. split; [exact Hb|exact Hnm].
Qed.

(** X21 at a scene whose second node has no [modelMatrix]: the loop throws
    there, the first node has its normal matrix, and the second node has
    the fresh matrix the body assigned before [mat4.inverse] threw. *)
Lemma initNormalMatrices_frame_witness :
  exists s first,
    Model._initNormalMatrices leavesDestination
      (Model.new exactArray unplacedScene) = Throw TypeError s /\
    nodes (Model.json s)
      = [first; Model.set_normalMatrix unplacedNode (mat4.Numbers mat4.create)] /\
    normalMatrix first = Some (mat4.Numbers mat4.identity) /\
    sameButNormalMatrices s (Model.new exactArray unplacedScene).
Proof.
  destruct unplacedScene_first as (first & Hfirst & Hnm).
  assert (Hrun : Model._initNormalMatrices leavesDestination
                   (Model.new exactArray unplacedScene)
                 = Throw TypeError
                     (Model.with_nodes (Model.new exactArray unplacedScene)
                        [first;
                         Model.set_normalMatrix unplacedNode (mat4.Numbers mat4.create)])).
  { unfold Model._initNormalMatrices.
    cbn [Model.json Model.new nodes unplacedScene Model.normalMatrixLoop].
    rewrite Hfirst. reflexivity. }
  destruct (proj2 (initNormalMatrices_frame leavesDestination
                     (Model.new exactArray unplacedScene)) _ _ Hrun)
    as (Hsame & _).
  eexists. exists first. split; [exact Hrun|].
  split; [reflexivity|]. split; [exact Hnm|exact Hsame].
Defined.

(** ** Spherical coordinates *)

(** X22.  [sphericalToCartesian] takes a missing radius and a radius of 0
    for the radius 1: the point it returns for radius 0 is not the origin
    but lies on the unit sphere.  For every other radius [r] the point is
    at distance [|r|] from the origin (over the reals). *)
Theorem sphericalToCartesian_radius (theta phi : R) :
  Math.sphericalToCartesian theta phi None
    = Math.sphericalToCartesian theta phi (Some 1%R) /\
  Math.sphericalToCartesian theta phi (Some 0%R)
    = Math.sphericalToCartesian theta phi (Some 1%R) /\
  forall r : R, r <> 0%R ->
    let '(x, y, z) := Math.sphericalToCartesian theta phi (Some r) in
    (x * x + y * y + z * z = r * r)%R.
Proof.
  unfold Math.sphericalToCartesian. split; [|split].
  - destruct (Req_dec_T 1 0) as [H|_]; [lra|reflexivity].
  - destruct (Req_dec_T 0 0) as [_|H]; [|contradiction].
    destruct (Req_dec_T 1 0) as [H|_]; [lra|reflexivity].
  - intros r Hr. destruct (Req_dec_T r 0) as [H|_]; [contradiction|].
    pose proof (sin2_cos2 (Math.toRadians theta)) as Ht.
    pose proof (sin2_cos2 (Math.toRadians phi)) as Hp.
    unfold Rsqr in Ht, Hp.
    set (st := sin (Math.toRadians theta)) in *.
    set (ct := cos (Math.toRadians theta)) in *.
    set (sp := sin (Math.toRadians phi)) in *.
    set (cp := cos (Math.toRadians phi)) in *.
    replace (r * cp * st * (r * cp * st) + r * sp * st * (r * sp * st)
             + r * ct * (r * ct))%R
      with (r * r * (st * st * (sp * sp + cp * cp) + ct * ct))%R by ring.
    rewrite Hp, Rmult_1_r, Ht. ring.
Qed.

(** X22 at the documented call, [sphericalToCartesian(45, 45)], with the
    radius 2. *)
Lemma sphericalToCartesian_radius_witness :
  let '(x, y, z) := Math.sphericalToCartesian 45 45 (Some 2%R) in
  (x * x + y * y + z * z = 2 * 2)%R.
Proof.
  apply (proj2 (proj2 (sphericalToCartesian_radius 45 45)) 2%R). lra.
Defined.

(** ** The box of a scene with points *)

Lemma side_le_diagonal (u v w : R) :
  (0 <= u)%R -> (u <= sqrt (u * u + v * v + w * w))%R.
Proof.
  intros Hu.
  pose proof (Rle_0_sqr v) as Hv. pose proof (Rle_0_sqr w) as Hw.
  unfold Rsqr in Hv, Hw.
  rewrite <- (sqrt_square u Hu) at 1.
  apply sqrt_le_1_alt. lra.
Qed.

Lemma computeExtents_box_of_points {F32 : Type} (this this' : Model.t F32)
  (pts : list (R * R * R)) :
  Model._computeExtents this = Normal this' ->
  visitedPoints (Model.json this)
    = map (fun p => vec (fst (fst p)) (snd (fst p)) (snd p)) pts ->
  pts <> [] ->
  exists a b c a' b' c' d : R,
    Model.min this' = vec a b c /\
    Model.max this' = vec a' b' c' /\
    (a <= a')%R /\ (b <= b')%R /\ (c <= c')%R /\
    Model.center this' = vec ((a + a') / 2) ((b + b') / 2) ((c + c') / 2) /\
    Model.diagonal this' = Num d /\
    (a' - a <= d)%R /\ (b' - b <= d)%R /\ (c' - c <= d)%R.
Proof.
  intros Hrun Hpts Hne.
  destruct (computeExtents_scan this this' Hrun) as (Hscan & Hc & Hd).
  rewrite Hpts, scan_real in Hscan.
  assert (Hmin := f_equal fst Hscan). assert (Hmax := f_equal snd Hscan).
  cbn [fst snd] in Hmin, Hmax.
  destruct pts as [|[[x y] z] rest]; [contradiction|].
  destruct (fold_Rmin_bound (map (fun p => fst (fst p)) ((x, y, z) :: rest))
              Number_MAX_VALUE) as (_ & Hx1 & _).
  destruct (fold_Rmin_bound (map (fun p => snd (fst p)) ((x, y, z) :: rest))
              Number_MAX_VALUE) as (_ & Hy1 & _).
  destruct (fold_Rmin_bound (map (fun p => snd p) ((x, y, z) :: rest))
              Number_MAX_VALUE) as (_ & Hz1 & _).
  destruct (fold_Rmax_bound (map (fun p => fst (fst p)) ((x, y, z) :: rest))
              (- Number_MIN_VALUE)%R) as (_ & Hx2 & _).
  destruct (fold_Rmax_bound (map (fun p => snd (fst p)) ((x, y, z) :: rest))
              (- Number_MIN_VALUE)%R) as (_ & Hy2 & _).
  destruct (fold_Rmax_bound (map (fun p => snd p) ((x, y, z) :: rest))
              (- Number_MIN_VALUE)%R) as (_ & Hz2 & _).
  specialize (Hx1 x (or_introl eq_refl)).
  specialize (Hy1 y (or_introl eq_refl)).
  specialize (Hz1 z (or_introl eq_refl)).
  specialize (Hx2 x (or_introl eq_refl)).
  specialize (Hy2 y (or_introl eq_refl)).
  specialize (Hz2 z (or_introl eq_refl)).
  rewrite Hmin, Hmax, vec_center in Hc. rewrite Hmin, Hmax, vec_dist in Hd.
  do 7 eexists.
  split; [exact Hmin|]. split; [exact Hmax|].
  split; [lra|]. split; [lra|]. split; [lra|].
  split; [exact Hc|]. split; [exact Hd|].
  split; [|split].
  - apply side_le_diagonal. lra.
  - match goal with
    | |- (?v <= sqrt (?u * ?u + ?v * ?v + ?w * ?w))%R =>
      replace (u * u + v * v + w * w)%R with (v * v + u * u + w * w)%R
        by ring
    end.
    apply side_le_diagonal. lra.
  - match goal with
    | |- (?w <= sqrt (?u * ?u + ?v * ?v + ?w * ?w))%R =>
      replace (u * u + v * v + w * w)%R with (w * w + u * u + v * v)%R
        by ring
    end.
    apply side_le_diagonal. lra.
Qed.

(** X23.  When the scan visits at least one point and all visited points
    are real, the extents are a proper box: [min] is not above [max] on
    any axis, [center] is the midpoint of the two, and [diagonal] is a
    real number not smaller than any side of the box. *)
Theorem computeExtents_proper_box {F32 : Type} (this this' : Model.t F32)
  (pts : list (R * R * R)) :
  Model._computeExtents this = Normal this' ->
  visitedPoints (Model.json this)
    = map (fun p => vec (fst (fst p)) (snd (fst p)) (snd p)) pts ->
  pts <> [] ->
  exists a b c a' b' c' d : R,
    Model.min this' = vec a b c /\
    Model.max this' = vec a' b' c' /\
    (a <= a')%R /\ (b <= b')%R /\ (c <= c')%R /\
    Model.center this' = vec ((a + a') / 2) ((b + b') / 2) ((c + c') / 2) /\
    Model.diagonal this' = Num d /\
    (a' - a <= d)%R /\ (b' - b <= d)%R /\ (c' - c <= d)%R.
Proof.
  exact (computeExtents_box_of_points this this' pts).
Qed.

(** X23 at the triangle moved by 5 along x. *)
Lemma computeExtents_proper_box_witness :
  exists this',
    Model._computeExtents
      (Model.new exactArray (triangleScene (mat4.translation 5 0 0)))
      = Normal this' /\
    exists a b c a' b' c' d : R,
      Model.min this' = vec a b c /\
      Model.max this' = vec a' b' c' /\
      (a <= a')%R /\ (b <= b')%R /\ (c <= c')%R /\
      Model.center this'
        = vec ((a + a') / 2) ((b + b') / 2) ((c + c') / 2) /\
      Model.diagonal this' = Num d /\
      (a' - a <= d)%R /\ (b' - b <= d)%R /\ (c' - c <= d)%R.
Proof.
  eexists. split; [reflexivity|].
  apply (computeExtents_proper_box
           (Model.new exactArray (triangleScene (mat4.translation 5 0 0)))
           _ [(5, 0, 0); (7, 0, 0); (5, 2, 0)]%R eq_refl
           triangle_translated_points).
  discriminate.
Defined.

(** ** Running [_initBuffers] again *)

Lemma write_sameContents {A E : Type} (a b : Buffer.t A E) (data : list A)
  (index : option nat) :
  sameContents a b ->
  sameContents (Buffer.write a data index) (Buffer.write b data index).
Proof.
  intros (Ht & Hs & Hl). unfold sameContents, Buffer.write, bufferSubData.
  cbn. rewrite Ht, Hs. auto.
Qed.

Lemma vertexLoop_sameContents {F32 : Type} (m : Mesh) (positions : list R) :
  forall (fuel j k : nat) (a b : Buffer.t R F32) (w : nat),
  sameContents a b ->
  match Model.vertexLoop fuel m positions j k a w,
        Model.vertexLoop fuel m positions j k b w with
  | Normal (a', wa), Normal (b', wb) => sameContents a' b' /\ wa = wb
  | Throw _ _, Throw _ _ => True
  | _, _ => False
  end.
Proof.
  induction fuel as [|fuel IH]; intros j k a b w Hab.
  - simpl. auto.
  - cbn [Model.vertexLoop].
    destruct (j <? List.length positions); [|auto].
    destruct (vertexNormals m) as [normals|]; [|exact I].
    destruct (truthy (hasTexture m)).
    + destruct (texChannel0 m) as [texCoords|]; [|exact I].
      apply IH. repeat apply write_sameContents. exact Hab.
    + apply IH. repeat apply write_sameContents. exact Hab.
Qed.

Lemma vertexLoop_withOffsets {F32 : Type} (m : Mesh) (w0 : nat)
  (positions : list R) :
  forall (fuel j k : nat) (a : Buffer.t R F32) (w : nat),
  Model.vertexLoop fuel (withOffsets w0 m) positions j k a w
  = Model.vertexLoop fuel m positions j k a w.
Proof.
  assert (H : vertexNormals (withOffsets w0 m) = vertexNormals m /\
              hasTexture (withOffsets w0 m) = hasTexture m /\
              texChannel0 (withOffsets w0 m) = texChannel0 m).
  { unfold withOffsets, texChannel0. simpl.
    destruct (truthy (hasTexture m)); repeat split; reflexivity. }
  destruct H as (Hn & Hh & Ht).
  induction fuel as [|fuel IH]; intros j k a w; [reflexivity|].
  cbn [Model.vertexLoop]. rewrite Hn, Hh, Ht.
  destruct (j <? List.length positions); [|reflexivity].
  destruct (vertexNormals m) as [normals|]; [|reflexivity].
  destruct (truthy (hasTexture m)).
  - destruct (texChannel0 m) as [texCoords|]; [|reflexivity]. apply IH.
  - apply IH.
Qed.

Lemma withOffsets_idem (w : nat) (m : Mesh) :
  withOffsets w (withOffsets w m) = withOffsets w m.
Proof.
  destruct m as [p n t ix mi ht hi st po no to io ibo].
  unfold withOffsets. simpl. destruct (truthy ht) eqn:Hh; simpl;
    rewrite ?Hh; reflexivity.
Qed.

Lemma writeBody_withOffsets {F32 : Type} (m m' : Mesh)
  (vbo vbo' : Buffer.t R F32) (ibo ibo' : Buffer.t Z Z) (w w' : nat) :
  Model.writeBody m vbo ibo w = Normal (m', vbo', ibo', w') ->
  m' = withOffsets w m.
Proof.
  unfold Model.writeBody. fold (withOffsets w m).
  destruct (vertexPositions (withOffsets w m)) as [positions|];
    [|discriminate].
  destruct (Model.vertexLoop _ _ positions 0 0 vbo w) as [[vbo1 w1]|];
    [|discriminate].
  intros H. inversion H. reflexivity.
Qed.

Ltac mesh_fields :=
  cbv beta iota zeta delta
    [Model.sizeBody texChannel0 withOffsets truthy
     set_hasTexture set_stride set_hasIndices set_indicesOffset
     set_indicesByteOffset set_positionsOffset set_normalsOffset
     set_texCoordsOffset
     vertexPositions vertexNormals vertexTexCoordinates indices
     materialIndex hasTexture hasIndices stride positionsOffset
     normalsOffset texCoordsOffset indicesOffset indicesByteOffset].

Ltac mesh_fields_in H :=
  cbv beta iota zeta delta
    [Model.sizeBody texChannel0 withOffsets truthy
     set_hasTexture set_stride set_hasIndices set_indicesOffset
     set_indicesByteOffset set_positionsOffset set_normalsOffset
     set_texCoordsOffset
     vertexPositions vertexNormals vertexTexCoordinates indices
     materialIndex hasTexture hasIndices stride positionsOffset
     normalsOffset texCoordsOffset indicesOffset indicesByteOffset] in H.

Lemma sizeBody_withOffsets (materials : list Material) (m m1 : Mesh)
  (v i v1 i1 w : nat) :
  Model.sizeBody materials m v i = Normal (m1, v1, i1) ->
  Model.sizeBody materials (withOffsets w m1) v i
  = Normal (withOffsets w m1, v1, i1).
Proof.
  destruct m as [p n t ix mi ht hi st po no to io ibo].
  intros H. mesh_fields_in H.
  destruct p as [positions|]; [|discriminate].
  destruct n as [normals|]; [|discriminate].
  destruct t as [[|[|tc0 tcs] channels]|]; cbn [nth_error] in H.
  - destruct ix as [[|i0 idx']|]; injection H as <- <- <-;
      mesh_fields; reflexivity.
  - destruct ix as [[|i0 idx']|]; injection H as <- <- <-;
      mesh_fields; reflexivity.
  - destruct (nth_error materials mi) as [curMaterial|] eqn:Hmat;
      [|discriminate].
    destruct (diffuseTexture curMaterial) as [paths|] eqn:Hdt;
      [|discriminate].
    destruct (0 <? List.length paths) eqn:Hd;
      destruct ix as [[|i0 idx']|]; injection H as <- <- <-;
      mesh_fields; cbn [nth_error]; rewrite Hmat, Hdt, Hd;
      reflexivity.
  - destruct ix as [[|i0 idx']|]; injection H as <- <- <-;
      mesh_fields; reflexivity.
Qed.

Lemma writeBody_again {F32 : Type} (m1 m2 : Mesh)
  (vbo vbo1 vboB : Buffer.t R F32) (ibo ibo1 iboB : Buffer.t Z Z)
  (w w1 : nat) :
  Model.writeBody m1 vbo ibo w = Normal (m2, vbo1, ibo1, w1) ->
  sameContents vbo vboB -> sameContents ibo iboB ->
  exists vboB1 iboB1,
    Model.writeBody m2 vboB iboB w = Normal (m2, vboB1, iboB1, w1) /\
    sameContents vbo1 vboB1 /\ sameContents ibo1 iboB1.
Proof.
  intros Hrun Hv Hi.
  pose proof (writeBody_withOffsets _ _ _ _ _ _ _ _ Hrun) as ->.
  unfold Model.writeBody in *. fold (withOffsets w m1) in Hrun.
  fold (withOffsets w (withOffsets w m1)). rewrite withOffsets_idem.
  destruct (vertexPositions (withOffsets w m1)) as [positions|];
    [|discriminate].
  pose proof (vertexLoop_sameContents (withOffsets w m1) positions
                (List.length positions) 0 0 vbo vboB w Hv) as Hloop.
  destruct (Model.vertexLoop _ _ positions 0 0 vbo w) as [[vboA wA]|];
    [|discriminate].
  destruct (Model.vertexLoop _ _ positions 0 0 vboB w) as [[vboB1 wB]|];
    [|contradiction].
  destruct Hloop as (Hv1 & <-).
  inversion Hrun; subst; clear Hrun.
  eexists. eexists. split; [reflexivity|]. split; [exact Hv1|].
  destruct (truthy (hasIndices (withOffsets w m1))); [|exact Hi].
  apply write_sameContents. exact Hi.
Qed.

Lemma initBuffers_loops_again {F32 : Type} (materials : list Material)
  (ms : list Mesh) :
  forall (v i v1 i1 : nat) (ms1 ms2 : list Mesh)
         (vbo vbo2 vboB : Buffer.t R F32) (ibo ibo2 iboB : Buffer.t Z Z)
         (w w2 : nat),
  Model.sizeLoop materials ms v i = Normal (ms1, v1, i1) ->
  Model.writeLoop ms1 vbo ibo w = Normal (ms2, vbo2, ibo2, w2) ->
  sameContents vbo vboB -> sameContents ibo iboB ->
  Model.sizeLoop materials ms2 v i = Normal (ms2, v1, i1) /\
  exists vboB2 iboB2,
    Model.writeLoop ms2 vboB iboB w = Normal (ms2, vboB2, iboB2, w2) /\
    sameContents vbo2 vboB2 /\ sameContents ibo2 iboB2.
Proof.
  induction ms as [|m ms IH];
    intros v i v1 i1 ms1 ms2 vbo vbo2 vboB ibo ibo2 iboB w w2 Hs Hw Hv Hi.
  - simpl in Hs. inversion Hs; subst. simpl in Hw. inversion Hw; subst.
    split; [reflexivity|]. eexists. eexists. split; [reflexivity|]. auto.
  - cbn [Model.sizeLoop] in Hs.
    destruct (Model.sizeBody materials m v i) as [[[m1 va] ia]|] eqn:Hsb;
      [|discriminate].
    destruct (Model.sizeLoop materials ms va ia) as [[[msa vb] ib]|] eqn:Hsl;
      [|discriminate].
    inversion Hs; subst; clear Hs.
    cbn [Model.writeLoop] in Hw.
    destruct (Model.writeBody m1 vbo ibo w)
      as [[[[m2 vboa] iboa] wa]|e [[m2 vboa] iboa]] eqn:Hwb; [|discriminate].
    destruct (Model.writeLoop msa vboa iboa wa)
      as [[[[msb vbob] ibob] wb]|e [[msb vbob] ibob]] eqn:Hwl;
      [|discriminate].
    inversion Hw; subst; clear Hw.
    destruct (writeBody_again _ _ _ _ _ _ _ _ _ _ Hwb Hv Hi)
      as (vboB1 & iboB1 & HwbB & Hv1 & Hi1).
    pose proof (writeBody_withOffsets _ _ _ _ _ _ _ _ Hwb) as Hm2.
    destruct (IH _ _ _ _ _ _ _ _ _ _ _ _ _ _ Hsl Hwl Hv1 Hi1)
      as (HslB & vboB2 & iboB2 & HwlB & Hv2 & Hi2).
    split.
    + cbn [Model.sizeLoop]. rewrite Hm2 at 1.
      rewrite (sizeBody_withOffsets materials m m1 v i va ia w Hsb).
      rewrite HslB, <- Hm2. reflexivity.
    + exists vboB2, iboB2. cbn [Model.writeLoop].
      rewrite HwbB, HwlB. auto.
Qed.

Lemma allocate_sameContents {A E : Type} (a b : Buffer.t A E) (n : nat) :
  Buffer.ArrayType a = Buffer.ArrayType b ->
  sameContents (Buffer.allocate a n) (Buffer.allocate b n).
Proof.
  intros H. unfold sameContents, Buffer.allocate. cbn. rewrite H. auto.
Qed.

Lemma vertexLoop_ArrayType {F32 : Type} (m : Mesh) (positions : list R) :
  forall (fuel j k : nat) (vbo vbo' : Buffer.t R F32) (w w' : nat),
  Model.vertexLoop fuel m positions j k vbo w = Normal (vbo', w') ->
  Buffer.ArrayType vbo' = Buffer.ArrayType vbo.
Proof.
  induction fuel as [|fuel IH]; intros j k vbo vbo' w w' H.
  - simpl in H. inversion H. reflexivity.
  - cbn [Model.vertexLoop] in H.
    destruct (j <? List.length positions);
      [|inversion H; reflexivity].
    destruct (vertexNormals m) as [normals|]; [|discriminate].
    destruct (truthy (hasTexture m)).
    + destruct (texChannel0 m) as [texCoords|]; [|discriminate].
      apply IH in H. exact H.
    + apply IH in H. exact H.
Qed.

Lemma writeLoop_ArrayType {F32 : Type} (ms : list Mesh) :
  forall (ms' : list Mesh) (vbo vbo' : Buffer.t R F32)
         (ibo ibo' : Buffer.t Z Z) (w w' : nat),
  Model.writeLoop ms vbo ibo w = Normal (ms', vbo', ibo', w') ->
  Buffer.ArrayType vbo' = Buffer.ArrayType vbo /\
  Buffer.ArrayType ibo' = Buffer.ArrayType ibo.
Proof.
  induction ms as [|m ms IH]; intros ms' vbo vbo' ibo ibo' w w' H.
  - simpl in H. inversion H. auto.
  - cbn [Model.writeLoop] in H.
    destruct (Model.writeBody m vbo ibo w)
      as [[[[m1 vbo1] ibo1] w1]|e [[m1 vbo1] ibo1]] eqn:Hb; [|discriminate].
    destruct (Model.writeLoop ms vbo1 ibo1 w1)
      as [[[[ms2 vbo2] ibo2] w2]|e [[ms2 vbo2] ibo2]] eqn:Hl; [|discriminate].
    inversion H; subst; clear H.
    destruct (IH _ _ _ _ _ _ _ Hl) as (Hv & Hi). rewrite Hv, Hi.
    unfold Model.writeBody in Hb.
    destruct (vertexPositions _) as [positions|]; [|discriminate].
    destruct (Model.vertexLoop _ _ positions 0 0 vbo w) as [[vboA wA]|] eqn:Hv1;
      [|discriminate].
    inversion Hb; subst; clear Hb.
    split; [exact (vertexLoop_ArrayType _ _ _ _ _ _ _ _ _ Hv1)|].
    destruct (truthy (hasIndices _)); reflexivity.
Qed.

Lemma initBuffers_again {F32 : Type} (this this1 : Model.t F32)
  (locals : Model.Locals) :
  Model._initBuffers this = Normal (this1, locals) ->
  exists this2,
    Model._initBuffers this1 = Normal (this2, locals) /\
    Model.json this2 = Model.json this1 /\
    sameContents (Model.vbo this1) (Model.vbo this2) /\
    sameContents (Model.ibo this1) (Model.ibo this2).
Proof.
  intros Hrun.
  destruct (initBuffers_passes _ _ _ Hrun)
    as (ms1 & vbo2 & ibo2 & Hsize & Hwrite & Hvbo & Hibo & Hmat & Hnodes).
  destruct (writeLoop_ArrayType _ _ _ _ _ _ _ _ Hwrite) as (Hva & Hia).
  cbn in Hva, Hia.
  destruct (initBuffers_loops_again _ _ _ _ _ _ _ _ _ _
              (Buffer.allocate (Model.vbo this1) (Model.vboSize locals))
              _ _
              (Buffer.allocate (Model.ibo this1) (Model.iboSize locals))
              _ _ Hsize Hwrite)
    as (Hsize2 & vboB2 & iboB2 & Hwrite2 & Hv2 & Hi2).
  - apply allocate_sameContents. rewrite Hvbo. symmetry. exact Hva.
  - apply allocate_sameContents. rewrite Hibo. symmetry. exact Hia.
  - unfold Model._initBuffers, Buffer.bind, Buffer.unbind.
    rewrite Hmat, Hsize2, Hwrite2.
    eexists. split; [destruct locals; reflexivity|].
    cbn [Model.json Model.vbo Model.ibo Model.with_buffers].
    split; [|split; [rewrite Hvbo; exact Hv2|rewrite Hibo; exact Hi2]].
    destruct (Model.json this1) as [ms mats nds]. reflexivity.
Qed.

(** X24.  Running [_initBuffers] a second time is harmless: on the model a
    first run left, it returns again, computes the same sizes and the same
    final write cursor, leaves every mesh object as it was, and fills the
    two buffers with the same contents. *)
Theorem initBuffers_idempotent {F32 : Type} (this this1 : Model.t F32)
  (locals : Model.Locals) :
  Model._initBuffers this = Normal (this1, locals) ->
  exists this2,
    Model._initBuffers this1 = Normal (this2, locals) /\
    Model.json this2 = Model.json this1 /\
    sameContents (Model.vbo this1) (Model.vbo this2) /\
    sameContents (Model.ibo this1) (Model.ibo this2).
Proof.
  exact (initBuffers_again this this1 locals).
Qed.

(** X24 at the two-mesh scene. *)
Lemma initBuffers_idempotent_witness :
  exists this1 locals this2,
    Model._initBuffers (Model.new exactArray twoMeshScene)
      = Normal (this1, locals) /\
    Model._initBuffers this1 = Normal (this2, locals) /\
    Model.json this2 = Model.json this1 /\
    sameContents (Model.vbo this1) (Model.vbo this2) /\
    sameContents (Model.ibo this1) (Model.ibo this2).
Proof.
  eexists. eexists.
  destruct (initBuffers_idempotent (Model.new exactArray twoMeshScene) _ _
              ltac:(run_initBuffers)) as (this2 & H).
  exists this2. split; [run_initBuffers|exact H].
Defined.
